(** * UIBuilder: conditional tags in glade files

    A shallow embedding of [syncthing_gtk/uibuilder.py]: the condition
    evaluator [UIBuilder.condition_met], the two recursive passes of
    [UIBuilder._build] ([_objects_n_icons] and [_find_conditions]) and the
    helpers they use, over a model of the minidom tree.

    Conventions of the embedding.
    - Python [unicode] strings are [string]s whose characters are read as the
      code points 0..255; [isspace] and [lower] follow Python 2's unicode
      tables on that range.
    - [self.conditions] (a Python [set]) is a list of names read through
      membership only.
    - A minidom node is a value of [node]; a Python reference to a node is
      its position (an index in the [childNodes] of the node being walked).
      [for child in node.childNodes] over a list that the body mutates is
      Python's list iterator: a counter that is bumped after every item and
      compared with the current length of the list ([for_live]).
    - Recursion that is not structural takes a [fuel] argument; running out
      of it is the third outcome [OutOfFuel] of [result].
    - Calls to [log] change nothing the builder reads; the one warning of
      the first pass is given by [oni_body_log]. Serialising the tree and
      handing it to [Gtk.Builder] are left out. *)

From Stdlib Require Import String Ascii List Arith Lia Bool.
Import ListNotations.
Local Open Scope string_scope.
Local Open Scope list_scope.

(** ** Python string methods *)

Module PyStr.

(** [unicode.isspace] on the code points below 256. *)
Definition isspace (c : ascii) : bool :=
  let n := nat_of_ascii c in
  (Nat.leb 9 n && Nat.leb n 13) || (Nat.leb 28 n && Nat.leb n 32)
  || Nat.eqb n 133 || Nat.eqb n 160.

(** [unicode.lower] on the code points below 256. *)
Definition lower_char (c : ascii) : ascii :=
  let n := nat_of_ascii c in
  if (Nat.leb 65 n && Nat.leb n 90)
     || (Nat.leb 192 n && Nat.leb n 222 && negb (Nat.eqb n 215))
  then ascii_of_nat (n + 32) else c.

Fixpoint lower (s : string) : string :=
  match s with
  | EmptyString => EmptyString
  | String c s' => String (lower_char c) (lower s')
  end.

Fixpoint lstrip (s : string) : string :=
  match s with
  | EmptyString => EmptyString
  | String c s' => if isspace c then lstrip s' else s
  end.

Fixpoint rstrip (s : string) : string :=
  match s with
  | EmptyString => EmptyString
  | String c s' =>
      match rstrip s' with
      | EmptyString => if isspace c then EmptyString else String c EmptyString
      | r => String c r
      end
  end.

(** [s.strip()] *)
Definition strip (s : string) : string := rstrip (lstrip s).

(** [c in s] for a one-character string [c]. *)
Fixpoint contains (c : ascii) (s : string) : bool :=
  match s with
  | EmptyString => false
  | String x s' => Ascii.eqb x c || contains c s'
  end.

(** The two sides of the first [c] in [s], when there is one. *)
Fixpoint cut (c : ascii) (s : string) : option (string * string) :=
  match s with
  | EmptyString => None
  | String x s' =>
      if Ascii.eqb x c then Some (EmptyString, s')
      else match cut c s' with
           | Some (l, r) => Some (String x l, r)
           | None => None
           end
  end.

(** [s.split(c, 1)] *)
Definition split1 (c : ascii) (s : string) : list string :=
  match cut c s with
  | Some (l, r) => [l; r]
  | None => [s]
  end.

(** [s.startswith(p)] *)
Fixpoint startswith (p s : string) : bool :=
  match p, s with
  | EmptyString, _ => true
  | String a p', String b s' => Ascii.eqb a b && startswith p' s'
  | String _ _, EmptyString => false
  end.

(** [s.endswith("/")] *)
Fixpoint endswith_char (c : ascii) (s : string) : bool :=
  match s with
  | EmptyString => false
  | String x EmptyString => Ascii.eqb x c
  | String _ s' => endswith_char c s'
  end.

(** [s[n:]] *)
Fixpoint slice_from (n : nat) (s : string) : string :=
  match n, s with
  | O, _ => s
  | S n', String _ s' => slice_from n' s'
  | S _, EmptyString => EmptyString
  end.

Definition all_space (s : string) : bool :=
  forallb isspace (list_ascii_of_string s).

End PyStr.
Import PyStr.

(** ** The condition evaluator *)

Module Cond.

(** An evaluation yields its value together with the names that were
    looked up in [self.conditions], in order; [None] is lack of fuel. *)
Definition ev (A : Type) : Type := option (A * list string).

Definition ev_ret {A} (a : A) : ev A := Some (a, []).

Definition ev_bind {A B} (m : ev A) (k : A -> ev B) : ev B :=
  match m with
  | None => None
  | Some (a, t1) =>
      match k a with
      | None => None
      | Some (b, t2) => Some (b, t1 ++ t2)
      end
  end.

(** [name in self.conditions] *)
Definition mem (name : string) (conditions : list string) : bool :=
  existsb (String.eqb name) conditions.

Definition ev_lookup (name : string) (conditions : list string) : ev bool :=
  Some (mem name conditions, [name]).

(** [for sub in subs: if met(sub): return True] then [return False] *)
Fixpoint any_met (met : string -> ev bool) (subs : list string) : ev bool :=
  match subs with
  | [] => ev_ret false
  | sub :: rest =>
      ev_bind (met sub) (fun b => if b then ev_ret true else any_met met rest)
  end.

(** [for sub in subs: if not met(sub): return False] then [return True] *)
Fixpoint all_met (met : string -> ev bool) (subs : list string) : ev bool :=
  match subs with
  | [] => ev_ret true
  | sub :: rest =>
      ev_bind (met sub) (fun b => if b then all_met met rest else ev_ret false)
  end.

(** [UIBuilder.condition_met], with the lookups it performs. *)
Fixpoint condition_met_run (fuel : nat) (conditions : list string)
    (cond : string) : ev bool :=
  match fuel with
  | O => None
  | S fuel' =>
      let self := condition_met_run fuel' conditions in
      if contains "|" cond then any_met self (split1 "|" cond)
      else if contains "&" cond then all_met self (split1 "&" cond)
      else if startswith "!" (strip cond) then
        ev_bind (self (slice_from 1 (strip cond)))
                (fun b => ev_ret (negb b))
      else ev_lookup (strip cond) conditions
  end.

(** Every recursive call is on a strictly shorter string, so this much
    fuel is always enough ([condition_met_run_fuel] below). *)
Definition evaluate (conditions : list string) (cond : string)
    : bool * list string :=
  match condition_met_run (S (String.length cond)) conditions cond with
  | Some r => r
  | None => (false, [])
  end.

Definition condition_met (conditions : list string) (cond : string) : bool :=
  fst (evaluate conditions cond).

Definition lookups (conditions : list string) (cond : string) : list string :=
  snd (evaluate conditions cond).

(** [UIBuilder.enable_condition] *)
Definition enable_condition (conditions : list string) (conds : list string)
    : list string :=
  fold_left (fun cs c => if mem c cs then cs else cs ++ [c]) conds conditions.

(** [UIBuilder.disable_condition]; [set.remove] raises [KeyError] on a
    name that is not in the set ([None] here). *)
Fixpoint disable_condition (conditions : list string) (conds : list string)
    : option (list string) :=
  match conds with
  | [] => Some conditions
  | c :: rest =>
      if mem c conditions
      then disable_condition
             (filter (fun x => negb (String.eqb c x)) conditions) rest
      else None
  end.

End Cond.
Import Cond.

(** ** The minidom tree *)

Module Dom.

(** A node of the parsed document: an element, a text, or a node of any
    other kind (comment, CDATA section, processing instruction), which the
    builder steps over. An attribute list stands for the dictionary of the
    element: the parser gives every name once. *)
#[warnings="-register-all"]
Inductive node : Type :=
| Element (tagName : string) (attributes : list (string * string))
          (childNodes : list node)
| Text (data : string)
| Comment (data : string).

(** [child.nodeType == child.ELEMENT_NODE] *)
Definition isElement (n : node) : bool :=
  match n with Element _ _ _ => true | _ => false end.

Definition tagName (n : node) : string :=
  match n with Element t _ _ => t | _ => "" end.

Definition attributes (n : node) : list (string * string) :=
  match n with Element _ a _ => a | _ => [] end.

Definition childNodes (n : node) : list node :=
  match n with Element _ _ cs => cs | _ => [] end.

Definition with_children (cs : list node) (n : node) : node :=
  match n with Element t a _ => Element t a cs | _ => n end.

Fixpoint lookup_attr (name : string) (attrs : list (string * string))
    : option string :=
  match attrs with
  | [] => None
  | (k, v) :: rest => if String.eqb k name then Some v else lookup_attr name rest
  end.

(** [Element.getAttribute]: the value, or [""] when there is none. *)
Definition getAttribute (n : node) (name : string) : string :=
  match lookup_attr name (attributes n) with
  | Some v => v
  | None => ""
  end.

(** [Element.removeAttribute] *)
Definition removeAttribute (n : node) (name : string) : node :=
  match n with
  | Element t a cs =>
      Element t (filter (fun kv => negb (String.eqb (fst kv) name)) a) cs
  | _ => n
  end.

(** [Node.cloneNode(True)]: a deep copy; values are their own copies. *)
Definition cloneNode (n : node) : node := n.

(** *** Child lists addressed by index *)

Fixpoint remove_at {A} (i : nat) (l : list A) : list A :=
  match l, i with
  | [], _ => []
  | _ :: l', O => l'
  | x :: l', S i' => x :: remove_at i' l'
  end.

Fixpoint insert_at {A} (i : nat) (x : A) (l : list A) : list A :=
  match i, l with
  | O, _ => x :: l
  | S i', y :: l' => y :: insert_at i' x l'
  | S _, [] => [x]
  end.

Fixpoint set_nth {A} (i : nat) (x : A) (l : list A) : list A :=
  match l, i with
  | [], _ => []
  | _ :: l', O => x :: l'
  | y :: l', S i' => y :: set_nth i' x l'
  end.

Fixpoint find_index {A} (p : A -> bool) (l : list A) : option nat :=
  match l with
  | [] => None
  | x :: l' =>
      if p x then Some 0
      else match find_index p l' with Some k => Some (S k) | None => None end
  end.

(** *** Outcomes *)

Inductive exn : Type :=
| AttributeError.  (* [None.cloneNode] *)

Inductive result (A : Type) : Type :=
| Ok (a : A)
| Raise (e : exn)
| OutOfFuel.
Arguments Ok {A} a.
Arguments Raise {A} e.
Arguments OutOfFuel {A}.

Definition bind {A B} (m : result A) (k : A -> result B) : result B :=
  match m with
  | Ok a => k a
  | Raise e => Raise e
  | OutOfFuel => OutOfFuel
  end.

(** [for child in items(s): s = body(child, s)] where the body may change
    the very list that is walked: the iterator holds a counter [i], yields
    item [i] of the list as it is now, and stops once [i] is past its end. *)
Fixpoint for_live {St : Type} (fuel : nat) (items : St -> list node)
    (body : nat -> node -> St -> result St) (i : nat) (s : St) : result St :=
  match nth_error (items s) i with
  | None => Ok s
  | Some child =>
      match fuel with
      | O => OutOfFuel
      | S fuel' => bind (body i child s) (for_live fuel' items body (S i))
      end
  end.

(** *** Tree locators *)

(** [getElementsByTagNameCI]: the direct children with that tag. *)
Definition getElementsByTagNameCI (n : node) (tagname : string) : list node :=
  filter (fun child => isElement child
                       && String.eqb (lower (tagName child)) (lower tagname))
         (childNodes n).

(** [search_for_id] *)
Fixpoint search_for_id (element : node) (id : string) : option node :=
  match element with
  | Element _ _ children =>
      (fix loop (cs : list node) : option node :=
         match cs with
         | [] => None
         | child :: rest =>
             if isElement child then
               if String.eqb id (getAttribute child "id") then Some child
               else match search_for_id child id with
                    | Some r => Some r
                    | None => loop rest
                    end
             else loop rest
         end) children
  | _ => None
  end.

(** The [Document] node [self.xml]: only its [childNodes], which hold the
    document element, are ever read. *)
Definition xml (documentElement : node) : node :=
  Element "#document" [] [documentElement].

(** *** Where a node sits in the document

    While a pass walks the children of a node, the rest of the document is
    the chain of its ancestors with their other children. *)
Record frame : Type := Frame {
  f_tag : string;
  f_attrs : list (string * string);
  f_before : list node;
  f_after : list node
}.

Definition ctx : Type := list frame.

Fixpoint plug (z : ctx) (n : node) : node :=
  match z with
  | [] => n
  | f :: z' => plug z' (Element (f_tag f) (f_attrs f) (f_before f ++ n :: f_after f))
  end.

(** The frame of child [i] of an element with children [ks]. *)
Definition frame_at (t : string) (a : list (string * string)) (i : nat)
    (ks : list node) : frame :=
  Frame t a (firstn i ks) (skipn (S i) ks).

End Dom.
Import Dom.

Declare Scope result_scope.
Notation "x <- m ;; k" := (bind m (fun x => k))
(at level 61, m at next level, right associativity) : result_scope.
Local Open Scope result_scope.

(** ** The builder *)

Module Builder.

(** [UIBuilder.replace_icon_path] *)
Definition replace_icon_path (icon_paths : list (string * string))
    (prefix replace_with : string) : list (string * string) :=
  let prefix := if endswith_char "/" prefix then prefix else (prefix ++ "/")%string in
  let replace_with :=
    if endswith_char "/" replace_with then replace_with
    else (replace_with ++ "/")%string in
  icon_paths ++ [(prefix, replace_with)].

(** The local [replace] of [_check_icon_path]. *)
Fixpoint replace (icon_paths : list (string * string)) (path : string) : string :=
  match icon_paths with
  | [] => path
  | (prefix, replace_with) :: rest =>
      if startswith prefix path
      then (replace_with ++ slice_from (String.length prefix) path)%string
      else replace rest path
  end.

(** [UIBuilder._check_icon_path] *)
Definition _check_icon_path (icon_paths : list (string * string))
    (element : node) : node :=
  with_children
    (map (fun n => match n with
                   | Text data => Text (replace icon_paths data)
                   | _ => n
                   end) (childNodes element))
    element.

(** The body of the loop of [_objects_n_icons] over the children [ks] of
    the element [<t a>] that sits at [z]: [plug z (Element t a ks)] is the
    whole document element at that moment. [self] is the recursive call. *)
Definition oni_body (self : ctx -> node -> result node)
    (icon_paths : list (string * string)) (z : ctx) (t : string)
    (a : list (string * string)) (i : nat) (child : node) (ks : list node)
    : result (list node) :=
  if isElement child then
    if String.eqb (lower (tagName child)) "copyobject" then
      let id := getAttribute child "id" in
      if String.eqb id "" then Ok ks (* log.warn *)
      else
        match search_for_id (xml (plug z (Element t a ks))) id with
        | None => Raise AttributeError
        | Some obj =>
            let cpy := cloneNode obj in
            (* child.parentNode.appendChild(cpy) *)
            let ks1 := ks ++ [cpy] in
            (* child.parentNode.insertBefore(cpy, child) *)
            let ks2 := insert_at i cpy (remove_at (length ks) ks1) in
            (* child.parentNode.removeChild(child) *)
            let ks3 := remove_at (S i) ks2 in
            cpy' <- self (frame_at t a i ks3 :: z) cpy ;;
            Ok (set_nth i cpy' ks3)
        end
    else
      child1 <- self (frame_at t a i ks :: z) child ;;
      let child2 :=
        if String.eqb (lower (tagName child1)) "property" then
          if String.eqb (getAttribute child1 "name") "pixbuf"
          then _check_icon_path icon_paths child1
          else if String.eqb (getAttribute child1 "name") "icon"
          then _check_icon_path icon_paths child1
          else child1
        else child1 in
      Ok (set_nth i child2 ks)
  else Ok ks.

(** The records that one turn of that loop hands to [log] itself (those of
    the recursive call apart): the only call is the [log.warn] for a
    [copyobject] without id. *)
Definition oni_body_log (child : node) : list string :=
  if isElement child then
    if String.eqb (lower (tagName child)) "copyobject" then
      if String.eqb (getAttribute child "id") ""
      then ["COPYOBJECT tag without id"]
      else []
    else []
  else [].

(** [UIBuilder._objects_n_icons] *)
Fixpoint _objects_n_icons (fuel : nat) (icon_paths : list (string * string))
    (z : ctx) (node : Dom.node) : result Dom.node :=
  match fuel with
  | O => OutOfFuel
  | S fuel' =>
      match node with
      | Element t a ks0 =>
          ks' <- for_live fuel' (fun ks => ks)
                   (oni_body (_objects_n_icons fuel' icon_paths) icon_paths z t a)
                   0 ks0 ;;
          Ok (Element t a ks')
      | _ => Ok node
      end
  end.

(** *** [merge_with_parent]

    The state is the child list [pk] of [insert_before.parentNode] and the
    index [j] of [insert_before] in it. The wrapper [element] is
    [insert_before] itself ([None]) or its child number [k] ([Some k]);
    these are the two ways [_solve_if_element] calls it. *)

Definition wrapper_children (w : option nat) (s : list node * nat) : list node :=
  match nth_error (fst s) (snd s) with
  | Some ib =>
      match w with
      | None => childNodes ib
      | Some k =>
          match nth_error (childNodes ib) k with
          | Some e => childNodes e
          | None => []
          end
      end
  | None => []
  end.

Definition set_wrapper_children (w : option nat) (cs : list node)
    (s : list node * nat) : list node :=
  match nth_error (fst s) (snd s) with
  | Some ib =>
      match w with
      | None => set_nth (snd s) (with_children cs ib) (fst s)
      | Some k =>
          match nth_error (childNodes ib) k with
          | Some e =>
              set_nth (snd s)
                (with_children (set_nth k (with_children cs e) (childNodes ib)) ib)
                (fst s)
          | None => fst s
          end
      end
  | None => fst s
  end.

Definition mwp_body (w : option nat) (i : nat) (child : node)
    (s : list node * nat) : result (list node * nat) :=
  if isElement child then
    (* element.removeChild(child) *)
    let pk1 := set_wrapper_children w (remove_at i (wrapper_children w s)) s in
    (* insert_before.parentNode.appendChild(child) *)
    let pk2 := pk1 ++ [child] in
    (* insert_before.parentNode.insertBefore(child, insert_before) *)
    let pk3 := insert_at (snd s) child (remove_at (length pk1) pk2) in
    Ok (pk3, S (snd s))
  else Ok s.

Definition merge_with_parent (fuel : nat) (w : option nat)
    (s : list node * nat) : result (list node * nat) :=
  s' <- for_live fuel (wrapper_children w) (mwp_body w) 0 s ;;
  (* element.parentNode.removeChild(element) *)
  match w with
  | None => Ok (remove_at (snd s') (fst s'), snd s')
  | Some k =>
      match nth_error (fst s') (snd s') with
      | Some ib =>
          Ok (set_nth (snd s')
                (with_children (remove_at k (childNodes ib)) ib) (fst s'),
              snd s')
      | None => Ok s'
      end
  end.

Definition is_else (n : node) : bool :=
  isElement n && String.eqb (lower (tagName n)) (lower "else").

(** [for elseem in getElementsByTagNameCI(element, "else"):
       element.removeChild(elseem)].
    The snapshot is walked in document order, so the one to remove is each
    time the first [else] child that is left. *)
Fixpoint remove_elses (snapshot : list node) (cs : list node) : list node :=
  match snapshot with
  | [] => cs
  | _ :: rest =>
      remove_elses rest
        (match find_index is_else cs with
         | Some k => remove_at k cs
         | None => cs
         end)
  end.

(** [for elseem in getElementsByTagNameCI(element, "else"):
       merge_with_parent(elseem, element)].
    Each merge ends by removing its [elseem] from [element], so here too
    the one at hand is the first [else] child that is left. *)
Fixpoint merge_elses (fuel : nat) (snapshot : list node)
    (s : list node * nat) : result (list node * nat) :=
  match snapshot with
  | [] => Ok s
  | _ :: rest =>
      match nth_error (fst s) (snd s) with
      | Some element =>
          match find_index is_else (childNodes element) with
          | Some k =>
              s' <- merge_with_parent fuel (Some k) s ;;
              merge_elses fuel rest s'
          | None => merge_elses fuel rest s
          end
      | None => Ok s
      end
  end.

(** [UIBuilder._solve_if_element] for the element at index [j] of the
    child list [pk] of its parent; the result is the new child list. *)
Definition _solve_if_element (fuel : nat) (conditions : list string)
    (pk : list node) (j : nat) : result (list node) :=
  match nth_error pk j with
  | None => Ok pk
  | Some element =>
      let condition := strip (lower (getAttribute element "condition")) in
      if condition_met conditions condition then
        let cs := remove_elses (getElementsByTagNameCI element "else")
                    (childNodes element) in
        s <- merge_with_parent fuel None
               (set_nth j (with_children cs element) pk, j) ;;
        Ok (fst s)
      else
        s <- merge_elses fuel (getElementsByTagNameCI element "else") (pk, j) ;;
        (* element.parentNode.removeChild(element) *)
        Ok (remove_at (snd s) (fst s))
  end.

(** The body of the loop of [_find_conditions] over the children [ks] of
    [node]; [self] is the recursive call. *)
Definition fc_body (self : node -> result node) (fuel : nat)
    (conditions : list string) (i : nat) (child : node) (ks : list node)
    : result (list node) :=
  if isElement child then
    child1 <- self child ;;
    let ks := set_nth i child1 ks in
    if String.eqb (lower (tagName child1)) "if" then
      _solve_if_element fuel conditions ks i
    else if negb (String.eqb (getAttribute child1 "if") "") then
      let condition := getAttribute child1 "if" in
      if negb (condition_met conditions condition)
      then Ok (remove_at i ks)  (* node.removeChild(child) *)
      else Ok (set_nth i (removeAttribute child1 "if") ks)
    else Ok ks
  else Ok ks.

(** [UIBuilder._find_conditions] *)
Fixpoint _find_conditions (fuel : nat) (conditions : list string)
    (node : Dom.node) : result Dom.node :=
  match fuel with
  | O => OutOfFuel
  | S fuel' =>
      match node with
      | Element t a ks0 =>
          ks' <- for_live fuel' (fun ks => ks)
                   (fc_body (_find_conditions fuel' conditions) fuel' conditions)
                   0 ks0 ;;
          Ok (Element t a ks')
      | _ => Ok node
      end
  end.

(** [UIBuilder._build], up to the serialisation of the tree: both passes
    over [self.xml.documentElement]. *)
Definition _build (fuel : nat) (conditions : list string)
    (icon_paths : list (string * string)) (documentElement : node)
    : result node :=
  root1 <- _objects_n_icons fuel icon_paths [] documentElement ;;
  _find_conditions fuel conditions root1.

End Builder.
Import Builder.

(** ** Vocabulary of the statements *)

Module Spec.

(** An element that only the builder understands: an [if], [else] or
    [copyobject] element, or one with a non-empty [if] attribute. *)
Definition templating (n : node) : bool :=
  isElement n
  && (String.eqb (lower (tagName n)) "if"
      || String.eqb (lower (tagName n)) "else"
      || String.eqb (lower (tagName n)) "copyobject"
      || negb (String.eqb (getAttribute n "if") "")).

(** Some node of the tree is a templating element. *)
Fixpoint has_templating (n : node) : bool :=
  templating n
  || match n with
     | Element _ _ cs => existsb has_templating cs
     | _ => false
     end.

(** The element children among [cs]. *)
Definition elements (cs : list node) : list node := filter isElement cs.

(** The number of nodes of a tree, and of a list of trees. *)
Fixpoint node_size (n : node) : nat :=
  match n with
  | Element _ _ cs => S (fold_right (fun c acc => node_size c + acc) 0 cs)
  | _ => 1
  end.

Definition list_size (cs : list node) : nat :=
  fold_right (fun c acc => node_size c + acc) 0 cs.

(** What the loop of [merge_with_parent] does to the children [cs] of the
    wrapper: the elements it moves out, and what it leaves behind. After
    an element has been taken out the iterator steps over its successor. *)
Fixpoint merge_walk (cs : list node) : list node * list node :=
  match cs with
  | [] => ([], [])
  | c :: rest =>
      if isElement c then
        match rest with
        | [] => ([c], [])
        | d :: rest' => let (m, l) := merge_walk rest' in (c :: m, d :: l)
        end
      else let (m, l) := merge_walk rest in (m, c :: l)
  end.

(** What [_solve_if_element] puts in the place of the [if] element [e]. *)
Definition promoted (conditions : list string) (e : node) : list node :=
  if condition_met conditions (strip (lower (getAttribute e "condition")))
  then fst (merge_walk (filter (fun c => negb (is_else c)) (childNodes e)))
  else flat_map (fun el => fst (merge_walk (childNodes el)))
                (filter is_else (childNodes e)).

(** What one turn of the loop of [_find_conditions] leaves in the place of
    a child element, given that child as the recursive call returned it. *)
Definition fc_step (conditions : list string) (child1 : node) : list node :=
  if String.eqb (lower (tagName child1)) "if" then promoted conditions child1
  else if negb (String.eqb (getAttribute child1 "if") "") then
    if negb (condition_met conditions (getAttribute child1 "if")) then []
    else [removeAttribute child1 "if"]
  else [child1].

(** The answer of the loop of [search_for_id] at one child: the child
    itself when it is an element with that id, else what is found in it. *)
Definition search_child (id : string) (child : node) : option node :=
  if isElement child then
    if String.eqb id (getAttribute child "id") then Some child
    else search_for_id child id
  else None.

(** The loop of [search_for_id] over a list of children. *)
Definition search_children (id : string) (cs : list node) : option node :=
  search_for_id (Element "" [] cs) id.

(** No node of the trees [cs] is a templating element. *)
Definition static (cs : list node) : bool :=
  forallb (fun c => negb (has_templating c)) cs.

(** No two element nodes are next to each other in [cs]: between two
    elements there is a text or a comment, as in an indented file. *)
Fixpoint sep (cs : list node) : bool :=
  match cs with
  | c :: (d :: _) as rest => negb (isElement c && isElement d) && sep rest
  | _ => true
  end.

(** A tree the second pass resolves in full: no [copyobject] elements,
    [else] elements only as children of [if] elements ([u] tells whether
    the parent is one), and children that are never next to each other. *)
Fixpoint regular (u : bool) (n : node) : bool :=
  match n with
  | Element t _ cs =>
      negb (String.eqb (lower t) "copyobject")
      && (negb (String.eqb (lower t) "else") || u)
      && sep cs
      && forallb (regular (String.eqb (lower t) "if")) cs
  | _ => true
  end.

(** What the second pass leaves among the children of an element: trees
    without templating elements and, under an [if] element ([u]), [else]
    elements without an [if] attribute over such trees. *)
Definition good (u : bool) (n : node) : bool :=
  negb (has_templating n)
  || (u && is_else n && String.eqb (getAttribute n "if") ""
      && static (childNodes n)).

(** The state of the loop of [_find_conditions] at counter [i] over the
    children of an element: resolved nodes up to the counter, then nodes
    without templating elements that were moved up and will be met again,
    then children that are still as they were. *)
Definition walking (u : bool) (i : nat) (ks : list node) : Prop :=
  exists done cl orig,
    ks = done ++ cl ++ orig
    /\ forallb (good u) done = true
    /\ static cl = true
    /\ forallb (regular u) orig = true
    /\ sep orig = true
    /\ (length done = i \/ (cl ++ orig = [] /\ length done <= i)).

(** A [copyobject] element; one with an id is one that the first pass
    replaces by a copy. *)
Definition is_copyobject (n : node) : bool :=
  isElement n && String.eqb (lower (tagName n)) "copyobject".

Definition live (n : node) : bool :=
  is_copyobject n && negb (String.eqb (getAttribute n "id") "").

(** The tree is, or has in it, a [copyobject] with an id. *)
Fixpoint has_live (n : node) : bool :=
  live n
  || match n with
     | Element _ _ cs => existsb has_live cs
     | _ => false
     end.

(** No [copyobject] with an id in the trees [cs]. *)
Definition quiet (cs : list node) : bool :=
  forallb (fun c => negb (has_live c)) cs.

(** No element that carries a non-empty id, and so may be copied, has a
    [copyobject] with an id below it. *)
Fixpoint sources_quiet (n : node) : bool :=
  match n with
  | Element _ _ cs =>
      (String.eqb (getAttribute n "id") "" || quiet cs)
      && forallb sources_quiet cs
  | _ => true
  end.

(** The same for the part of the document around a place [z], where [b]
    tells whether what sits at [z] is, or has in it, a [copyobject] with
    an id. *)
Fixpoint ctx_quiet (z : ctx) (b : bool) : bool :=
  match z with
  | [] => true
  | f :: z' =>
      let around := f_before f ++ f_after f in
      let here := Element (f_tag f) (f_attrs f) [] in
      forallb sources_quiet around
      && (String.eqb (getAttribute here "id") "" || (negb b && quiet around))
      && ctx_quiet z' (live here || b || negb (quiet around))
  end.

(** The elements of a tree in document order, each without its children. *)
Fixpoint labels (n : node) : list node :=
  match n with
  | Element t a cs => Element t a [] :: flat_map labels cs
  | _ => []
  end.

(** The first of them that carries the id [id]: the element
    [search_for_id] returns. *)
Definition first_with_id (id : string) (ls : list node) : option node :=
  find (fun l => String.eqb id (getAttribute l "id")) ls.

(** The first element that carries the id of a [copyobject] is never a
    [copyobject]: what is copied comes before its copies. *)
Definition sources_first (ls : list node) : bool :=
  forallb (fun l =>
             negb (is_copyobject l)
             || match first_with_id (getAttribute l "id") ls with
                | Some l' => negb (is_copyobject l')
                | None => true
                end) ls.

(** The same, as it is used: whatever first carries an id is no
    [copyobject]. *)
Definition first_is_source (ls : list node) : Prop :=
  forall id l, first_with_id id ls = Some l -> is_copyobject l = false.

(** A node without its children. *)
Definition label_of (n : node) : node := Element (tagName n) (attributes n) [].

(** Every [copyobject] element is empty and has an id; no [else] element
    has one. *)
Fixpoint tidy (n : node) : bool :=
  match n with
  | Element t a cs =>
      (negb (is_copyobject n)
       || (negb (String.eqb (getAttribute n "id") "")
           && match cs with [] => true | _ => false end))
      && (negb (is_else n) || String.eqb (getAttribute n "id") "")
      && forallb tidy cs
  | _ => true
  end.

(** Children are never next to each other, and [else] elements are
    children of [if] elements only. *)
Fixpoint shaped (n : node) : bool :=
  match n with
  | Element t a cs =>
      sep cs
      && forallb (fun k => (negb (is_else k) || String.eqb (lower t) "if")
                           && shaped k) cs
  | _ => true
  end.

(** No [copyobject] element in the tree. *)
Fixpoint copy_free (n : node) : bool :=
  negb (is_copyobject n)
  && match n with
     | Element _ _ cs => forallb copy_free cs
     | _ => true
     end.

(** The tree without its texts. *)
Fixpoint skeleton (n : node) : node :=
  match n with
  | Element t a cs => Element t a (map skeleton cs)
  | Text _ => Text ""
  | Comment d => Comment d
  end.

(** What holds of the document all along the first pass. *)
Definition copy_inv (doc : node) : Prop :=
  sources_quiet doc = true /\ tidy doc = true /\ shaped doc = true
  /\ first_is_source (labels doc).

(** A document on which the build resolves everything below the document
    element. *)
Definition ready (root : node) : bool :=
  sources_quiet root && tidy root && shaped root
  && sources_first (labels root)
  && forallb (fun k => negb (is_else k)) (childNodes root).

(** The icon paths of a [property] element fixed, as at the end of a turn
    of the loop of [_objects_n_icons]. *)
Definition icon_fix (icon_paths : list (string * string)) (child1 : node) : node :=
  if String.eqb (lower (tagName child1)) "property" then
    if String.eqb (getAttribute child1 "name") "pixbuf"
    then _check_icon_path icon_paths child1
    else if String.eqb (getAttribute child1 "name") "icon"
    then _check_icon_path icon_paths child1
    else child1
  else child1.

(** What [_objects_n_icons] makes of a tree in which it has nothing to
    copy: [copyobject] children are left alone, the icon paths of the
    other elements are fixed. *)
Fixpoint icons (icon_paths : list (string * string)) (n : node) : node :=
  match n with
  | Element t a cs =>
      Element t a
        (map (fun c =>
                if isElement c then
                  if String.eqb (lower (tagName c)) "copyobject" then c
                  else icon_fix icon_paths (icons icon_paths c)
                else c) cs)
  | _ => n
  end.

(** [<object id="a">] nested [n] times around [<copyobject id="a"/>]. *)
Fixpoint self_copy (n : nat) : node :=
  match n with
  | O => Element "copyobject" [("id", "a")] []
  | S n' => Element "object" [("id", "a")] [self_copy n']
  end.

(** The place of the only child of the innermost of [n] nested
    [<object id="a">] elements under the document element [<r>]. *)
Definition self_copy_ctx (n : nat) : ctx :=
  repeat (Frame "object" [("id", "a")] [] []) n ++ [Frame "r" [] [] []].

(** A name as [condition_met] can look it up: no [|] and no [&] in it, no
    [!] in front, no white space around it. *)
Definition plain (name : string) : bool :=
  negb (contains "|" name) && negb (contains "&" name)
  && negb (startswith "!" name) && String.eqb (strip name) name.

End Spec.
Import Spec.

(** * Facts *)

(** ** Strings *)

Section StringFacts.

Lemma cut_length c s l r :
  cut c s = Some (l, r) -> String.length s = S (String.length l + String.length r).
Proof.
  revert l r; induction s as [|x s IH]; simpl; intros l r H; [discriminate|].
  destruct (Ascii.eqb x c).
  - inversion H; subst; reflexivity.
  - destruct (cut c s) as [[l' r']|]; [|discriminate].
    inversion H; subst; simpl. rewrite (IH l' r); reflexivity.
Qed.

Lemma cut_contains c s : contains c s = true -> exists l r, cut c s = Some (l, r).
Proof.
  induction s as [|x s IH]; simpl; [discriminate|].
  destruct (Ascii.eqb x c); simpl; intros H.
  - eauto.
  - destruct (IH H) as (l & r & E). rewrite E. eauto.
Qed.

Lemma cut_not_contains c s : contains c s = false -> cut c s = None.
Proof.
  induction s as [|x s IH]; simpl; [reflexivity|].
  destruct (Ascii.eqb x c); simpl; [discriminate|].
  intros H. rewrite (IH H). reflexivity.
Qed.

Lemma cut_some_contains c s l r : cut c s = Some (l, r) -> contains c s = true.
Proof.
  destruct (contains c s) eqn:E; [reflexivity|].
  rewrite (cut_not_contains _ _ E). discriminate.
Qed.

(** The first [c] of [a ++ c ++ b] is the first [c] of [a], if [a] has one. *)
Lemma cut_app c a b :
  cut c (a ++ String c b)%string =
    match cut c a with
    | Some (l, r) => Some (l, (r ++ String c b)%string)
    | None => Some (a, b)
    end.
Proof.
  induction a as [|x a IH]; simpl.
  - rewrite Ascii.eqb_refl. reflexivity.
  - destruct (Ascii.eqb x c); [reflexivity|].
    rewrite IH. destruct (cut c a) as [[l r]|]; reflexivity.
Qed.

Lemma contains_app c a b :
  contains c (a ++ b)%string = contains c a || contains c b.
Proof.
  induction a as [|x a IH]; simpl; [reflexivity|].
  rewrite IH. apply orb_assoc.
Qed.

Lemma lstrip_length s : String.length (lstrip s) <= String.length s.
Proof.
  induction s as [|c s IH]; simpl; [lia|].
  destruct (isspace c); simpl; lia.
Qed.

Lemma rstrip_length s : String.length (rstrip s) <= String.length s.
Proof.
  induction s as [|c s IH]; simpl; [lia|].
  destruct (rstrip s); simpl in *; [destruct (isspace c); simpl; lia|lia].
Qed.

Lemma strip_length s : String.length (strip s) <= String.length s.
Proof.
  unfold strip. pose proof (rstrip_length (lstrip s)).
  pose proof (lstrip_length s). lia.
Qed.

Lemma startswith_bang s :
  startswith "!" s = true -> exists s', s = String "!"%char s'.
Proof.
  destruct s as [|c s]; intros H; [discriminate H|].
  cbn [startswith] in H. apply andb_true_iff in H as [H _].
  apply Ascii.eqb_eq in H. subst c. eauto.
Qed.

Lemma rstrip_cons c s :
  isspace c = false -> rstrip (String c s) = String c (rstrip s).
Proof.
  intros H. simpl. destruct (rstrip s); [rewrite H|]; reflexivity.
Qed.

Lemma rstrip_empty_lstrip s : rstrip s = EmptyString -> lstrip s = EmptyString.
Proof.
  induction s as [|c s IH]; simpl; [reflexivity|].
  destruct (rstrip s); [|discriminate].
  destruct (isspace c); [auto|discriminate].
Qed.

Lemma lstrip_rstrip s : lstrip (rstrip s) = rstrip (lstrip s).
Proof.
  induction s as [|c s IH]; [reflexivity|].
  destruct (isspace c) eqn:Hc.
  - simpl. rewrite Hc.
    destruct (rstrip s) eqn:E.
    + simpl. rewrite <- IH. reflexivity.
    + rewrite <- IH. simpl. rewrite Hc. reflexivity.
  - rewrite (rstrip_cons _ _ Hc). simpl. rewrite Hc.
    change (String c (rstrip s) = rstrip (String c s)).
    rewrite (rstrip_cons _ _ Hc). reflexivity.
Qed.

Lemma rstrip_idem s : rstrip (rstrip s) = rstrip s.
Proof.
  induction s as [|c s IH]; [reflexivity|].
  simpl. destruct (rstrip s) eqn:E.
  - destruct (isspace c) eqn:Hc; [reflexivity|]. simpl. rewrite Hc. reflexivity.
  - change (rstrip (String c (String a s0)) = String c (String a s0)).
    simpl in *. rewrite IH. reflexivity.
Qed.

Lemma strip_rstrip s : strip (rstrip s) = strip s.
Proof. unfold strip. rewrite lstrip_rstrip, rstrip_idem. reflexivity. Qed.

Lemma contains_rstrip c s : contains c s = false -> contains c (rstrip s) = false.
Proof.
  induction s as [|x s IH]; simpl; [reflexivity|].
  intros H. apply orb_false_iff in H as [H1 H2]. specialize (IH H2).
  destruct (rstrip s); simpl in *.
  - destruct (isspace x); simpl; [reflexivity|]. rewrite H1. reflexivity.
  - rewrite H1. exact IH.
Qed.

Lemma all_space_strip s : all_space s = true -> strip s = EmptyString.
Proof.
  unfold strip, all_space.
  induction s as [|c s IH]; simpl; [reflexivity|].
  intros H. apply andb_true_iff in H as [H1 H2]. rewrite H1. auto.
Qed.

Lemma all_space_contains c s :
  isspace c = false -> all_space s = true -> contains c s = false.
Proof.
  unfold all_space. intros Hc.
  induction s as [|x s IH]; simpl; [reflexivity|].
  intros H. apply andb_true_iff in H as [H1 H2]. rewrite (IH H2).
  destruct (Ascii.eqb_spec x c) as [->|]; [congruence|reflexivity].
Qed.

End StringFacts.

(** ** The condition evaluator *)

Section EvaluatorFacts.

Variable conditions : list string.

Local Abbreviation run fuel := (condition_met_run fuel conditions).

Lemma any_met_ext (f g : string -> ev bool) subs r :
  (forall s x, In s subs -> f s = Some x -> g s = Some x) ->
  any_met f subs = Some r -> any_met g subs = Some r.
Proof.
  revert r; induction subs as [|s subs IH]; simpl; intros r H E; [exact E|].
  unfold ev_bind in *.
  destruct (f s) as [[b t]|] eqn:Ef; [|discriminate].
  rewrite (H s _ (or_introl eq_refl) Ef).
  destruct b; [exact E|].
  destruct (any_met f subs) as [[b' t']|] eqn:Ea; [|discriminate].
  rewrite (IH _ (fun s x Hin => H s x (or_intror Hin)) eq_refl). exact E.
Qed.

Lemma all_met_ext (f g : string -> ev bool) subs r :
  (forall s x, In s subs -> f s = Some x -> g s = Some x) ->
  all_met f subs = Some r -> all_met g subs = Some r.
Proof.
  revert r; induction subs as [|s subs IH]; simpl; intros r H E; [exact E|].
  unfold ev_bind in *.
  destruct (f s) as [[b t]|] eqn:Ef; [|discriminate].
  rewrite (H s _ (or_introl eq_refl) Ef).
  destruct b; [|exact E].
  destruct (all_met f subs) as [[b' t']|] eqn:Ea; [|discriminate].
  rewrite (IH _ (fun s x Hin => H s x (or_intror Hin)) eq_refl). exact E.
Qed.

Lemma run_S fuel cond r : run fuel cond = Some r -> run (S fuel) cond = Some r.
Proof.
  revert cond r; induction fuel as [|fuel IH]; intros cond r E; [discriminate|].
  cbn [condition_met_run] in *.
  destruct (contains "|" cond).
  { eapply any_met_ext; [|exact E]. intros; apply IH; assumption. }
  destruct (contains "&" cond).
  { eapply all_met_ext; [|exact E]. intros; apply IH; assumption. }
  destruct (startswith "!" (strip cond)); [|exact E].
  unfold ev_bind in *.
  destruct (run fuel (slice_from 1 (strip cond))) as [[b t]|] eqn:E1; [|discriminate].
  rewrite (IH _ _ E1). exact E.
Qed.

Lemma run_le fuel fuel' cond r :
  fuel <= fuel' -> run fuel cond = Some r -> run fuel' cond = Some r.
Proof. induction 1; auto using run_S. Qed.

(** More fuel than the expression has characters is enough. *)
Lemma run_enough fuel cond :
  String.length cond < fuel -> exists r, run fuel cond = Some r.
Proof.
  revert cond; induction fuel as [|fuel IH]; intros cond Hl; [lia|].
  cbn [condition_met_run].
  destruct (contains "|" cond) eqn:Hor.
  { destruct (cut_contains _ _ Hor) as (l & r & Hc).
    pose proof (cut_length _ _ _ _ Hc).
    unfold split1; rewrite Hc. cbn [any_met]. unfold ev_bind, ev_ret.
    destruct (IH l ltac:(lia)) as [[bl tl] ->].
    destruct bl; [eauto|].
    destruct (IH r ltac:(lia)) as [[br tr] ->].
    destruct br; eauto. }
  destruct (contains "&" cond) eqn:Hand.
  { destruct (cut_contains _ _ Hand) as (l & r & Hc).
    pose proof (cut_length _ _ _ _ Hc).
    unfold split1; rewrite Hc. cbn [all_met]. unfold ev_bind, ev_ret.
    destruct (IH l ltac:(lia)) as [[bl tl] ->].
    destruct bl; [|eauto].
    destruct (IH r ltac:(lia)) as [[br tr] ->].
    destruct br; eauto. }
  destruct (startswith "!" (strip cond)) eqn:Hb; [|unfold ev_lookup; eauto].
  destruct (startswith_bang _ Hb) as [s' Hs].
  pose proof (strip_length cond) as Hlen. rewrite Hs in *. simpl in Hlen.
  cbn [slice_from]. unfold ev_bind, ev_ret.
  destruct (IH s' ltac:(lia)) as [[b t] ->]. eauto.
Qed.

Lemma run_evaluate fuel cond :
  String.length cond < fuel -> run fuel cond = Some (evaluate conditions cond).
Proof.
  intros Hl. unfold evaluate.
  destruct (run_enough (S (String.length cond)) cond ltac:(lia)) as [r Hr].
  rewrite Hr. eapply run_le; [|exact Hr]. lia.
Qed.

(** [condition_met] on an expression with a [|]. *)
Lemma evaluate_or cond l r :
  cut "|" cond = Some (l, r) ->
  evaluate conditions cond =
    if fst (evaluate conditions l) then (true, snd (evaluate conditions l))
    else (fst (evaluate conditions r),
          snd (evaluate conditions l) ++ snd (evaluate conditions r)).
Proof.
  intros Hc. pose proof (cut_length _ _ _ _ Hc) as Hl.
  unfold evaluate at 1. cbn [condition_met_run].
  rewrite (cut_some_contains _ _ _ _ Hc). unfold split1; rewrite Hc.
  cbn [any_met]. unfold ev_bind, ev_ret.
  rewrite (run_evaluate _ l) by lia.
  destruct (evaluate conditions l) as [bl tl]; cbn [fst snd].
  destruct bl; [rewrite app_nil_r; reflexivity|].
  rewrite (run_evaluate _ r) by lia.
  destruct (evaluate conditions r) as [br tr]; cbn [fst snd].
  destruct br; rewrite app_nil_r; reflexivity.
Qed.

(** [condition_met] on an expression with a [&] and no [|]. *)
Lemma evaluate_and cond l r :
  contains "|" cond = false ->
  cut "&" cond = Some (l, r) ->
  evaluate conditions cond =
    if fst (evaluate conditions l)
    then (fst (evaluate conditions r),
          snd (evaluate conditions l) ++ snd (evaluate conditions r))
    else (false, snd (evaluate conditions l)).
Proof.
  intros Hor Hc. pose proof (cut_length _ _ _ _ Hc) as Hl.
  unfold evaluate at 1. cbn [condition_met_run]. rewrite Hor.
  rewrite (cut_some_contains _ _ _ _ Hc). unfold split1; rewrite Hc.
  cbn [all_met]. unfold ev_bind, ev_ret.
  rewrite (run_evaluate _ l) by lia.
  destruct (evaluate conditions l) as [bl tl]; cbn [fst snd].
  destruct bl; [|rewrite app_nil_r; reflexivity].
  rewrite (run_evaluate _ r) by lia.
  destruct (evaluate conditions r) as [br tr]; cbn [fst snd].
  destruct br; rewrite app_nil_r; reflexivity.
Qed.

(** [condition_met] on an expression without [|] and [&]. *)
Lemma evaluate_flat cond :
  contains "|" cond = false ->
  contains "&" cond = false ->
  evaluate conditions cond =
    if startswith "!" (strip cond)
    then (negb (fst (evaluate conditions (slice_from 1 (strip cond)))),
          snd (evaluate conditions (slice_from 1 (strip cond))))
    else (mem (strip cond) conditions, [strip cond]).
Proof.
  intros Hor Hand. unfold evaluate at 1. cbn [condition_met_run].
  rewrite Hor, Hand.
  destruct (startswith "!" (strip cond)) eqn:Hb; [|reflexivity].
  destruct (startswith_bang _ Hb) as [s' Hs].
  pose proof (strip_length cond) as Hlen. rewrite Hs in *. simpl in Hlen.
  cbn [slice_from]. unfold ev_bind, ev_ret.
  rewrite (run_evaluate _ s') by lia.
  destruct (evaluate conditions s') as [b t]. rewrite app_nil_r. reflexivity.
Qed.

(** Without [|] and [&], only the stripped expression counts. *)
Lemma evaluate_rstrip cond :
  contains "|" cond = false ->
  contains "&" cond = false ->
  evaluate conditions (rstrip cond) = evaluate conditions cond.
Proof.
  intros Hor Hand.
  rewrite (evaluate_flat cond Hor Hand).
  rewrite (evaluate_flat (rstrip cond))
    by (apply contains_rstrip; assumption).
  rewrite strip_rstrip. reflexivity.
Qed.

End EvaluatorFacts.

(** ** Claims on the condition evaluator *)

Lemma condition_met_whitespace conditions s :
  all_space s = true -> condition_met conditions s = mem "" conditions.
Proof.
  intros Hs. unfold condition_met.
  rewrite evaluate_flat by (apply all_space_contains; [reflexivity|exact Hs]).
  rewrite (all_space_strip _ Hs). reflexivity.
Qed.

(** C1. The docstring of [condition_met] says that the empty condition is
    true; the code tests it for membership like any other name. With no
    condition enabled the empty expression, and an expression made of
    white space, evaluate to false; for every set of conditions the empty
    expression is true exactly when the empty name has been enabled. *)
Theorem condition_met_empty :
  condition_met [] "" = false
  /\ condition_met [] "  " = false
  /\ forall conditions, condition_met conditions "" = mem "" conditions.
Proof.
  split; [reflexivity|]. split; [reflexivity|].
  intros conditions. apply condition_met_whitespace. reflexivity.
Qed.

(** C2, as stated, fails when the negated expression has an operator:
    ["!a|b"] is [(!a) | b], not [!(a|b)]. *)
Lemma negation_of_disjunction_counterexample :
  condition_met ["b"] ("!" ++ "a|b")
  <> negb (condition_met ["b"] "a|b").
Proof. vm_compute. discriminate. Qed.

(** C2, amended. For an expression [a] without [|] and [&], ["!" + a]
    evaluates to the negation of [a]. *)
Theorem condition_met_not conditions a :
  contains "|" a = false ->
  contains "&" a = false ->
  condition_met conditions ("!" ++ a) = negb (condition_met conditions a).
Proof.
  intros Hor Hand. unfold condition_met.
  rewrite (evaluate_flat conditions ("!" ++ a))
    by (cbn [append contains]; rewrite ?Hor, ?Hand; reflexivity).
  assert (Hs : strip ("!" ++ a) = String "!"%char (rstrip a)).
  { unfold strip. change (lstrip ("!" ++ a)) with (String "!"%char a).
    apply rstrip_cons. reflexivity. }
  rewrite Hs. cbn [slice_from].
  replace (startswith "!" (String "!"%char (rstrip a))) with true by reflexivity.
  cbn [fst]. rewrite evaluate_rstrip by assumption. reflexivity.
Qed.

Lemma condition_met_not_witness :
  contains "|" "a " = false /\ contains "&" "a " = false
  /\ condition_met ["a"] ("!" ++ "a ") = negb (condition_met ["a"] "a ").
Proof.
  split; [reflexivity|]. split; [reflexivity|].
  apply (condition_met_not ["a"] "a "); reflexivity.
Defined.

Lemma evaluate_or_app conditions b :
  forall n a, String.length a <= n ->
  evaluate conditions (a ++ String "|"%char b) =
    if fst (evaluate conditions a) then (true, snd (evaluate conditions a))
    else (fst (evaluate conditions b),
          snd (evaluate conditions a) ++ snd (evaluate conditions b)).
Proof.
  induction n as [|n IH]; intros a Hn.
  - destruct a; [|simpl in Hn; lia].
    apply evaluate_or. reflexivity.
  - pose proof (cut_app "|"%char a b) as Hc.
    destruct (cut "|" a) as [[l r]|] eqn:Ha.
    + pose proof (cut_length _ _ _ _ Ha) as Hl.
      rewrite (evaluate_or conditions _ _ _ Hc).
      rewrite (evaluate_or conditions _ _ _ Ha).
      rewrite (IH r) by lia.
      destruct (evaluate conditions l) as [bl tl].
      destruct (evaluate conditions r) as [br tr].
      destruct (evaluate conditions b) as [bb tb].
      destruct bl, br; cbn [fst snd]; rewrite ?app_assoc; reflexivity.
    + apply evaluate_or. exact Hc.
Qed.

(** C3. [a + "|" + b] evaluates to the disjunction of [a] and [b], and the
    names it looks up are those of [a], followed by those of [b] only when
    [a] is false: when [a] is true nothing of [b] is evaluated. *)
Theorem condition_met_or conditions a b :
  condition_met conditions (a ++ "|" ++ b)
  = condition_met conditions a || condition_met conditions b
  /\ lookups conditions (a ++ "|" ++ b)
     = lookups conditions a
       ++ (if condition_met conditions a then [] else lookups conditions b).
Proof.
  unfold condition_met, lookups.
  change (a ++ "|" ++ b)%string with (a ++ String "|"%char b)%string.
  rewrite (evaluate_or_app conditions b (String.length a) a (le_n _)).
  destruct (evaluate conditions a) as [ba ta].
  destruct (evaluate conditions b) as [bb tb].
  destruct ba; cbn [fst snd orb]; rewrite ?app_nil_r; split; reflexivity.
Qed.

(** ** Child lists addressed by index *)

Section ListFacts.

Context {A : Type}.
Implicit Types (l : list A) (x y : A).

Lemma nth_error_mid l1 x l2 : nth_error (l1 ++ x :: l2) (length l1) = Some x.
Proof. induction l1; simpl; auto. Qed.

Lemma nth_error_split_at l i x :
  nth_error l i = Some x ->
  l = firstn i l ++ x :: skipn (S i) l /\ length (firstn i l) = i.
Proof.
  revert i; induction l as [|y l IH]; intros [|i] H; simpl in *; try discriminate.
  - inversion H; subst; auto.
  - destruct (IH _ H) as [E L]. rewrite L. rewrite <- E. auto.
Qed.

Lemma set_nth_mid l1 x y l2 : set_nth (length l1) y (l1 ++ x :: l2) = l1 ++ y :: l2.
Proof. induction l1; simpl; congruence. Qed.

Lemma remove_at_mid l1 x l2 : remove_at (length l1) (l1 ++ x :: l2) = l1 ++ l2.
Proof. induction l1; simpl; congruence. Qed.

Lemma insert_at_mid l1 x l2 : insert_at (length l1) x (l1 ++ l2) = l1 ++ x :: l2.
Proof.
  induction l1; simpl; [destruct l2; reflexivity|congruence].
Qed.

Lemma remove_at_last l x : remove_at (length l) (l ++ [x]) = l.
Proof. rewrite remove_at_mid. apply app_nil_r. Qed.

Lemma set_nth_same l i x : nth_error l i = Some x -> set_nth i x l = l.
Proof.
  revert i; induction l as [|y l IH]; intros [|i] H; simpl in *; try discriminate.
  - congruence.
  - rewrite (IH _ H). reflexivity.
Qed.

Lemma set_nth_length l i x : length (set_nth i x l) = length l.
Proof. revert i; induction l; intros [|i]; simpl; auto. Qed.

Lemma nth_error_set_nth l i x y :
  nth_error l i = Some y -> nth_error (set_nth i x l) i = Some x.
Proof.
  revert i; induction l; intros [|i] H; simpl in *; try discriminate; auto.
Qed.

Lemma set_nth_set_nth l i x y : set_nth i x (set_nth i y l) = set_nth i x l.
Proof. revert i; induction l; intros [|i]; simpl; congruence. Qed.

Lemma find_index_split (p : A -> bool) l k :
  find_index p l = Some k ->
  exists l1 x l2, l = l1 ++ x :: l2 /\ length l1 = k /\ p x = true
                  /\ forallb (fun y => negb (p y)) l1 = true.
Proof.
  revert k; induction l as [|y l IH]; simpl; intros k H; [discriminate|].
  destruct (p y) eqn:Hp.
  - inversion H; subst. exists [], y, l. auto.
  - destruct (find_index p l) as [k'|]; [|discriminate].
    inversion H; subst.
    destruct (IH _ eq_refl) as (l1 & x & l2 & -> & <- & Hx & Hl1).
    exists (y :: l1), x, l2. simpl. rewrite Hp, Hl1. auto.
Qed.

Lemma find_index_none (p : A -> bool) l :
  find_index p l = None -> filter p l = [].
Proof.
  induction l as [|y l IH]; simpl; [reflexivity|].
  destruct (p y); [discriminate|].
  destruct (find_index p l); [discriminate|auto].
Qed.

End ListFacts.

(** The three DOM calls that put [cpy] in the place of child [i]. *)
Lemma replace_child {A} (ks : list A) i (child cpy : A) :
  nth_error ks i = Some child ->
  remove_at (S i) (insert_at i cpy (remove_at (length ks) (ks ++ [cpy])))
  = set_nth i cpy ks.
Proof.
  intros H. destruct (nth_error_split_at _ _ _ H) as [E L].
  revert E L. generalize (firstn i ks) (skipn (S i) ks). intros l1 l2 E L.
  subst ks i. rewrite remove_at_last, insert_at_mid, set_nth_mid.
  clear H. induction l1 as [|y l1 IH]; [reflexivity|].
  change (y :: remove_at (S (length l1)) (l1 ++ cpy :: child :: l2)
          = y :: (l1 ++ cpy :: l2)).
  rewrite IH. reflexivity.
Qed.

(** ** The live iterator *)

Section ForLive.

Context {St : Type}.
Variable items : St -> list node.
Variable body : nat -> node -> St -> result St.

(** An invariant of the loop holds when it is over. *)
Lemma for_live_inv (I : nat -> St -> Prop) :
  (forall i s c s', I i s -> nth_error (items s) i = Some c ->
                    body i c s = Ok s' -> I (S i) s') ->
  forall fuel i s s',
    I i s -> for_live fuel items body i s = Ok s' ->
    exists i', I i' s' /\ nth_error (items s') i' = None.
Proof.
  intros Hstep. induction fuel as [|fuel IH]; intros i s s' Hi E; simpl in E.
  - destruct (nth_error (items s) i) eqn:En; [discriminate|].
    inversion E; subst. eauto.
  - destruct (nth_error (items s) i) eqn:En.
    + destruct (body i n s) eqn:Eb; simpl in E; try discriminate.
      eapply IH; [|exact E]. eauto.
    + inversion E; subst. eauto.
Qed.

(** A loop whose body succeeds and lowers a measure comes to its end. *)
Lemma for_live_total (I : nat -> St -> Prop) (mu : nat -> St -> nat) :
  (forall i s c, I i s -> nth_error (items s) i = Some c ->
     exists s', body i c s = Ok s' /\ I (S i) s' /\ mu (S i) s' < mu i s) ->
  forall fuel i s,
    I i s -> mu i s <= fuel ->
    exists s' i', for_live fuel items body i s = Ok s'
                  /\ I i' s' /\ nth_error (items s') i' = None.
Proof.
  intros Hstep. induction fuel as [|fuel IH]; intros i s Hi Hm; simpl.
  - destruct (nth_error (items s) i) eqn:En; [|eauto].
    destruct (Hstep _ _ _ Hi En) as (s' & _ & _ & Hlt). lia.
  - destruct (nth_error (items s) i) eqn:En; [|eauto].
    destruct (Hstep _ _ _ Hi En) as (s' & -> & Hi' & Hlt). simpl.
    apply IH; [assumption|lia].
Qed.

(** A loop whose body raises nothing raises nothing. *)
Lemma for_live_no_raise e :
  (forall i s c, nth_error (items s) i = Some c -> body i c s <> Raise e) ->
  forall fuel i s, for_live fuel items body i s <> Raise e.
Proof.
  intros Hb. induction fuel as [|fuel IH]; intros i s; simpl;
    destruct (nth_error (items s) i) eqn:En; try discriminate.
  destruct (body i n s) eqn:Eb; simpl; try discriminate; auto.
  intros H. inversion H; subst. exact (Hb _ _ _ En Eb).
Qed.

End ForLive.


(** ** [merge_with_parent] *)

Section Merge.

Variables (t : string) (a : list (string * string)) (after : list node).

Lemma mwp_body_self L kept c rest :
  isElement c = true ->
  mwp_body None (length kept) c
    (L ++ Element t a (kept ++ c :: rest) :: after, length L)
  = Ok ((L ++ [c]) ++ Element t a (kept ++ rest) :: after, length (L ++ [c])).
Proof.
  intros Hc. unfold mwp_body. rewrite Hc.
  unfold wrapper_children, set_wrapper_children. cbn [fst snd].
  rewrite nth_error_mid. cbn [childNodes with_children].
  rewrite (remove_at_mid kept), set_nth_mid, remove_at_last, insert_at_mid.
  rewrite <- app_assoc, length_app, Nat.add_1_r. reflexivity.
Qed.

Lemma merge_walk_cons2 c d rest :
  isElement c = true ->
  merge_walk (c :: d :: rest)
  = (c :: fst (merge_walk rest), d :: snd (merge_walk rest)).
Proof.
  intros Hc. cbn [merge_walk]. rewrite Hc.
  destruct (merge_walk rest); reflexivity.
Qed.

Lemma merge_walk_skip c rest :
  isElement c = false ->
  merge_walk (c :: rest) = (fst (merge_walk rest), c :: snd (merge_walk rest)).
Proof.
  intros Hc. cbn [merge_walk]. rewrite Hc.
  destruct (merge_walk rest); reflexivity.
Qed.

(** The loop, when the wrapper is the insertion point itself. *)
Lemma mwp_loop_self fuel :
  forall rest kept L,
    length rest <= fuel ->
    for_live fuel (wrapper_children None) (mwp_body None) (length kept)
      (L ++ Element t a (kept ++ rest) :: after, length L)
    = Ok ((L ++ fst (merge_walk rest))
            ++ Element t a (kept ++ snd (merge_walk rest)) :: after,
          length (L ++ fst (merge_walk rest))).
Proof.
  induction fuel as [|fuel IH]; intros rest kept L Hf.
  - destruct rest; [|simpl in Hf; lia].
    cbn [for_live merge_walk fst snd]. unfold wrapper_children. cbn [fst snd].
    rewrite nth_error_mid. cbn [childNodes].
    rewrite !app_nil_r.
    replace (nth_error kept (length kept)) with (@None node)
      by (symmetry; apply nth_error_None; lia).
    reflexivity.
  - destruct rest as [|c rest].
    + cbn [for_live merge_walk fst snd]. unfold wrapper_children. cbn [fst snd].
      rewrite nth_error_mid. cbn [childNodes]. rewrite !app_nil_r.
      replace (nth_error kept (length kept)) with (@None node)
        by (symmetry; apply nth_error_None; lia).
      reflexivity.
    + cbn [for_live]. unfold wrapper_children at 1. cbn [fst snd].
      rewrite nth_error_mid. cbn [childNodes]. rewrite nth_error_mid.
      destruct (isElement c) eqn:Hc.
      * rewrite (mwp_body_self _ _ _ _ Hc). cbn [bind].
        destruct rest as [|d rest].
        { cbn [merge_walk]. rewrite Hc. cbn [fst snd].
          destruct fuel; cbn [for_live]; unfold wrapper_children; cbn [fst snd];
            rewrite nth_error_mid; cbn [childNodes]; rewrite !app_nil_r;
            replace (nth_error kept (S (length kept))) with (@None node)
              by (symmetry; apply nth_error_None; lia);
            reflexivity. }
        rewrite (merge_walk_cons2 _ _ _ Hc). cbn [fst snd].
        replace (kept ++ d :: rest) with ((kept ++ [d]) ++ rest)
          by (rewrite <- app_assoc; reflexivity).
        replace (S (length kept)) with (length (kept ++ [d]))
          by (rewrite length_app; simpl; lia).
        rewrite IH by (simpl in Hf; lia).
        rewrite <- !app_assoc. reflexivity.
      * unfold mwp_body. rewrite Hc. cbn [bind].
        rewrite (merge_walk_skip _ _ Hc). cbn [fst snd].
        replace (kept ++ c :: rest) with ((kept ++ [c]) ++ rest)
          by (rewrite <- app_assoc; reflexivity).
        replace (S (length kept)) with (length (kept ++ [c]))
          by (rewrite length_app; simpl; lia).
        rewrite IH by (simpl in Hf; lia).
        rewrite <- !app_assoc. reflexivity.
Qed.

(** [merge_with_parent(element, element)] *)
Lemma merge_with_parent_self fuel L cs :
  length cs <= fuel ->
  merge_with_parent fuel None (L ++ Element t a cs :: after, length L)
  = Ok (L ++ fst (merge_walk cs) ++ after, length (L ++ fst (merge_walk cs))).
Proof.
  intros Hf. unfold merge_with_parent.
  pose proof (mwp_loop_self fuel cs [] L Hf) as H.
  cbn [app length] in H. rewrite H. cbn [bind fst snd app].
  rewrite remove_at_mid, <- app_assoc. reflexivity.
Qed.

Variables (et : string) (ea : list (string * string)) (c1 c2 : list node).

Lemma mwp_body_child L kept c rest :
  isElement c = true ->
  mwp_body (Some (length c1)) (length kept) c
    (L ++ Element t a (c1 ++ Element et ea (kept ++ c :: rest) :: c2) :: after,
     length L)
  = Ok ((L ++ [c])
          ++ Element t a (c1 ++ Element et ea (kept ++ rest) :: c2) :: after,
        length (L ++ [c])).
Proof.
  intros Hc. unfold mwp_body. rewrite Hc.
  unfold wrapper_children, set_wrapper_children. cbn [fst snd].
  rewrite nth_error_mid. cbn [childNodes with_children].
  rewrite nth_error_mid. cbn [childNodes with_children].
  rewrite (remove_at_mid kept), !set_nth_mid, remove_at_last, insert_at_mid.
  rewrite <- app_assoc, length_app, Nat.add_1_r. reflexivity.
Qed.

(** The loop, when the wrapper is a child of the insertion point. *)
Lemma mwp_loop_child fuel :
  forall rest kept L,
    length rest <= fuel ->
    for_live fuel (wrapper_children (Some (length c1)))
      (mwp_body (Some (length c1))) (length kept)
      (L ++ Element t a (c1 ++ Element et ea (kept ++ rest) :: c2) :: after,
       length L)
    = Ok ((L ++ fst (merge_walk rest))
            ++ Element t a
                 (c1 ++ Element et ea (kept ++ snd (merge_walk rest)) :: c2)
            :: after,
          length (L ++ fst (merge_walk rest))).
Proof.
  assert (Hend : forall fuel' kept' L' i, length kept' <= i ->
    for_live fuel' (wrapper_children (Some (length c1)))
      (mwp_body (Some (length c1))) i
      (L' ++ Element t a (c1 ++ Element et ea kept' :: c2) :: after, length L')
    = Ok (L' ++ Element t a (c1 ++ Element et ea kept' :: c2) :: after,
          length L')).
  { intros fuel' kept' L' i Hi.
    destruct fuel'; cbn [for_live]; unfold wrapper_children; cbn [fst snd];
      rewrite nth_error_mid; cbn [childNodes]; rewrite nth_error_mid;
      cbn [childNodes];
      replace (nth_error kept' i) with (@None node)
        by (symmetry; apply nth_error_None; lia);
      reflexivity. }
  induction fuel as [|fuel IH]; intros rest kept L Hf.
  - destruct rest; [|simpl in Hf; lia].
    cbn [merge_walk fst snd]. rewrite !app_nil_r. apply Hend. lia.
  - destruct rest as [|c rest].
    + cbn [merge_walk fst snd]. rewrite !app_nil_r. apply Hend. lia.
    + cbn [for_live]. unfold wrapper_children at 1. cbn [fst snd].
      rewrite nth_error_mid. cbn [childNodes]. rewrite nth_error_mid.
      cbn [childNodes]. rewrite nth_error_mid.
      destruct (isElement c) eqn:Hc.
      * rewrite (mwp_body_child _ _ _ _ Hc). cbn [bind].
        destruct rest as [|d rest].
        { cbn [merge_walk]. rewrite Hc. cbn [fst snd]. rewrite !app_nil_r.
          apply Hend. lia. }
        rewrite (merge_walk_cons2 _ _ _ Hc). cbn [fst snd].
        replace (kept ++ d :: rest) with ((kept ++ [d]) ++ rest)
          by (rewrite <- app_assoc; reflexivity).
        replace (S (length kept)) with (length (kept ++ [d]))
          by (rewrite length_app; simpl; lia).
        rewrite IH by (simpl in Hf; lia).
        rewrite <- !app_assoc. reflexivity.
      * unfold mwp_body. rewrite Hc. cbn [bind].
        rewrite (merge_walk_skip _ _ Hc). cbn [fst snd].
        replace (kept ++ c :: rest) with ((kept ++ [c]) ++ rest)
          by (rewrite <- app_assoc; reflexivity).
        replace (S (length kept)) with (length (kept ++ [c]))
          by (rewrite length_app; simpl; lia).
        rewrite IH by (simpl in Hf; lia).
        rewrite <- !app_assoc. reflexivity.
Qed.

(** [merge_with_parent(elseem, element)] *)
Lemma merge_with_parent_child fuel L es :
  length es <= fuel ->
  merge_with_parent fuel (Some (length c1))
    (L ++ Element t a (c1 ++ Element et ea es :: c2) :: after, length L)
  = Ok ((L ++ fst (merge_walk es)) ++ Element t a (c1 ++ c2) :: after,
        length (L ++ fst (merge_walk es))).
Proof.
  intros Hf. unfold merge_with_parent.
  pose proof (mwp_loop_child fuel es [] L Hf) as H.
  cbn [app length] in H. rewrite H. cbn [bind fst snd app].
  rewrite nth_error_mid. cbn [childNodes with_children].
  rewrite remove_at_mid, set_nth_mid. reflexivity.
Qed.

End Merge.

(** ** Sizes *)

Lemma node_size_pos n : 1 <= node_size n.
Proof. destruct n; simpl; lia. Qed.

Lemma node_size_element t a cs : node_size (Element t a cs) = S (list_size cs).
Proof. reflexivity. Qed.

Lemma list_size_cons c cs : list_size (c :: cs) = node_size c + list_size cs.
Proof. reflexivity. Qed.

Lemma list_size_app l1 l2 : list_size (l1 ++ l2) = list_size l1 + list_size l2.
Proof.
  induction l1 as [|c l1 IH]; [reflexivity|].
  cbn [app]. rewrite !list_size_cons, IH. lia.
Qed.

Lemma length_le_list_size cs : length cs <= list_size cs.
Proof.
  induction cs as [|c cs IH]; [simpl; lia|].
  rewrite list_size_cons. pose proof (node_size_pos c). simpl. lia.
Qed.

Lemma list_size_in c cs : In c cs -> node_size c <= list_size cs.
Proof.
  induction cs as [|d cs IH]; intros []; rewrite list_size_cons.
  - subst. lia.
  - specialize (IH H). lia.
Qed.

Lemma children_size n : list_size (childNodes n) < node_size n.
Proof. destruct n; simpl; unfold list_size; simpl; lia. Qed.

Lemma list_size_filter p cs : list_size (filter p cs) <= list_size cs.
Proof.
  induction cs as [|c cs IH]; [simpl; lia|].
  cbn [filter]. destruct (p c); rewrite ?list_size_cons; lia.
Qed.

(** ** [_solve_if_element] *)

Lemma filter_none_negb {A} (p : A -> bool) l :
  filter p l = [] -> filter (fun x => negb (p x)) l = l.
Proof.
  induction l as [|x l IH]; simpl; [reflexivity|].
  destruct (p x); [discriminate|]. simpl. intros H. rewrite (IH H). reflexivity.
Qed.

Lemma filter_all_negb {A} (p : A -> bool) l :
  forallb (fun x => negb (p x)) l = true ->
  filter p l = [] /\ filter (fun x => negb (p x)) l = l.
Proof.
  induction l as [|x l IH]; simpl; [auto|].
  intros H. apply andb_true_iff in H as [H1 H2].
  destruct (p x); [discriminate|]. simpl.
  destruct (IH H2) as [-> ->]. auto.
Qed.

Lemma find_index_first_else cs n :
  length (filter is_else cs) = S n ->
  exists l1 x l2,
    cs = l1 ++ x :: l2 /\ find_index is_else cs = Some (length l1)
    /\ is_else x = true
    /\ filter is_else cs = x :: filter is_else l2
    /\ filter is_else (l1 ++ l2) = filter is_else l2
    /\ filter (fun c => negb (is_else c)) cs
       = filter (fun c => negb (is_else c)) (l1 ++ l2).
Proof.
  intros Hn.
  destruct (find_index is_else cs) as [k|] eqn:Ef.
  - destruct (find_index_split _ _ _ Ef) as (l1 & x & l2 & -> & <- & Hx & Hl1).
    exists l1, x, l2.
    destruct (filter_all_negb _ _ Hl1) as [E1 E2].
    rewrite !filter_app, E1. cbn [filter]. rewrite Hx. cbn [negb].
    repeat split; reflexivity.
  - rewrite (find_index_none _ _ Ef) in Hn. discriminate.
Qed.

Lemma remove_elses_filter :
  forall snapshot cs,
    length snapshot = length (filter is_else cs) ->
    remove_elses snapshot cs = filter (fun c => negb (is_else c)) cs.
Proof.
  induction snapshot as [|e snapshot IH]; intros cs Hn; cbn [remove_elses].
  - symmetry. apply filter_none_negb.
    destruct (filter is_else cs); [reflexivity|discriminate].
  - destruct (find_index_first_else cs (length snapshot) (eq_sym Hn))
      as (l1 & x & l2 & -> & Ef & Hx & E1 & E2 & E3).
    rewrite Ef, remove_at_mid, E3. apply IH.
    rewrite E2. rewrite E1 in Hn. simpl in Hn. lia.
Qed.

Lemma is_else_element x :
  is_else x = true -> exists et ea es, x = Element et ea es.
Proof. destruct x; try discriminate. eauto. Qed.

Lemma merge_elses_exact t a after fuel :
  forall snapshot cs L,
    length snapshot = length (filter is_else cs) ->
    (forall el, In el cs -> length (childNodes el) <= fuel) ->
    merge_elses fuel snapshot (L ++ Element t a cs :: after, length L)
    = Ok (let moved := flat_map (fun el => fst (merge_walk (childNodes el)))
                                (filter is_else cs) in
          ((L ++ moved)
             ++ Element t a (filter (fun c => negb (is_else c)) cs) :: after,
           length (L ++ moved))).
Proof.
  induction snapshot as [|e snapshot IH]; intros cs L Hn Hf; cbn [merge_elses].
  - destruct (filter is_else cs) eqn:E; [|discriminate].
    cbn [flat_map]. rewrite app_nil_r, (filter_none_negb _ _ E). reflexivity.
  - destruct (find_index_first_else cs (length snapshot) (eq_sym Hn))
      as (l1 & x & l2 & -> & Ef & Hx & E1 & E2 & E3).
    destruct (is_else_element _ Hx) as (et & ea & es & ->).
    cbn [fst snd]. rewrite nth_error_mid. cbn [childNodes]. rewrite Ef.
    rewrite merge_with_parent_child
      by (apply (Hf (Element et ea es)); apply in_or_app; right; left; reflexivity).
    cbn [bind]. rewrite IH.
    + rewrite E1, E2, E3. cbn [flat_map childNodes].
      rewrite <- !app_assoc. reflexivity.
    + rewrite E2. rewrite E1 in Hn. simpl in Hn. lia.
    + intros el Hel. apply Hf. apply in_app_or in Hel as [|];
        apply in_or_app; [left|right; right]; assumption.
Qed.

(** What [_solve_if_element] does to the child list of the parent. *)
Lemma solve_if_element_exact fuel conditions L e after :
  isElement e = true ->
  list_size (childNodes e) <= fuel ->
  _solve_if_element fuel conditions (L ++ e :: after) (length L)
  = Ok (L ++ promoted conditions e ++ after).
Proof.
  intros He Hf. destruct e as [t a cs| |]; try discriminate.
  cbn [childNodes] in Hf.
  unfold _solve_if_element, promoted. rewrite nth_error_mid.
  destruct (condition_met conditions _).
  - cbn [with_children childNodes]. rewrite set_nth_mid.
    unfold getElementsByTagNameCI. cbn [childNodes].
    rewrite remove_elses_filter by reflexivity.
    rewrite merge_with_parent_self; [reflexivity|].
    pose proof (length_le_list_size (filter (fun c => negb (is_else c)) cs)).
    pose proof (list_size_filter (fun c => negb (is_else c)) cs). lia.
  - unfold getElementsByTagNameCI. cbn [childNodes].
    rewrite merge_elses_exact.
    + cbn [bind fst snd]. rewrite remove_at_mid, <- app_assoc. reflexivity.
    + reflexivity.
    + intros el Hel. pose proof (list_size_in _ _ Hel).
      pose proof (children_size el).
      pose proof (length_le_list_size (childNodes el)). lia.
Qed.

(** ** More fuel changes no result *)

Lemma for_live_mono {St} (items : St -> list node)
    (body body' : nat -> node -> St -> result St) :
  (forall i c s r, body i c s = Ok r -> body' i c s = Ok r) ->
  forall fuel fuel' i s r,
    fuel <= fuel' ->
    for_live fuel items body i s = Ok r ->
    for_live fuel' items body' i s = Ok r.
Proof.
  intros Hb. induction fuel as [|fuel IH]; intros fuel' i s r Hle E.
  - destruct fuel'; simpl in *;
      destruct (nth_error (items s) i); try discriminate; exact E.
  - destruct fuel' as [|fuel']; [lia|]. simpl in *.
    destruct (nth_error (items s) i) as [c|]; [|exact E].
    destruct (body i c s) as [s1| |] eqn:Eb; try discriminate.
    rewrite (Hb _ _ _ _ Eb). simpl in *. apply (IH fuel'); [lia|exact E].
Qed.

Lemma bind_ok {A B} (m : result A) (k : A -> result B) r :
  bind m k = Ok r -> exists a, m = Ok a /\ k a = Ok r.
Proof. destruct m; simpl; try discriminate. eauto. Qed.

Lemma merge_with_parent_mono fuel fuel' w s r :
  fuel <= fuel' ->
  merge_with_parent fuel w s = Ok r -> merge_with_parent fuel' w s = Ok r.
Proof.
  intros Hle E. unfold merge_with_parent in *.
  apply bind_ok in E as (s1 & E1 & E2).
  rewrite (for_live_mono _ _ _ (fun _ _ _ _ H => H) _ _ _ _ _ Hle E1).
  exact E2.
Qed.

Lemma merge_elses_mono fuel fuel' :
  fuel <= fuel' ->
  forall snapshot s r,
    merge_elses fuel snapshot s = Ok r -> merge_elses fuel' snapshot s = Ok r.
Proof.
  intros Hle. induction snapshot as [|e snapshot IH]; intros s r E; [exact E|].
  cbn [merge_elses] in *.
  destruct (nth_error (fst s) (snd s)); [|exact E].
  destruct (find_index is_else (childNodes n)); [|auto].
  apply bind_ok in E as (s1 & E1 & E2).
  rewrite (merge_with_parent_mono _ _ _ _ _ Hle E1). cbn [bind]. auto.
Qed.

Lemma solve_if_element_mono fuel fuel' conditions pk j r :
  fuel <= fuel' ->
  _solve_if_element fuel conditions pk j = Ok r ->
  _solve_if_element fuel' conditions pk j = Ok r.
Proof.
  intros Hle E. unfold _solve_if_element in *.
  destruct (nth_error pk j); [|exact E].
  destruct (condition_met conditions _);
    apply bind_ok in E as (s1 & E1 & E2).
  - rewrite (merge_with_parent_mono _ _ _ _ _ Hle E1). exact E2.
  - rewrite (merge_elses_mono _ _ Hle _ _ _ E1). exact E2.
Qed.

Lemma fc_body_mono (self self' : node -> result node) fuel fuel' conditions :
  (forall n r, self n = Ok r -> self' n = Ok r) ->
  fuel <= fuel' ->
  forall i c s r,
    fc_body self fuel conditions i c s = Ok r ->
    fc_body self' fuel' conditions i c s = Ok r.
Proof.
  intros Hs Hle i c s r E. unfold fc_body in *.
  destruct (isElement c); [|exact E].
  apply bind_ok in E as (c1 & E1 & E2). rewrite (Hs _ _ E1). cbn [bind].
  destruct (String.eqb (lower (tagName c1)) "if"); [|exact E2].
  eapply solve_if_element_mono; eassumption.
Qed.

Lemma find_conditions_eq fuel conditions n :
  _find_conditions (S fuel) conditions n
  = match n with
    | Element t a ks0 =>
        ks' <- for_live fuel (fun ks => ks)
                 (fc_body (_find_conditions fuel conditions) fuel conditions)
                 0 ks0 ;;
        Ok (Element t a ks')
    | _ => Ok n
    end.
Proof. reflexivity. Qed.

Lemma objects_n_icons_eq fuel icon_paths z n :
  _objects_n_icons (S fuel) icon_paths z n
  = match n with
    | Element t a ks0 =>
        ks' <- for_live fuel (fun ks => ks)
                 (oni_body (_objects_n_icons fuel icon_paths) icon_paths z t a)
                 0 ks0 ;;
        Ok (Element t a ks')
    | _ => Ok n
    end.
Proof. reflexivity. Qed.

Lemma find_conditions_S conditions fuel :
  forall n r,
    _find_conditions fuel conditions n = Ok r ->
    _find_conditions (S fuel) conditions n = Ok r.
Proof.
  induction fuel as [|fuel IH]; intros n r E; [discriminate|].
  rewrite find_conditions_eq in *. destruct n as [t a ks| |]; try exact E.
  apply bind_ok in E as (ks' & E1 & E2).
  rewrite (for_live_mono _ _
             (fc_body (_find_conditions (S fuel) conditions) (S fuel) conditions)
             (fc_body_mono _ _ _ _ _ IH (Nat.le_succ_diag_r fuel))
             _ (S fuel) _ _ _ (Nat.le_succ_diag_r fuel) E1).
  exact E2.
Qed.

Lemma find_conditions_mono conditions fuel fuel' n r :
  fuel <= fuel' ->
  _find_conditions fuel conditions n = Ok r ->
  _find_conditions fuel' conditions n = Ok r.
Proof. induction 1; auto using find_conditions_S. Qed.

Lemma oni_body_mono (self self' : ctx -> node -> result node) icon_paths z t a :
  (forall z n r, self z n = Ok r -> self' z n = Ok r) ->
  forall i c s r,
    oni_body self icon_paths z t a i c s = Ok r ->
    oni_body self' icon_paths z t a i c s = Ok r.
Proof.
  intros Hs i c s r E. unfold oni_body in *.
  destruct (isElement c); [|exact E].
  destruct (String.eqb (lower (tagName c)) "copyobject").
  - destruct (String.eqb (getAttribute c "id") ""); [exact E|].
    destruct (search_for_id _ _); [|discriminate].
    apply bind_ok in E as (c1 & E1 & E2). rewrite (Hs _ _ _ E1). exact E2.
  - apply bind_ok in E as (c1 & E1 & E2). rewrite (Hs _ _ _ E1). exact E2.
Qed.

Lemma objects_n_icons_S icon_paths fuel :
  forall z n r,
    _objects_n_icons fuel icon_paths z n = Ok r ->
    _objects_n_icons (S fuel) icon_paths z n = Ok r.
Proof.
  induction fuel as [|fuel IH]; intros z n r E; [discriminate|].
  rewrite objects_n_icons_eq in *. destruct n as [t a ks| |]; try exact E.
  apply bind_ok in E as (ks' & E1 & E2).
  rewrite (for_live_mono _ _
             (oni_body (_objects_n_icons (S fuel) icon_paths) icon_paths z t a)
             (oni_body_mono _ _ _ _ _ _ IH)
             _ (S fuel) _ _ _ (Nat.le_succ_diag_r fuel) E1).
  exact E2.
Qed.

Lemma objects_n_icons_mono icon_paths fuel fuel' z n r :
  fuel <= fuel' ->
  _objects_n_icons fuel icon_paths z n = Ok r ->
  _objects_n_icons fuel' icon_paths z n = Ok r.
Proof. induction 1; auto using objects_n_icons_S. Qed.

Lemma build_mono fuel fuel' conditions icon_paths root r :
  fuel <= fuel' ->
  _build fuel conditions icon_paths root = Ok r ->
  _build fuel' conditions icon_paths root = Ok r.
Proof.
  intros Hle E. unfold _build in *.
  apply bind_ok in E as (r1 & E1 & E2).
  rewrite (objects_n_icons_mono _ _ _ _ _ _ Hle E1). cbn [bind].
  eapply find_conditions_mono; eassumption.
Qed.

(** ** Claims settled on concrete documents *)

(** C4. [merge_with_parent] walks [element.childNodes] while it removes
    children from it, so the element that follows a moved element is
    stepped over: of two adjacent element children [x] and [y] only [x] is
    moved, and [y] goes away with the wrapper. The docstrings ("Merges
    child nodes with parent node", "tag is replaced with its child tags")
    promise both. Here for the wrapper being the insertion point, at any
    place [L ... after] in its parent, and for the wrapper being a child
    of the insertion point. *)
Theorem merge_with_parent_skips_adjacent
    fuel t a L after et ea c1 c2 tx ax cx ty ay cy :
  let x := Element tx ax cx in
  let y := Element ty ay cy in
  merge_with_parent (2 + fuel) None (L ++ Element t a [x; y] :: after, length L)
  = Ok (L ++ [x] ++ after, length (L ++ [x]))
  /\ merge_with_parent (2 + fuel) (Some (length c1))
       (L ++ Element t a (c1 ++ Element et ea [x; y] :: c2) :: after, length L)
     = Ok ((L ++ [x]) ++ Element t a (c1 ++ c2) :: after, length (L ++ [x])).
Proof.
  intros x y. split.
  - rewrite merge_with_parent_self by (simpl; lia). reflexivity.
  - rewrite merge_with_parent_child by (simpl; lia). reflexivity.
Qed.

(** With a text node between them both elements are moved. *)
Example merge_with_parent_separated fuel :
  merge_with_parent (3 + fuel) None
    ([Element "w" [] [Element "a" [] []; Text " "; Element "b" [] []]], 0)
  = Ok ([Element "a" [] []; Element "b" [] []], 2).
Proof. apply (merge_with_parent_mono 3); [lia|reflexivity]. Qed.

(** Scenarios 1 and 2 of the specification. *)
Example scenario_then fuel :
  _build (4 + fuel) ["a"; "b"] []
    (Element "r" []
       [Element "if" [("condition", "a&b")]
          [Element "x" [] []; Element "else" [] [Element "y" [] []]]])
  = Ok (Element "r" [] [Element "x" [] []]).
Proof. apply (build_mono 4); [lia|reflexivity]. Qed.

Example scenario_else fuel :
  _build (4 + fuel) ["a"] []
    (Element "r" []
       [Element "if" [("condition", "a&b")]
          [Element "x" [] []; Element "else" [] [Element "y" [] []]]])
  = Ok (Element "r" [] [Element "y" [] []]).
Proof. apply (build_mono 4); [lia|reflexivity]. Qed.

(** C5. An [if] whose condition is met and whose children are the adjacent
    elements [x] and [y] leaves only [x]: the then-content does not survive
    whole. This is the defect of [merge_with_parent] shown for C4. *)
Theorem solve_if_loses_adjacent_child fuel :
  _build (4 + fuel) ["a"] []
    (Element "r" []
       [Element "if" [("condition", "a")] [Element "x" [] []; Element "y" [] []]])
  = Ok (Element "r" [] [Element "x" [] []]).
Proof. apply (build_mono 4); [lia|reflexivity]. Qed.


(** The second of two adjacent [if] elements is stepped over by the loop of
    [_find_conditions] when the first one leaves nothing in its place. *)
Example adjacent_if_elements_leak fuel :
  _build (3 + fuel) [] []
    (Element "r" []
       [Element "if" [("condition", "a")] []; Element "if" [("condition", "b")] []])
  = Ok (Element "r" [] [Element "if" [("condition", "b")] []]).
Proof. apply (build_mono 3); [lia|reflexivity]. Qed.

(** C8. The docstrings say that conditions are case-insensitive, but
    [enable_condition] stores the name as it is given and only
    [_solve_if_element] lower-cases the text it evaluates: a name enabled
    with a capital is never met by an [if] element, and the [if] attribute
    is compared as it is written. *)
Theorem conditions_are_case_sensitive fuel :
  condition_met (enable_condition [] ["Win"]) (strip (lower "win")) = false
  /\ _build (3 + fuel) (enable_condition [] ["Win"]) []
       (Element "r" [] [Element "if" [("condition", "Win")] [Element "x" [] []]])
     = Ok (Element "r" [] [])
  /\ _build (3 + fuel) (enable_condition [] ["win"]) []
       (Element "r" [] [Element "x" [("if", "WIN")] []])
     = Ok (Element "r" [] []).
Proof.
  split; [reflexivity|].
  split; (apply (build_mono 3); [lia|reflexivity]).
Qed.

(** *** A [copyobject] inside the object it copies *)

Lemma self_copy_ctx_S n :
  self_copy_ctx (S n) = Frame "object" [("id", "a")] [] [] :: self_copy_ctx n.
Proof. reflexivity. Qed.

Lemma plug_self_copy_ctx n :
  forall k, plug (self_copy_ctx n) (self_copy k)
            = Element "r" [] [self_copy (n + k)].
Proof.
  induction n as [|n IH]; intros k; [reflexivity|].
  rewrite self_copy_ctx_S. cbn [plug f_tag f_attrs f_before f_after app].
  change (Element "object" [("id", "a")] [self_copy k]) with (self_copy (S k)).
  rewrite IH. f_equal. f_equal. f_equal. lia.
Qed.

Lemma search_self_copy n k :
  search_for_id (xml (plug (self_copy_ctx n) (self_copy (S k)))) "a"
  = Some (self_copy (S (n + k))).
Proof.
  rewrite plug_self_copy_ctx. replace (n + S k) with (S (n + k)) by lia.
  reflexivity.
Qed.

Lemma objects_n_icons_self_copy icon_paths fuel :
  forall n k,
    _objects_n_icons fuel icon_paths (self_copy_ctx n) (self_copy (S k))
    = OutOfFuel.
Proof.
  induction fuel as [|fuel IH]; intros n k; [reflexivity|].
  rewrite objects_n_icons_eq. cbn [self_copy].
  destruct fuel as [|fuel']; [reflexivity|].
  cbn [for_live nth_error]. unfold oni_body at 1.
  destruct k as [|k].
  - cbn [self_copy isElement tagName].
    replace (String.eqb (lower "copyobject") "copyobject") with true by reflexivity.
    replace (getAttribute (Element "copyobject" [("id", "a")] []) "id")
      with "a" by reflexivity.
    replace (String.eqb "a" "") with false by reflexivity.
    change (Element "object" [("id", "a")]
              [Element "copyobject" [("id", "a")] []]) with (self_copy 1).
    rewrite search_self_copy. unfold cloneNode.
    rewrite (replace_child _ 0 (Element "copyobject" [("id", "a")] [])) by reflexivity.
    cbn [set_nth].
    change (frame_at "object" [("id", "a")] 0 [self_copy (S (n + 0))]
            :: self_copy_ctx n) with (self_copy_ctx (S n)).
    rewrite IH. reflexivity.
  - change (isElement (self_copy (S k))) with true.
    change (tagName (self_copy (S k))) with "object".
    replace (String.eqb (lower "object") "copyobject") with false by reflexivity.
    change (frame_at "object" [("id", "a")] 0 [self_copy (S k)]
            :: self_copy_ctx n) with (self_copy_ctx (S n)).
    rewrite IH. reflexivity.
Qed.

Lemma build_self_copy fuel conditions icon_paths :
  _build fuel conditions icon_paths (Element "r" [] [self_copy 1]) = OutOfFuel.
Proof.
  unfold _build.
  destruct fuel as [|fuel]; [reflexivity|].
  rewrite objects_n_icons_eq.
  destruct fuel as [|fuel]; [reflexivity|].
  cbn [for_live nth_error]. unfold oni_body at 1.
  change (isElement (self_copy 1)) with true.
  change (tagName (self_copy 1)) with "object".
  replace (String.eqb (lower "object") "copyobject") with false by reflexivity.
  change (frame_at "r" [] 0 [self_copy 1] :: []) with (self_copy_ctx 0).
  rewrite objects_n_icons_self_copy. reflexivity.
Qed.


(** ** [search_for_id] *)

Lemma search_for_id_element t a cs id :
  search_for_id (Element t a cs) id = search_children id cs.
Proof. reflexivity. Qed.

Lemma search_children_cons id c cs :
  search_children id (c :: cs)
  = match search_child id c with
    | Some r => Some r
    | None => search_children id cs
    end.
Proof.
  unfold search_children, search_child. cbn [search_for_id].
  destruct (isElement c); [|reflexivity].
  destruct (String.eqb id (getAttribute c "id")); reflexivity.
Qed.

Lemma search_children_app id l1 l2 :
  search_children id (l1 ++ l2)
  = match search_children id l1 with
    | Some r => Some r
    | None => search_children id l2
    end.
Proof.
  induction l1 as [|c l1 IH]; [reflexivity|].
  cbn [app]. rewrite !search_children_cons, IH.
  destruct (search_child id c); reflexivity.
Qed.

Lemma search_xml id root :
  search_for_id (xml root) id = search_child id root.
Proof.
  unfold xml. rewrite search_for_id_element, search_children_cons.
  destruct (search_child id root); reflexivity.
Qed.

Lemma search_child_element id t a cs :
  search_child id (Element t a cs)
  = if String.eqb id (getAttribute (Element t a cs) "id")
    then Some (Element t a cs) else search_children id cs.
Proof. reflexivity. Qed.

(** An element that carries the id is found, or something before it is. *)
Lemma search_children_in id c cs :
  In c cs -> search_child id c <> None -> search_children id cs <> None.
Proof.
  induction cs as [|d cs IH]; [intros []|].
  intros [E|Hin] Hc; rewrite search_children_cons.
  - subst. destruct (search_child id c); [discriminate|contradiction].
  - destruct (search_child id d); [discriminate|auto].
Qed.

Lemma search_child_plug_some id z :
  forall n, search_child id n <> None -> search_child id (plug z n) <> None.
Proof.
  induction z as [|f z IH]; intros n Hn; [exact Hn|].
  cbn [plug]. apply IH. rewrite search_child_element.
  destruct (String.eqb id _); [discriminate|].
  apply (search_children_in id n); [|exact Hn].
  apply in_or_app. right. left. reflexivity.
Qed.

(** What is found once [n] is put where [h] was, when nothing is found
    around [h]. *)
Lemma search_child_plug_replace id z r :
  forall h n,
    search_child id (plug z h) = None ->
    (search_child id h = None -> search_child id n = Some r) ->
    search_child id (plug z n) = Some r.
Proof.
  induction z as [|f z IH]; intros h n Hh Hn; [auto|].
  cbn [plug] in *. eapply IH; [exact Hh|].
  rewrite !search_child_element.
  change (getAttribute (Element (f_tag f) (f_attrs f) (f_before f ++ n :: f_after f)) "id")
    with (getAttribute (Element (f_tag f) (f_attrs f) (f_before f ++ h :: f_after f)) "id").
  destruct (String.eqb id _); [discriminate|].
  rewrite !search_children_app, !search_children_cons.
  destruct (search_children id (f_before f)); [discriminate|].
  destruct (search_child id h); [discriminate|].
  intros _. rewrite (Hn eq_refl). reflexivity.
Qed.

(** A [copyobject] whose id is nowhere else in the document finds itself. *)
Lemma search_finds_copyobject_itself z t a ks i c :
  nth_error ks i = Some c ->
  isElement c = true ->
  search_for_id (xml (plug z (Element t a (set_nth i (Comment "") ks))))
    (getAttribute c "id") = None ->
  search_for_id (xml (plug z (Element t a ks))) (getAttribute c "id") = Some c.
Proof.
  intros Hi Hc. rewrite !search_xml. intros Hnone.
  eapply search_child_plug_replace; [exact Hnone|].
  destruct (nth_error_split_at _ _ _ Hi) as [E L].
  revert E L. generalize (firstn i ks) (skipn (S i) ks). intros l1 l2 E L.
  subst ks i. rewrite set_nth_mid, !search_child_element.
  change (getAttribute (Element t a (l1 ++ c :: l2)) "id")
    with (getAttribute (Element t a (l1 ++ Comment "" :: l2)) "id").
  destruct (String.eqb _ (getAttribute (Element t a _) "id")); [discriminate|].
  rewrite !search_children_app, !search_children_cons.
  destruct (search_children (getAttribute c "id") l1); [discriminate|].
  intros _. unfold search_child at 1. rewrite Hc, String.eqb_refl. reflexivity.
Qed.

(** ** Nothing raises *)

Lemma oni_body_no_raise (self : ctx -> node -> result node) icon_paths z t a e :
  (forall z n, self z n <> Raise e) ->
  forall i ks c, nth_error ks i = Some c ->
                 oni_body self icon_paths z t a i c ks <> Raise e.
Proof.
  intros Hs i ks c Hi. unfold oni_body.
  destruct (isElement c) eqn:Hc; [|discriminate].
  destruct (String.eqb (lower (tagName c)) "copyobject").
  - destruct (String.eqb (getAttribute c "id") ""); [discriminate|].
    destruct (search_for_id _ _) as [obj|] eqn:Es.
    + destruct (self _ (cloneNode obj)) eqn:E1; cbn [bind]; try discriminate.
      intros H. inversion H; subst. exact (Hs _ _ E1).
    + exfalso. rewrite search_xml in Es. revert Es.
      apply search_child_plug_some. rewrite search_child_element.
      destruct (String.eqb _ (getAttribute (Element t a ks) "id")); [discriminate|].
      apply (search_children_in _ c); [eapply nth_error_In; eassumption|].
      unfold search_child. rewrite Hc, String.eqb_refl. discriminate.
  - destruct (self _ c) eqn:E1; cbn [bind]; try discriminate.
    intros H. inversion H; subst. exact (Hs _ _ E1).
Qed.

Lemma objects_n_icons_no_raise icon_paths e fuel :
  forall z n, _objects_n_icons fuel icon_paths z n <> Raise e.
Proof.
  induction fuel as [|fuel IH]; intros z n; [discriminate|].
  rewrite objects_n_icons_eq. destruct n as [t a ks| |]; try discriminate.
  destruct (for_live _ _ _ _ _) eqn:E; cbn [bind]; try discriminate.
  intros H. inversion H; subst. revert E.
  apply for_live_no_raise. intros i s c. apply oni_body_no_raise. exact IH.
Qed.

Lemma merge_with_parent_no_raise fuel w s e :
  merge_with_parent fuel w s <> Raise e.
Proof.
  unfold merge_with_parent.
  destruct (for_live _ _ _ _ _) as [s'| |] eqn:E; cbn [bind]; try discriminate.
  - destruct w; [destruct (nth_error _ _)|]; discriminate.
  - intros H. inversion H; subst. revert E. apply for_live_no_raise.
    intros i s' c _. unfold mwp_body. destruct (isElement c); discriminate.
Qed.

Lemma merge_elses_no_raise fuel e :
  forall snapshot s, merge_elses fuel snapshot s <> Raise e.
Proof.
  induction snapshot as [|x snapshot IH]; intros s; cbn [merge_elses];
    [discriminate|].
  destruct (nth_error _ _); [|discriminate].
  destruct (find_index _ _); [|apply IH].
  destruct (merge_with_parent fuel _ s) eqn:E; cbn [bind];
    [apply IH| |discriminate].
  intros H. inversion H; subst. exact (merge_with_parent_no_raise _ _ _ _ E).
Qed.

Lemma solve_if_element_no_raise fuel conditions pk j e :
  _solve_if_element fuel conditions pk j <> Raise e.
Proof.
  unfold _solve_if_element. destruct (nth_error pk j); [|discriminate].
  destruct (condition_met _ _).
  - destruct (merge_with_parent _ _ _) eqn:E; cbn [bind]; try discriminate.
    intros H. inversion H; subst. exact (merge_with_parent_no_raise _ _ _ _ E).
  - destruct (merge_elses _ _ _) eqn:E; cbn [bind]; try discriminate.
    intros H. inversion H; subst. exact (merge_elses_no_raise _ _ _ _ E).
Qed.

Lemma find_conditions_no_raise conditions e fuel :
  forall n, _find_conditions fuel conditions n <> Raise e.
Proof.
  induction fuel as [|fuel IH]; intros n; [discriminate|].
  rewrite find_conditions_eq. destruct n as [t a ks| |]; try discriminate.
  destruct (for_live _ _ _ _ _) eqn:E; cbn [bind]; try discriminate.
  intros H. inversion H; subst. revert E.
  apply for_live_no_raise. intros i s c _. unfold fc_body.
  destruct (isElement c); [|discriminate].
  destruct (_find_conditions fuel conditions c) eqn:E1; cbn [bind];
    [| |discriminate].
  - destruct (String.eqb _ "if"); [apply solve_if_element_no_raise|].
    destruct (negb _); [|discriminate].
    destruct (negb _); discriminate.
  - intros H'. inversion H'; subst. exact (IH _ E1).
Qed.

Lemma build_no_raise fuel conditions icon_paths root e :
  _build fuel conditions icon_paths root <> Raise e.
Proof.
  unfold _build.
  destruct (_objects_n_icons _ _ _ _) eqn:E; cbn [bind]; [| |discriminate].
  - apply find_conditions_no_raise.
  - intros H. inversion H; subst. exact (objects_n_icons_no_raise _ _ _ _ _ E).
Qed.




(** ** One turn of the loop of [_find_conditions] *)

Lemma find_conditions_shape fuel conditions n n' :
  _find_conditions fuel conditions n = Ok n' ->
  tagName n' = tagName n /\ attributes n' = attributes n
  /\ isElement n' = isElement n.
Proof.
  destruct fuel as [|fuel]; [discriminate|]. rewrite find_conditions_eq.
  destruct n as [t a ks| |]; intros E.
  - apply bind_ok in E as (ks' & _ & E). inversion E; subst. auto.
  - inversion E; subst. auto.
  - inversion E; subst. auto.
Qed.

Lemma fc_body_not_element self fuel conditions i c ks :
  isElement c = false -> fc_body self fuel conditions i c ks = Ok ks.
Proof. intros Hc. unfold fc_body. rewrite Hc. reflexivity. Qed.

Lemma fc_body_exact self fuel conditions L x x1 R :
  isElement x = true ->
  self x = Ok x1 ->
  isElement x1 = true ->
  list_size (childNodes x1) <= fuel ->
  fc_body self fuel conditions (length L) x (L ++ x :: R)
  = Ok (L ++ fc_step conditions x1 ++ R).
Proof.
  intros Hx E1 Hx1 Hf. unfold fc_body, fc_step. rewrite Hx, E1. cbn [bind].
  rewrite set_nth_mid.
  destruct (String.eqb (lower (tagName x1)) "if").
  - apply solve_if_element_exact; assumption.
  - destruct (negb (String.eqb (getAttribute x1 "if") "")); [|reflexivity].
    destruct (negb (condition_met conditions (getAttribute x1 "if"))).
    + rewrite remove_at_mid. reflexivity.
    + rewrite set_nth_mid. reflexivity.
Qed.

Lemma fc_body_ok_inv fuel conditions L x R ks' :
  isElement x = true ->
  fc_body (_find_conditions fuel conditions) fuel conditions (length L) x
    (L ++ x :: R) = Ok ks' ->
  exists x1, _find_conditions fuel conditions x = Ok x1
             /\ isElement x1 = true
             /\ ks' = L ++ fc_step conditions x1 ++ R.
Proof.
  intros Hx E.
  assert (E' := E). unfold fc_body in E'. rewrite Hx in E'.
  apply bind_ok in E' as (x1 & E1 & _).
  destruct (find_conditions_shape _ _ _ _ E1) as (_ & _ & Hx1).
  rewrite Hx in Hx1.
  exists x1. split; [exact E1|]. split; [exact Hx1|].
  pose (big := fuel + list_size (childNodes x1)).
  assert (Eb : fc_body (_find_conditions big conditions) big conditions
                 (length L) x (L ++ x :: R) = Ok ks').
  { eapply fc_body_mono; [| |exact E].
    - intros n r. apply find_conditions_mono. unfold big. lia.
    - unfold big. lia. }
  rewrite (fc_body_exact _ big conditions L x x1 R Hx) in Eb.
  - inversion Eb; reflexivity.
  - eapply find_conditions_mono; [|exact E1]. unfold big. lia.
  - exact Hx1.
  - unfold big. lia.
Qed.

Lemma fc_body_ok_nth fuel conditions ks i x ks' :
  nth_error ks i = Some x ->
  isElement x = true ->
  fc_body (_find_conditions fuel conditions) fuel conditions i x ks = Ok ks' ->
  exists x1, _find_conditions fuel conditions x = Ok x1
             /\ isElement x1 = true
             /\ ks' = firstn i ks ++ fc_step conditions x1 ++ skipn (S i) ks.
Proof.
  intros Hi Hx. destruct (nth_error_split_at _ _ _ Hi) as [Es L].
  rewrite Es at 1. revert L. generalize (firstn i ks) (skipn (S i) ks).
  intros l1 l2 <-. apply fc_body_ok_inv. exact Hx.
Qed.

(** ** Trees without templating elements *)

Lemma has_templating_eq n :
  has_templating n = templating n || negb (static (childNodes n)).
Proof.
  destruct n as [t a cs| |]; cbn [has_templating childNodes]; [|reflexivity..].
  f_equal. unfold static.
  induction cs as [|c cs IH]; [reflexivity|].
  cbn [existsb forallb]. rewrite IH.
  destruct (has_templating c); reflexivity.
Qed.

Lemma has_templating_false n :
  has_templating n = false ->
  templating n = false /\ static (childNodes n) = true.
Proof.
  rewrite has_templating_eq. intros H. apply orb_false_iff in H as [H1 H2].
  split; [exact H1|]. destruct (static (childNodes n)); [reflexivity|discriminate].
Qed.

Lemma static_app l1 l2 : static (l1 ++ l2) = static l1 && static l2.
Proof. apply forallb_app. Qed.

Lemma static_In cs c : static cs = true -> In c cs -> has_templating c = false.
Proof.
  unfold static. rewrite forallb_forall. intros H Hin.
  specialize (H _ Hin). destruct (has_templating c); [discriminate|reflexivity].
Qed.

Lemma templating_false_step conditions x :
  isElement x = true -> templating x = false -> fc_step conditions x = [x].
Proof.
  unfold templating, fc_step. intros -> H. cbn [andb] in H.
  apply orb_false_iff in H as [H H4]. apply orb_false_iff in H as [H H3].
  apply orb_false_iff in H as [H1 H2]. rewrite H1, H4. reflexivity.
Qed.

(** The pass changes nothing in a tree without templating elements. *)
Lemma find_conditions_static conditions fuel :
  forall n n',
    static (childNodes n) = true ->
    _find_conditions fuel conditions n = Ok n' -> n' = n.
Proof.
  induction fuel as [|fuel IH]; intros n n' Hs E; [discriminate|].
  rewrite find_conditions_eq in E. destruct n as [t a ks0| |];
    try (inversion E; reflexivity).
  apply bind_ok in E as (ks' & E1 & E2). inversion E2; subst. f_equal.
  cbn [childNodes] in Hs.
  enough (Hstep : forall i s c s', s = ks0 -> nth_error s i = Some c ->
            fc_body (_find_conditions fuel conditions) fuel conditions i c s
            = Ok s' -> s' = ks0).
  { destruct (for_live_inv _ _ (fun _ ks => ks = ks0) Hstep _ _ _ _ eq_refl E1)
      as (i' & Hi' & _). exact Hi'. }
  intros i s c s' -> Hi Eb.
  destruct (nth_error_split_at _ _ _ Hi) as [Es L].
  destruct (isElement c) eqn:Hc.
  - apply (fc_body_ok_nth _ _ _ _ _ _ Hi Hc) in Eb as (x1 & Ex & Hx1 & ->).
    pose proof (static_In _ _ Hs (nth_error_In _ _ Hi)) as Hct.
    apply has_templating_false in Hct as [Ht Hsc].
    rewrite (IH _ _ Hsc Ex).
    rewrite (templating_false_step _ _ Hc Ht). symmetry. exact Es.
  - rewrite (fc_body_not_element _ _ _ _ _ _ Hc) in Eb. inversion Eb; reflexivity.
Qed.

(** ** An empty [if] attribute *)

Lemma empty_if_step conditions x :
  lower (tagName x) <> "if" -> getAttribute x "if" = "" ->
  fc_step conditions x = [x].
Proof.
  intros Ht Ha. unfold fc_step.
  destruct (String.eqb_spec (lower (tagName x)) "if"); [contradiction|].
  rewrite Ha. reflexivity.
Qed.



(** ** The first pass where there is nothing to copy *)

Lemma has_live_eq n : has_live n = live n || negb (quiet (childNodes n)).
Proof.
  destruct n as [t a cs| |]; cbn [has_live childNodes]; [|reflexivity..].
  f_equal. unfold quiet.
  induction cs as [|c cs IH]; [reflexivity|].
  cbn [existsb forallb]. rewrite IH. destruct (has_live c); reflexivity.
Qed.

Lemma has_live_false n :
  has_live n = false -> live n = false /\ quiet (childNodes n) = true.
Proof.
  rewrite has_live_eq. intros H. apply orb_false_iff in H as [H1 H2].
  split; [exact H1|]. destruct (quiet (childNodes n)); [reflexivity|discriminate].
Qed.

Lemma quiet_cons c cs : quiet (c :: cs) = negb (has_live c) && quiet cs.
Proof. reflexivity. Qed.

Lemma icon_fix_shape icon_paths n :
  tagName (icon_fix icon_paths n) = tagName n
  /\ attributes (icon_fix icon_paths n) = attributes n
  /\ isElement (icon_fix icon_paths n) = isElement n.
Proof.
  unfold icon_fix, _check_icon_path.
  destruct (String.eqb _ "property"); [|auto].
  destruct (String.eqb _ "pixbuf"); [destruct n; auto|].
  destruct (String.eqb _ "icon"); [destruct n; auto|auto].
Qed.

Lemma icons_shape icon_paths n :
  tagName (icons icon_paths n) = tagName n
  /\ attributes (icons icon_paths n) = attributes n
  /\ isElement (icons icon_paths n) = isElement n.
Proof. destruct n; auto. Qed.

Section QuietPass.

Variable icon_paths : list (string * string).

Local Abbreviation kid :=
  (fun c : node =>
     if isElement c then
       if String.eqb (lower (tagName c)) "copyobject" then c
       else icon_fix icon_paths (icons icon_paths c)
     else c).

Lemma icons_element t a cs :
  icons icon_paths (Element t a cs) = Element t a (map kid cs).
Proof. reflexivity. Qed.

(** The loop over children none of which is, or holds, a [copyobject]
    with an id. *)
Lemma oni_loop_quiet (self : ctx -> node -> result node) z t a :
  forall k rest done,
    length rest <= k ->
    (forall c z', In c rest -> has_live c = false ->
                  self z' c = Ok (icons icon_paths c)) ->
    quiet rest = true ->
    for_live k (fun ks => ks) (oni_body self icon_paths z t a)
      (length done) (done ++ rest)
    = Ok (done ++ map kid rest).
Proof.
  induction k as [|k IH]; intros rest done Hk Hself Hq.
  - destruct rest; [|simpl in Hk; lia].
    cbn [for_live map]. rewrite app_nil_r.
    replace (nth_error done (length done)) with (@None node)
      by (symmetry; apply nth_error_None; lia).
    reflexivity.
  - destruct rest as [|c rest].
    + cbn [for_live map]. rewrite app_nil_r.
      replace (nth_error done (length done)) with (@None node)
        by (symmetry; apply nth_error_None; lia).
      reflexivity.
    + cbn [for_live]. rewrite nth_error_mid.
      rewrite quiet_cons in Hq. apply andb_true_iff in Hq as [Hc Hq].
      assert (Hlive : has_live c = false)
        by (destruct (has_live c); [discriminate|reflexivity]).
      assert (Hb : oni_body self icon_paths z t a (length done) c
                     (done ++ c :: rest) = Ok (done ++ kid c :: rest)).
      { unfold oni_body.
        destruct (isElement c) eqn:He; [|reflexivity].
        destruct (String.eqb (lower (tagName c)) "copyobject") eqn:Ht.
        - destruct (has_live_false _ Hlive) as [Hl _].
          unfold live, is_copyobject in Hl. rewrite He, Ht in Hl.
          cbn [andb] in Hl.
          destruct (String.eqb (getAttribute c "id") ""); [reflexivity|discriminate].
        - rewrite (Hself c _ (or_introl eq_refl) Hlive). cbn [bind].
          rewrite set_nth_mid. reflexivity. }
      rewrite Hb. cbn [bind map].
      replace (done ++ kid c :: rest) with ((done ++ [kid c]) ++ rest)
        by (rewrite <- app_assoc; reflexivity).
      replace (S (length done)) with (length (done ++ [kid c]))
        by (rewrite length_app; simpl; lia).
      rewrite IH.
      * rewrite <- app_assoc. reflexivity.
      * simpl in Hk. lia.
      * intros c' z' Hin. apply Hself. right. exact Hin.
      * exact Hq.
Qed.

Lemma objects_n_icons_quiet fuel :
  forall z n,
    quiet (childNodes n) = true ->
    node_size n <= fuel ->
    _objects_n_icons fuel icon_paths z n = Ok (icons icon_paths n).
Proof.
  induction fuel as [|fuel IH]; intros z n Hq Hf.
  - pose proof (node_size_pos n). lia.
  - rewrite objects_n_icons_eq. destruct n as [t a ks| |]; try reflexivity.
    cbn [childNodes] in Hq. rewrite node_size_element in Hf.
    pose proof (oni_loop_quiet (_objects_n_icons fuel icon_paths) z t a
                  fuel ks []) as Hloop.
    cbn [app length] in Hloop. rewrite Hloop; [reflexivity| | |exact Hq].
    + pose proof (length_le_list_size ks). lia.
    + intros c z' Hin Hl. apply IH.
      * apply has_live_false. exact Hl.
      * pose proof (list_size_in _ _ Hin). lia.
Qed.

End QuietPass.

(** ** The second pass comes to an end *)

Lemma merge_walk_ind (P : list node -> Prop) :
  P [] ->
  (forall c, isElement c = true -> P [c]) ->
  (forall c d rest, isElement c = true -> P rest -> P (c :: d :: rest)) ->
  (forall c rest, isElement c = false -> P rest -> P (c :: rest)) ->
  forall cs, P cs.
Proof.
  intros H0 H1 H2 H3 cs.
  enough (H : forall n cs, length cs <= n -> P cs) by (apply (H (length cs)); lia).
  induction n as [|n IH]; intros [|c [|d rest]] Hn; simpl in Hn; try lia;
    try exact H0.
  - destruct (isElement c) eqn:Hc; [apply H1|apply H3]; auto.
  - destruct (isElement c) eqn:Hc; [apply H2|apply H3]; auto;
      apply IH; simpl; lia.
Qed.

Lemma merge_walk_single c :
  isElement c = true -> merge_walk [c] = ([c], []).
Proof. intros Hc. cbn [merge_walk]. rewrite Hc. reflexivity. Qed.

Lemma merge_walk_size cs : list_size (fst (merge_walk cs)) <= list_size cs.
Proof.
  induction cs as [|c Hc|c d rest Hc IH|c rest Hc IH] using merge_walk_ind.
  - simpl. lia.
  - rewrite (merge_walk_single _ Hc). cbn [fst]. lia.
  - rewrite (merge_walk_cons2 _ _ _ Hc). cbn [fst].
    rewrite !list_size_cons. lia.
  - rewrite (merge_walk_skip _ _ Hc). cbn [fst]. rewrite list_size_cons. lia.
Qed.

(** What is moved are element children of the wrapper. *)
Lemma merge_walk_in cs x :
  In x (fst (merge_walk cs)) -> In x cs /\ isElement x = true.
Proof.
  induction cs as [|c Hc|c d rest Hc IH|c rest Hc IH] using merge_walk_ind.
  - intros [].
  - rewrite (merge_walk_single _ Hc). intros [<-|[]]. split; [left|]; auto.
  - rewrite (merge_walk_cons2 _ _ _ Hc). cbn [fst]. intros [<-|Hin].
    + split; [left|]; auto.
    + destruct (IH Hin). split; [right; right|]; assumption.
  - rewrite (merge_walk_skip _ _ Hc). cbn [fst]. intros Hin.
    destruct (IH Hin). split; [right|]; assumption.
Qed.

Lemma flat_map_walk_size cs :
  list_size (flat_map (fun el => fst (merge_walk (childNodes el))) cs)
  <= list_size cs.
Proof.
  induction cs as [|c cs IH]; [simpl; lia|].
  cbn [flat_map]. rewrite list_size_app, list_size_cons.
  pose proof (merge_walk_size (childNodes c)).
  pose proof (children_size c). lia.
Qed.

Lemma promoted_size conditions e :
  list_size (promoted conditions e) <= list_size (childNodes e).
Proof.
  unfold promoted. destruct (condition_met _ _).
  - pose proof (merge_walk_size
                  (filter (fun c => negb (is_else c)) (childNodes e))).
    pose proof (list_size_filter (fun c => negb (is_else c)) (childNodes e)). lia.
  - pose proof (flat_map_walk_size (filter is_else (childNodes e))).
    pose proof (list_size_filter is_else (childNodes e)). lia.
Qed.

Lemma node_size_removeAttribute n k : node_size (removeAttribute n k) = node_size n.
Proof. destruct n; reflexivity. Qed.

Lemma fc_step_size conditions x : list_size (fc_step conditions x) <= node_size x.
Proof.
  unfold fc_step. destruct (String.eqb _ "if").
  - pose proof (promoted_size conditions x). pose proof (children_size x). lia.
  - destruct (negb (String.eqb _ "")).
    + destruct (negb _); [simpl; lia|].
      rewrite list_size_cons, node_size_removeAttribute. simpl. lia.
    + rewrite list_size_cons. simpl. lia.
Qed.

Lemma list_size_skipn_1 cs :
  cs <> [] -> list_size (skipn 1 cs) < list_size cs.
Proof.
  destruct cs as [|c cs]; [congruence|]. intros _.
  cbn [skipn]. rewrite list_size_cons. pose proof (node_size_pos c). lia.
Qed.

Lemma list_size_skipn_le n cs : list_size (skipn n cs) <= list_size cs.
Proof.
  revert cs; induction n as [|n IH]; intros [|c cs]; cbn [skipn]; try lia.
  rewrite list_size_cons. specialize (IH cs). lia.
Qed.

Lemma skipn_S_app {A} (L : list A) rest :
  skipn (S (length L)) (L ++ rest) = skipn 1 rest.
Proof. induction L; [reflexivity|]. simpl. exact IHL. Qed.

Lemma skipn_length_app {A} (L : list A) rest :
  skipn (length L) (L ++ rest) = rest.
Proof. induction L; [reflexivity|]. simpl. exact IHL. Qed.

(** With fuel beyond its size, [_find_conditions] returns a tree, and one
    that is not larger. *)
Lemma find_conditions_total conditions fuel :
  forall n,
    node_size n <= fuel ->
    exists n', _find_conditions fuel conditions n = Ok n'
               /\ node_size n' <= node_size n.
Proof.
  induction fuel as [|fuel IH]; intros n Hf.
  - pose proof (node_size_pos n). lia.
  - rewrite find_conditions_eq. destruct n as [t a ks0| |]; try (eexists; split; [reflexivity|lia]).
    rewrite node_size_element in Hf.
    destruct (for_live_total (fun ks : list node => ks)
                (fc_body (_find_conditions fuel conditions) fuel conditions)
                (fun _ ks => list_size ks <= list_size ks0)
                (fun i ks => list_size (skipn i ks)))
      with (fuel := fuel) (i := 0) (s := ks0)
      as (ks' & i' & E & Hsz & _).
    + intros i s c Hs Hi.
      destruct (nth_error_split_at _ _ _ Hi) as [Es L].
      revert Es L. generalize (firstn i s) (skipn (S i) s). intros l1 l2 Es L.
      subst s i. rewrite list_size_app, list_size_cons in Hs.
      rewrite skipn_length_app, list_size_cons.
      destruct (isElement c) eqn:Hc.
      * destruct (IH c ltac:(lia)) as (c1 & E1 & Hc1).
        destruct (find_conditions_shape _ _ _ _ E1) as (_ & _ & He1).
        rewrite Hc in He1.
        pose proof (children_size c1).
        pose proof (fc_step_size conditions c1) as Hstep.
        exists (l1 ++ fc_step conditions c1 ++ l2).
        split; [apply fc_body_exact; auto; lia|].
        rewrite !list_size_app. split; [lia|].
        rewrite skipn_S_app.
        destruct (fc_step conditions c1 ++ l2) eqn:Eapp.
        -- simpl. pose proof (node_size_pos c). lia.
        -- pose proof (list_size_skipn_1 (n :: l)) as Hlt.
           rewrite <- Eapp in *. rewrite list_size_app in Hlt.
           specialize (Hlt ltac:(rewrite Eapp; discriminate)). lia.
      * exists (l1 ++ c :: l2).
        split; [apply fc_body_not_element; exact Hc|].
        rewrite list_size_app, list_size_cons. split; [lia|].
        rewrite skipn_S_app. cbn [skipn].
        pose proof (node_size_pos c). lia.
    + lia.
    + cbn [skipn]. lia.
    + rewrite E. cbn [bind]. eexists. split; [reflexivity|].
      rewrite !node_size_element. lia.
Qed.

(** ** Induction on trees *)

Lemma node_ind' (P : node -> Prop) :
  (forall t a cs, Forall P cs -> P (Element t a cs)) ->
  (forall d, P (Text d)) ->
  (forall d, P (Comment d)) ->
  forall n, P n.
Proof.
  intros HE HT HC.
  exact (fix IH (n : node) : P n :=
           match n with
           | Element t a cs =>
               HE t a cs
                 ((fix all (l : list node) : Forall P l :=
                     match l with
                     | [] => Forall_nil P
                     | c :: l' => Forall_cons c (IH c) (all l')
                     end) cs)
           | Text d => HT d
           | Comment d => HC d
           end).
Qed.

(** ** Documents whose copy sources hold nothing to copy *)

Lemma live_attrs t a cs cs' : live (Element t a cs) = live (Element t a cs').
Proof. reflexivity. Qed.

Lemma quiet_app l1 l2 : quiet (l1 ++ l2) = quiet l1 && quiet l2.
Proof. apply forallb_app. Qed.

Lemma sources_quiet_element t a cs :
  sources_quiet (Element t a cs)
  = (String.eqb (getAttribute (Element t a cs) "id") "" || quiet cs)
    && forallb sources_quiet cs.
Proof. reflexivity. Qed.

Lemma ctx_quiet_cons f z b :
  ctx_quiet (f :: z) b
  = forallb sources_quiet (f_before f ++ f_after f)
    && (String.eqb (getAttribute (Element (f_tag f) (f_attrs f) []) "id") ""
        || (negb b && quiet (f_before f ++ f_after f)))
    && ctx_quiet z (live (Element (f_tag f) (f_attrs f) []) || b
                    || negb (quiet (f_before f ++ f_after f))).
Proof. reflexivity. Qed.

(** The condition on a document, split between a node and what is around. *)
Lemma plug_quiet z :
  forall n, sources_quiet (plug z n)
            = sources_quiet n && ctx_quiet z (has_live n).
Proof.
  induction z as [|f z IH]; intros n; [cbn [plug ctx_quiet]; rewrite andb_true_r; reflexivity|].
  cbn [plug]. rewrite IH, ctx_quiet_cons, sources_quiet_element, has_live_eq.
  cbn [childNodes].
  rewrite (live_attrs _ _ _ []).
  change (getAttribute (Element (f_tag f) (f_attrs f)
                          (f_before f ++ n :: f_after f)) "id")
    with (getAttribute (Element (f_tag f) (f_attrs f) []) "id").
  rewrite !quiet_app, !forallb_app, quiet_cons. cbn [forallb].
  destruct (String.eqb _ ""), (sources_quiet n), (has_live n),
    (quiet (f_before f)), (quiet (f_after f)),
    (forallb sources_quiet (f_before f)), (forallb sources_quiet (f_after f)),
    (live (Element (f_tag f) (f_attrs f) []));
    cbn [andb orb negb]; rewrite ?andb_true_r, ?andb_false_r; reflexivity.
Qed.

Lemma ctx_quiet_weaken z :
  forall b, ctx_quiet z true = true -> ctx_quiet z b = true.
Proof.
  induction z as [|f z IH]; intros b H; [reflexivity|].
  destruct b; [exact H|].
  rewrite ctx_quiet_cons in *.
  apply andb_true_iff in H as [H H3]. apply andb_true_iff in H as [H1 H2].
  rewrite H1. cbn [andb negb] in *.
  rewrite orb_true_r in H3. cbn [orb] in H3.
  destruct (String.eqb _ ""); cbn [orb andb] in *; [|discriminate].
  apply IH. exact H3.
Qed.

(** Putting a tree without [copyobject] with an id, or any tree where a
    [copyobject] with an id was, keeps the condition. *)
Lemma plug_quiet_replace z c n :
  sources_quiet (plug z c) = true ->
  sources_quiet n = true ->
  (has_live n = true -> has_live c = true) ->
  sources_quiet (plug z n) = true.
Proof.
  rewrite !plug_quiet. intros H Hn Hl. apply andb_true_iff in H as [_ H].
  rewrite Hn. cbn [andb].
  destruct (has_live n).
  - rewrite (Hl eq_refl) in H. exact H.
  - destruct (has_live c); [apply ctx_quiet_weaken|]; exact H.
Qed.

Lemma sources_quiet_kids n c :
  sources_quiet n = true -> In c (childNodes n) -> sources_quiet c = true.
Proof.
  destruct n as [t a cs| |]; try contradiction.
  rewrite sources_quiet_element. cbn [childNodes]. intros H Hin.
  apply andb_true_iff in H as [_ H]. rewrite forallb_forall in H. auto.
Qed.

(** What [search_for_id] finds is an element with that id, and a part of
    the tree that was searched. *)
Lemma search_child_sound id :
  forall n r,
    search_child id n = Some r ->
    sources_quiet n = true ->
    sources_quiet r = true /\ getAttribute r "id" = id /\ isElement r = true.
Proof.
  induction n as [t a cs IH| |] using node_ind'; try discriminate.
  intros r. rewrite search_child_element.
  destruct (String.eqb_spec id (getAttribute (Element t a cs) "id")) as [E|_].
  - intros H Hq. inversion H; subst. auto.
  - intros H Hq.
    assert (Hcs : forall c, In c cs -> sources_quiet c = true)
      by (intros c; apply (sources_quiet_kids _ _ Hq)).
    clear Hq. induction cs as [|c cs IHcs]; [discriminate|].
    rewrite search_children_cons in H. inversion IH; subst.
    destruct (search_child id c) eqn:Ec.
    + inversion H; subst. apply H2; [reflexivity|]. apply Hcs. left. reflexivity.
    + apply IHcs; auto. intros c' Hin. apply Hcs. right. exact Hin.
Qed.

Lemma search_source_quiet root id r :
  sources_quiet root = true ->
  id <> "" ->
  search_for_id (xml root) id = Some r ->
  isElement r = true /\ sources_quiet r = true /\ quiet (childNodes r) = true.
Proof.
  intros Hq Hid. rewrite search_xml. intros H.
  destruct (search_child_sound _ _ _ H Hq) as (Hr & Hrid & He).
  split; [exact He|]. split; [exact Hr|].
  destruct r as [t a cs| |]; try discriminate.
  rewrite sources_quiet_element in Hr. apply andb_true_iff in Hr as [Hr _].
  rewrite Hrid in Hr. destruct (String.eqb_spec id ""); [contradiction|exact Hr].
Qed.

(** Fixing icon paths changes text only. *)

Lemma live_shape n n' :
  tagName n' = tagName n -> attributes n' = attributes n ->
  isElement n' = isElement n -> live n' = live n.
Proof.
  intros Ht Ha He. unfold live, is_copyobject, getAttribute.
  rewrite Ht, Ha, He. reflexivity.
Qed.

Lemma quiet_map f cs :
  (forall c, In c cs -> has_live (f c) = has_live c) ->
  quiet (map f cs) = quiet cs.
Proof.
  induction cs as [|c cs IH]; intros H; [reflexivity|].
  cbn [map]. rewrite !quiet_cons, H, IH; [reflexivity| |left; reflexivity].
  intros c' Hin. apply H. right. exact Hin.
Qed.

Lemma forallb_map_eq {A} (p : A -> bool) f cs :
  (forall c, In c cs -> p (f c) = p c) ->
  forallb p (map f cs) = forallb p cs.
Proof.
  induction cs as [|c cs IH]; intros H; [reflexivity|].
  cbn [map forallb]. rewrite H, IH; [reflexivity| |left; reflexivity].
  intros c' Hin. apply H. right. exact Hin.
Qed.

Lemma check_icon_path_element icon_paths t a cs :
  _check_icon_path icon_paths (Element t a cs)
  = Element t a (map (fun n => match n with
                               | Text data => Text (replace icon_paths data)
                               | _ => n
                               end) cs).
Proof. reflexivity. Qed.

Lemma check_icon_path_quiet icon_paths n :
  has_live (_check_icon_path icon_paths n) = has_live n
  /\ sources_quiet (_check_icon_path icon_paths n) = sources_quiet n
  /\ node_size (_check_icon_path icon_paths n) = node_size n.
Proof.
  destruct n as [t a cs| |]; [|auto..].
  rewrite check_icon_path_element, !has_live_eq, !sources_quiet_element,
    !node_size_element.
  cbn [childNodes]. rewrite (live_attrs _ _ _ cs).
  change (getAttribute (Element t a (map _ cs)) "id")
    with (getAttribute (Element t a cs) "id").
  rewrite quiet_map by (intros [] _; reflexivity).
  rewrite forallb_map_eq by (intros [] _; reflexivity).
  repeat split. f_equal. unfold list_size.
  induction cs as [|c cs IH]; [reflexivity|]. cbn [map fold_right].
  rewrite IH. destruct c; reflexivity.
Qed.

Lemma icon_fix_quiet icon_paths n :
  has_live (icon_fix icon_paths n) = has_live n
  /\ sources_quiet (icon_fix icon_paths n) = sources_quiet n
  /\ node_size (icon_fix icon_paths n) = node_size n.
Proof.
  unfold icon_fix. destruct (String.eqb _ "property"); [|auto].
  destruct (String.eqb _ "pixbuf"); [apply check_icon_path_quiet|].
  destruct (String.eqb _ "icon"); [apply check_icon_path_quiet|auto].
Qed.

Lemma icons_quiet icon_paths :
  forall n,
    has_live (icons icon_paths n) = has_live n
    /\ sources_quiet (icons icon_paths n) = sources_quiet n
    /\ node_size (icons icon_paths n) = node_size n.
Proof.
  induction n as [t a cs IH| |] using node_ind'; [|auto..].
  rewrite icons_element, !has_live_eq, !sources_quiet_element, !node_size_element.
  cbn [childNodes]. rewrite (live_attrs _ _ _ cs).
  change (getAttribute (Element t a (map _ cs)) "id")
    with (getAttribute (Element t a cs) "id").
  rewrite Forall_forall in IH.
  assert (Hkid : forall c, In c cs ->
    let c' := if isElement c then
                if String.eqb (lower (tagName c)) "copyobject" then c
                else icon_fix icon_paths (icons icon_paths c)
              else c in
    has_live c' = has_live c /\ sources_quiet c' = sources_quiet c
    /\ node_size c' = node_size c).
  { intros c Hin. cbn zeta. destruct (isElement c); [|auto].
    destruct (String.eqb _ "copyobject"); [auto|].
    destruct (icon_fix_quiet icon_paths (icons icon_paths c)) as (-> & -> & ->).
    apply IH. exact Hin. }
  rewrite quiet_map by (intros c Hin; apply (Hkid c Hin)).
  rewrite forallb_map_eq by (intros c Hin; apply (Hkid c Hin)).
  repeat split. f_equal. unfold list_size. clear IH.
  induction cs as [|c cs IHcs]; [reflexivity|]. cbn [map fold_right].
  rewrite IHcs by (intros c' Hin; apply Hkid; right; exact Hin).
  destruct (Hkid c (or_introl eq_refl)) as (_ & _ & ->). reflexivity.
Qed.

(** ** The first pass comes to an end when copy sources hold nothing to
    copy *)

Lemma frame_at_mid t a (done : list node) x rest :
  frame_at t a (length done) (done ++ x :: rest) = Frame t a done rest.
Proof.
  unfold frame_at. f_equal.
  - rewrite firstn_app, firstn_all, Nat.sub_diag. cbn [firstn]. apply app_nil_r.
  - rewrite skipn_S_app. reflexivity.
Qed.

Lemma plug_frame t a done rest z x :
  plug (Frame t a done rest :: z) x = plug z (Element t a (done ++ x :: rest)).
Proof. reflexivity. Qed.

Section CopyPass.

Variable icon_paths : list (string * string).

(** The property proved of every tree: wherever it sits in a document
    that meets the condition, with enough fuel the pass returns, and the
    document still meets the condition. *)
Local Abbreviation returns n :=
  (forall z, sources_quiet (plug z n) = true ->
     exists N n',
       (forall fuel, N <= fuel -> _objects_n_icons fuel icon_paths z n = Ok n')
       /\ sources_quiet (plug z n') = true).

Lemma oni_loop_total z t a :
  forall rest done,
    Forall (fun n => returns n) rest ->
    sources_quiet (plug z (Element t a (done ++ rest))) = true ->
    exists N ks',
      (forall k fuel, N <= k -> N <= fuel ->
         for_live k (fun ks => ks)
           (oni_body (_objects_n_icons fuel icon_paths) icon_paths z t a)
           (length done) (done ++ rest) = Ok ks')
      /\ sources_quiet (plug z (Element t a ks')) = true.
Proof.
  induction rest as [|c rest IH]; intros done Hall Hq.
  - exists 0, done. rewrite app_nil_r in *. split; [|exact Hq].
    intros k fuel _ _.
    destruct k; cbn [for_live];
      replace (nth_error done (length done)) with (@None node)
        by (symmetry; apply nth_error_None; lia);
      reflexivity.
  - inversion Hall as [|c0 rest0 Hc Hrest]; subst.
    (* what the turn for [c] leaves in its place *)
    assert (Hturn : exists N c',
      (forall fuel, N <= fuel ->
         oni_body (_objects_n_icons fuel icon_paths) icon_paths z t a
           (length done) c (done ++ c :: rest) = Ok (done ++ c' :: rest))
      /\ sources_quiet (plug z (Element t a (done ++ c' :: rest))) = true).
    { unfold oni_body. destruct (isElement c) eqn:He.
      2:{ exists 0, c. split; [reflexivity|exact Hq]. }
      destruct (String.eqb (lower (tagName c)) "copyobject") eqn:Ht.
      - destruct (String.eqb_spec (getAttribute c "id") "") as [Hid|Hid].
        { exists 0, c. split; [reflexivity|exact Hq]. }
        destruct (search_for_id (xml (plug z (Element t a (done ++ c :: rest))))
                    (getAttribute c "id")) as [r|] eqn:Es.
        2:{ exfalso. rewrite search_xml in Es. revert Es.
            apply search_child_plug_some. rewrite search_child_element.
            destruct (String.eqb _ (getAttribute (Element t a _) "id"));
              [discriminate|].
            apply (search_children_in _ c);
              [apply in_or_app; right; left; reflexivity|].
            unfold search_child. rewrite He, String.eqb_refl. discriminate. }
        destruct (search_source_quiet _ _ _ Hq Hid Es) as (Hre & Hrq & Hrk).
        destruct (icons_quiet icon_paths r) as (Hl & Hs & _).
        exists (node_size r), (icons icon_paths r). split.
        + intros fuel Hf. unfold cloneNode.
          rewrite (replace_child _ _ c) by apply nth_error_mid.
          rewrite set_nth_mid, frame_at_mid.
          rewrite objects_n_icons_quiet by assumption.
          cbn [bind]. rewrite set_nth_mid. reflexivity.
        + rewrite <- plug_frame. rewrite <- plug_frame in Hq.
          apply (plug_quiet_replace _ c); [exact Hq|congruence|].
          intros _. rewrite has_live_eq. unfold live, is_copyobject.
          rewrite He, Ht. destruct (String.eqb_spec (getAttribute c "id") "");
            [contradiction|reflexivity].
      - rewrite <- plug_frame in Hq.
        destruct (Hc _ Hq) as (N & c' & Hrun & Hq').
        destruct (icon_fix_quiet icon_paths c') as (Hl & Hs & _).
        exists N, (icon_fix icon_paths c'). split.
        + intros fuel Hf. rewrite frame_at_mid, (Hrun _ Hf). cbn [bind].
          rewrite set_nth_mid. reflexivity.
        + rewrite <- plug_frame. rewrite plug_quiet in *.
          rewrite Hl, Hs. exact Hq'. }
    destruct Hturn as (N1 & c' & Hrun & Hq').
    replace (done ++ c' :: rest) with ((done ++ [c']) ++ rest) in Hq'
      by (rewrite <- app_assoc; reflexivity).
    destruct (IH (done ++ [c']) Hrest Hq') as (N2 & ks' & Hloop & Hq'').
    exists (S (N1 + N2)), ks'. split; [|exact Hq''].
    intros k fuel Hk Hf. destruct k as [|k]; [lia|].
    cbn [for_live]. rewrite nth_error_mid, Hrun by lia. cbn [bind].
    replace (done ++ c' :: rest) with ((done ++ [c']) ++ rest)
      by (rewrite <- app_assoc; reflexivity).
    replace (S (length done)) with (length (done ++ [c']))
      by (rewrite length_app; simpl; lia).
    apply Hloop; lia.
Qed.

Lemma objects_n_icons_total : forall n, returns n.
Proof.
  induction n as [t a cs IH| |] using node_ind'.
  - intros z Hq.
    destruct (oni_loop_total z t a cs [] IH Hq) as (N & ks' & Hloop & Hq').
    exists (S N), (Element t a ks'). split; [|exact Hq'].
    intros fuel Hf. destruct fuel as [|fuel]; [lia|].
    rewrite objects_n_icons_eq.
    cbn [app length] in Hloop. rewrite Hloop by lia. reflexivity.
  - intros z Hq. exists 1, (Text d). split; [|exact Hq].
    intros [|fuel] Hf; [lia|reflexivity].
  - intros z Hq. exists 1, (Comment d). split; [|exact Hq].
    intros [|fuel] Hf; [lia|reflexivity].
Qed.

End CopyPass.



(** ** What the second pass leaves *)

Lemma static_cons c cs : static (c :: cs) = negb (has_templating c) && static cs.
Proof. reflexivity. Qed.

Lemma static_forall cs :
  (forall c, In c cs -> has_templating c = false) -> static cs = true.
Proof.
  intros H. unfold static. apply forallb_forall. intros c Hin.
  rewrite (H c Hin). reflexivity.
Qed.

Lemma good_false n : good false n = negb (has_templating n).
Proof. unfold good. cbn [andb]. apply orb_false_r. Qed.

Lemma good_false_static cs : forallb (good false) cs = static cs.
Proof.
  unfold static. induction cs as [|c cs IH]; [reflexivity|].
  cbn [forallb]. rewrite good_false, IH. reflexivity.
Qed.

Lemma good_of_clean u n : has_templating n = false -> good u n = true.
Proof. intros H. unfold good. rewrite H. reflexivity. Qed.

Lemma good_not_element u n : isElement n = false -> good u n = true.
Proof. intros H. apply good_of_clean. destruct n; [discriminate|reflexivity..]. Qed.

Lemma is_else_templating n : is_else n = true -> has_templating n = true.
Proof.
  unfold is_else. intros H. apply andb_true_iff in H as [He Ht].
  rewrite has_templating_eq. unfold templating. rewrite He.
  change (lower "else") with "else" in Ht. rewrite Ht.
  cbn [andb]. rewrite !orb_true_r. reflexivity.
Qed.

(** The children of an [else] child that was left are without templating
    elements; a child that is not an [else] element is. *)
Lemma good_else_kids u e :
  good u e = true -> is_else e = true -> static (childNodes e) = true.
Proof.
  unfold good. intros H He. rewrite (is_else_templating _ He) in H.
  cbn [negb orb] in H. apply andb_true_iff in H as [_ H]. exact H.
Qed.

Lemma good_not_else u n :
  good u n = true -> is_else n = false -> has_templating n = false.
Proof.
  unfold good. intros H He. rewrite He, andb_false_r in H. cbn [andb] in H.
  rewrite orb_false_r in H. destruct (has_templating n); [discriminate|reflexivity].
Qed.

(** What is put in the place of an [if] element has no templating
    element in it. *)
Lemma promoted_static conditions e :
  forallb (good true) (childNodes e) = true ->
  static (promoted conditions e) = true.
Proof.
  intros Hg. rewrite forallb_forall in Hg.
  apply static_forall. intros x. unfold promoted.
  destruct (condition_met _ _).
  - intros Hx. apply merge_walk_in in Hx as [Hx _].
    apply filter_In in Hx as [Hx Hne].
    apply (good_not_else true); [auto|].
    destruct (is_else x); [discriminate|reflexivity].
  - intros Hx. apply in_flat_map in Hx as (el & Hel & Hx).
    apply filter_In in Hel as [Hel Helse].
    apply merge_walk_in in Hx as [Hx _].
    apply (static_In (childNodes el)); [|exact Hx].
    apply (good_else_kids true); auto.
Qed.

Lemma getAttribute_removeAttribute n k : getAttribute (removeAttribute n k) k = "".
Proof.
  destruct n as [t a cs| |]; [|reflexivity..].
  unfold getAttribute. cbn [removeAttribute attributes].
  induction a as [|[k' v] a IH]; [reflexivity|].
  cbn [filter fst]. destruct (String.eqb_spec k' k) as [->|Hne]; cbn [negb].
  - exact IH.
  - cbn [lookup_attr]. destruct (String.eqb_spec k' k); [contradiction|exact IH].
Qed.

(** An element that is no [if] and no [copyobject], without an [if]
    attribute, over children without templating elements: good. *)
Lemma good_resolved u t a cs :
  String.eqb (lower t) "if" = false ->
  String.eqb (lower t) "copyobject" = false ->
  (negb (String.eqb (lower t) "else") || u) = true ->
  getAttribute (Element t a cs) "if" = "" ->
  static cs = true ->
  good u (Element t a cs) = true.
Proof.
  intros Hif Hcopy Helse Hattr Hs. unfold good.
  rewrite has_templating_eq. unfold templating, is_else.
  cbn [isElement tagName childNodes andb]. rewrite Hif, Hcopy, Hattr, Hs.
  change (lower "else") with "else".
  destruct (String.eqb (lower t) "else"); cbn [negb orb andb] in *.
  - rewrite Helse. reflexivity.
  - reflexivity.
Qed.

Lemma sep_cons_element c d rest :
  sep (c :: d :: rest) = true -> isElement c = true ->
  isElement d = false /\ sep rest = true.
Proof.
  cbn [sep]. intros H Hc. apply andb_true_iff in H as [H1 H2].
  rewrite Hc in H1. split.
  - destruct (isElement d); [discriminate|reflexivity].
  - destruct rest as [|e rest]; [reflexivity|].
    cbn [sep] in H2. apply andb_true_iff in H2 as [_ H2]. exact H2.
Qed.

Lemma sep_tail c rest : sep (c :: rest) = true -> sep rest = true.
Proof.
  destruct rest as [|d rest]; [reflexivity|]. cbn [sep].
  intros H. apply andb_true_iff in H as [_ H]. exact H.
Qed.

Section Resolve.

Variable conditions : list string.
Variable fuel : nat.

(** The recursive calls are taken to do what is proved of the loop. *)
Hypothesis calls :
  forall u n n',
    regular u n = true ->
    _find_conditions fuel conditions n = Ok n' ->
    forallb (good (String.eqb (lower (tagName n)) "if")) (childNodes n') = true.

Lemma fc_turn u i ks x ks' :
  walking u i ks ->
  nth_error ks i = Some x ->
  fc_body (_find_conditions fuel conditions) fuel conditions i x ks = Ok ks' ->
  walking u (S i) ks'.
Proof.
  intros (done & cl & orig & -> & Hdone & Hcl & Horig & Hsep & Hi) Hx Eb.
  destruct Hi as [Hi|[Hnil Hi]].
  2:{ rewrite Hnil, app_nil_r in Hx.
      assert (length done > i) by (apply nth_error_Some; rewrite Hx; discriminate).
      lia. }
  subst i. rewrite nth_error_app2, Nat.sub_diag in Hx by lia.
  assert (Hpush : forall y rest cl' orig',
            good u y = true -> static cl' = true ->
            forallb (regular u) orig' = true -> sep orig' = true ->
            rest = cl' ++ orig' ->
            walking u (S (length done)) (done ++ y :: rest)).
  { intros y rest cl' orig' Hy Hcl' Ho' Hs' ->.
    exists (done ++ [y]), cl', orig'. rewrite <- app_assoc. cbn [app].
    rewrite forallb_app. cbn [forallb]. rewrite Hdone, Hy.
    repeat split; auto. left. rewrite length_app. simpl. lia. }
  (* what is left once the turn has put [new], without templating
     elements, in the place of [x] *)
  assert (Hput : forall new orig',
            static new = true ->
            forallb (regular u) orig' = true -> sep orig' = true ->
            (new = [] -> match orig' with
                         | d :: _ => isElement d = false
                         | [] => True
                         end) ->
            walking u (S (length done)) (done ++ new ++ orig')).
  { intros new orig' Hnew Ho' Hs' Hskip.
    destruct new as [|p new].
    - cbn [app]. destruct orig' as [|d orig'].
      + exists done, [], []. cbn [app].
        repeat split; auto.
      + cbn [forallb] in Ho'. apply andb_true_iff in Ho' as [_ Ho'].
        apply (Hpush d orig' [] orig'); auto.
        * apply good_not_element. apply Hskip. reflexivity.
        * eapply sep_tail; eassumption.
    - rewrite static_cons in Hnew. apply andb_true_iff in Hnew as [Hp Hnew].
      apply (Hpush p (new ++ orig') new orig'); auto.
      apply good_of_clean. destruct (has_templating p); [discriminate|reflexivity]. }
  destruct cl as [|c cl].
  - (* a child that is still as it was *)
    cbn [app] in *. destruct orig as [|o orig]; [discriminate|].
    inversion Hx; subst o. clear Hx.
    cbn [forallb] in Horig. apply andb_true_iff in Horig as [Hrx Horig].
    destruct (isElement x) eqn:He.
    2:{ rewrite (fc_body_not_element _ _ _ _ _ _ He) in Eb. inversion Eb; subst.
        apply (Hpush x orig [] orig); auto using good_not_element.
        eapply sep_tail; eassumption. }
    apply fc_body_ok_inv in Eb as (x1 & E1 & He1 & ->); [|exact He].
    pose proof (calls _ _ _ Hrx E1) as Hkids.
    destruct (find_conditions_shape _ _ _ _ E1) as (Ht & Ha & _).
    assert (Hskip : match orig with
                    | d :: _ => isElement d = false
                    | [] => True
                    end).
    { destruct orig as [|d orig]; [exact I|].
      apply (sep_cons_element _ _ _ Hsep He). }
    pose proof (sep_tail _ _ Hsep) as Hsep'.
    destruct x as [t a cs| |]; try discriminate.
    destruct x1 as [t1 a1 cs1| |]; try discriminate.
    cbn [tagName attributes childNodes] in *. subst t1 a1.
    cbn [regular] in Hrx.
    apply andb_true_iff in Hrx as [Hrx _]. apply andb_true_iff in Hrx as [Hrx _].
    apply andb_true_iff in Hrx as [Hcopy Helse].
    unfold fc_step. cbn [tagName].
    destruct (String.eqb (lower t) "if") eqn:Hif.
    + apply Hput; auto. apply promoted_static. exact Hkids.
    + rewrite good_false_static in Hkids.
      destruct (String.eqb (lower t) "copyobject") eqn:Hc; [discriminate|].
      destruct (String.eqb_spec (getAttribute (Element t a cs1) "if") "")
        as [Hattr|Hattr]; cbn [negb].
      * cbn [app]. apply (Hpush _ orig [] orig); auto.
        apply good_resolved; auto.
      * destruct (condition_met conditions _); cbn [negb].
        -- cbn [app]. apply (Hpush _ orig [] orig); auto.
           apply good_resolved; auto.
           apply (getAttribute_removeAttribute (Element t a cs1)).
        -- apply (Hput [] orig); auto.
  - (* a node that was moved up: nothing happens to it *)
    cbn [app] in Hx. inversion Hx; subst c. clear Hx.
    rewrite static_cons in Hcl. apply andb_true_iff in Hcl as [Hx Hcl].
    assert (Hxt : has_templating x = false)
      by (destruct (has_templating x); [discriminate|reflexivity]).
    assert (ks' = done ++ x :: cl ++ orig) as ->.
    { destruct (isElement x) eqn:He.
      - cbn [app] in Eb.
        apply fc_body_ok_inv in Eb as (x1 & E1 & He1 & ->); [|exact He].
        destruct (has_templating_false _ Hxt) as [Htx Hsx].
        rewrite (find_conditions_static _ _ _ _ Hsx E1).
        rewrite (templating_false_step _ _ He Htx). reflexivity.
      - rewrite (fc_body_not_element _ _ _ _ _ _ He) in Eb.
        inversion Eb; reflexivity. }
    apply (Hpush x (cl ++ orig) cl orig); auto using good_of_clean.
Qed.

Lemma fc_loop_good u ks0 ks' :
  forallb (regular u) ks0 = true ->
  sep ks0 = true ->
  for_live fuel (fun ks => ks)
    (fc_body (_find_conditions fuel conditions) fuel conditions) 0 ks0 = Ok ks' ->
  forallb (good u) ks' = true.
Proof.
  intros Hr Hs E.
  destruct (for_live_inv _ _ (walking u) (fc_turn u) fuel 0 ks0 ks')
    as (i' & (done & cl & orig & -> & Hdone & _ & _ & _ & Hi) & Hend);
    [|exact E|].
  - exists [], [], ks0. repeat split; auto.
  - destruct Hi as [Hi|[Hnil _]].
    + subst i'. rewrite nth_error_app2, Nat.sub_diag in Hend by lia.
      destruct (cl ++ orig); [|discriminate]. rewrite app_nil_r. exact Hdone.
    + rewrite Hnil, app_nil_r. exact Hdone.
Qed.

End Resolve.

Lemma find_conditions_good conditions fuel :
  forall u n n',
    regular u n = true ->
    _find_conditions fuel conditions n = Ok n' ->
    forallb (good (String.eqb (lower (tagName n)) "if")) (childNodes n') = true.
Proof.
  induction fuel as [|fuel IH]; intros u n n' Hr E; [discriminate|].
  rewrite find_conditions_eq in E. destruct n as [t a ks0| |].
  - apply bind_ok in E as (ks' & E1 & E2). inversion E2; subst.
    cbn [tagName childNodes]. cbn [regular] in Hr.
    apply andb_true_iff in Hr as [Hr Hkids]. apply andb_true_iff in Hr as [_ Hsep].
    eapply fc_loop_good; eauto.
  - inversion E; reflexivity.
  - inversion E; reflexivity.
Qed.

(** ** The whole build on a regular document *)

Lemma sep_cons2 c d rest :
  sep (c :: d :: rest) = negb (isElement c && isElement d) && sep (d :: rest).
Proof. reflexivity. Qed.

Lemma sep_map f cs :
  (forall c, isElement (f c) = isElement c) -> sep (map f cs) = sep cs.
Proof.
  intros Hf. induction cs as [|c cs IH]; [reflexivity|].
  destruct cs as [|d cs]; [reflexivity|].
  cbn [map] in *. rewrite !sep_cons2, !Hf, IH. reflexivity.
Qed.

Lemma check_icon_path_regular icon_paths u n :
  regular u (_check_icon_path icon_paths n) = regular u n.
Proof.
  destruct n as [t a cs| |]; [|reflexivity..].
  rewrite check_icon_path_element. cbn [regular].
  rewrite sep_map by (intros []; reflexivity).
  rewrite forallb_map_eq by (intros [] _; reflexivity).
  reflexivity.
Qed.

Lemma icon_fix_regular icon_paths u n :
  regular u (icon_fix icon_paths n) = regular u n.
Proof.
  unfold icon_fix. destruct (String.eqb _ "property"); [|reflexivity].
  destruct (String.eqb _ "pixbuf"); [apply check_icon_path_regular|].
  destruct (String.eqb _ "icon"); [apply check_icon_path_regular|reflexivity].
Qed.

Lemma icons_kid_element icon_paths c :
  isElement (if isElement c then
               if String.eqb (lower (tagName c)) "copyobject" then c
               else icon_fix icon_paths (icons icon_paths c)
             else c) = isElement c.
Proof.
  destruct (isElement c) eqn:He; [|exact He].
  destruct (String.eqb _ "copyobject"); [exact He|].
  destruct (icon_fix_shape icon_paths (icons icon_paths c)) as (_ & _ & ->).
  destruct (icons_shape icon_paths c) as (_ & _ & ->). exact He.
Qed.

Lemma icons_regular icon_paths :
  forall n u, regular u (icons icon_paths n) = regular u n.
Proof.
  induction n as [t a cs IH| |] using node_ind'; intros u; [|reflexivity..].
  rewrite icons_element. cbn [regular].
  rewrite sep_map by apply icons_kid_element.
  rewrite Forall_forall in IH.
  rewrite forallb_map_eq; [reflexivity|].
  intros c Hin. destruct (isElement c); [|reflexivity].
  destruct (String.eqb _ "copyobject"); [reflexivity|].
  rewrite icon_fix_regular. apply IH. exact Hin.
Qed.

(** A regular tree has no [copyobject] in it. *)
Lemma regular_quiet :
  forall n u, regular u n = true -> has_live n = false.
Proof.
  induction n as [t a cs IH| |] using node_ind'; intros u Hr; [|reflexivity..].
  cbn [regular] in Hr.
  apply andb_true_iff in Hr as [Hr Hkids]. apply andb_true_iff in Hr as [Hr _].
  apply andb_true_iff in Hr as [Hcopy _].
  rewrite has_live_eq. unfold live, is_copyobject. cbn [isElement tagName childNodes].
  destruct (String.eqb (lower t) "copyobject"); [discriminate|]. cbn [andb orb].
  rewrite Forall_forall in IH. rewrite forallb_forall in Hkids.
  replace (quiet cs) with true; [reflexivity|]. symmetry.
  unfold quiet. apply forallb_forall. intros c Hin.
  rewrite (IH c Hin _ (Hkids c Hin)). reflexivity.
Qed.

(** Where the document has no [copyobject] at all, the first pass only
    fixes icon paths and the second resolves the rest. *)
Lemma build_resolves_copy_free fuel conditions icon_paths root out :
  sep (childNodes root) = true ->
  forallb (regular false) (childNodes root) = true ->
  _build fuel conditions icon_paths root = Ok out ->
  static (childNodes out) = true.
Proof.
  intros Hsep Hreg E. unfold _build in E.
  apply bind_ok in E as (root1 & E1 & E2).
  assert (Hq : quiet (childNodes root) = true).
  { unfold quiet. apply forallb_forall. intros c Hin.
    rewrite forallb_forall in Hreg.
    rewrite (regular_quiet _ _ (Hreg c Hin)). reflexivity. }
  assert (root1 = icons icon_paths root) as ->.
  { assert (H : _objects_n_icons (fuel + node_size root) icon_paths [] root
                 = Ok (icons icon_paths root))
      by (apply objects_n_icons_quiet; [exact Hq|lia]).
    rewrite (objects_n_icons_mono icon_paths fuel (fuel + node_size root)
               [] root root1) in H; [|lia|exact E1].
    inversion H; reflexivity. }
  destruct fuel as [|fuel]; [discriminate|]. rewrite find_conditions_eq in E2.
  destruct root as [t a ks| |]; try (inversion E2; reflexivity).
  rewrite icons_element in E2.
  apply bind_ok in E2 as (ks' & E3 & E4). inversion E4; subst.
  cbn [childNodes] in *. rewrite <- good_false_static.
  eapply fc_loop_good; [apply find_conditions_good| | |exact E3].
  - rewrite forallb_map_eq; [exact Hreg|].
    intros c Hin. destruct (isElement c); [|reflexivity].
    destruct (String.eqb _ "copyobject"); [reflexivity|].
    rewrite icon_fix_regular. apply icons_regular.
  - rewrite sep_map by apply icons_kid_element. exact Hsep.
Qed.

(** ** Trees up to their texts *)

Lemma skeleton_element_kind n : isElement (skeleton n) = isElement n.
Proof. destruct n; reflexivity. Qed.

Lemma skeleton_shape n :
  tagName (skeleton n) = tagName n /\ attributes (skeleton n) = attributes n.
Proof. destruct n; auto. Qed.

Lemma is_copyobject_skeleton n : is_copyobject (skeleton n) = is_copyobject n.
Proof. destruct n; reflexivity. Qed.

Lemma is_else_skeleton n : is_else (skeleton n) = is_else n.
Proof. destruct n; reflexivity. Qed.

Lemma check_icon_path_skeleton icon_paths n :
  skeleton (_check_icon_path icon_paths n) = skeleton n.
Proof.
  destruct n as [t a cs| |]; [|reflexivity..].
  rewrite check_icon_path_element. cbn [skeleton]. f_equal.
  rewrite map_map. apply map_ext. intros []; reflexivity.
Qed.

Lemma icon_fix_skeleton icon_paths n :
  skeleton (icon_fix icon_paths n) = skeleton n.
Proof.
  unfold icon_fix. destruct (String.eqb _ "property"); [|reflexivity].
  destruct (String.eqb _ "pixbuf"); [apply check_icon_path_skeleton|].
  destruct (String.eqb _ "icon"); [apply check_icon_path_skeleton|reflexivity].
Qed.

Lemma icons_skeleton icon_paths :
  forall n, skeleton (icons icon_paths n) = skeleton n.
Proof.
  induction n as [t a cs IH| |] using node_ind'; [|reflexivity..].
  rewrite icons_element. cbn [skeleton]. f_equal. rewrite map_map.
  rewrite Forall_forall in IH. apply map_ext_in. intros c Hin.
  destruct (isElement c); [|reflexivity].
  destruct (String.eqb _ "copyobject"); [reflexivity|].
  rewrite icon_fix_skeleton. apply IH. exact Hin.
Qed.

Lemma skeleton_plug z :
  forall n n', skeleton n = skeleton n' ->
               skeleton (plug z n) = skeleton (plug z n').
Proof.
  induction z as [|f z IH]; intros n n' H; [exact H|].
  cbn [plug]. apply IH. cbn [skeleton]. rewrite !map_app. cbn [map].
  rewrite H. reflexivity.
Qed.

Lemma sep_skeleton cs : sep (map skeleton cs) = sep cs.
Proof. apply sep_map. apply skeleton_element_kind. Qed.

Lemma has_live_skeleton :
  forall n, has_live (skeleton n) = has_live n.
Proof.
  induction n as [t a cs IH| |] using node_ind'; [|reflexivity..].
  cbn [skeleton]. rewrite !has_live_eq. cbn [childNodes].
  rewrite (live_attrs _ _ _ cs). rewrite Forall_forall in IH.
  rewrite quiet_map by exact IH. reflexivity.
Qed.

Lemma sources_quiet_skeleton :
  forall n, sources_quiet (skeleton n) = sources_quiet n.
Proof.
  induction n as [t a cs IH| |] using node_ind'; [|reflexivity..].
  cbn [skeleton]. rewrite !sources_quiet_element.
  change (getAttribute (Element t a (map skeleton cs)) "id")
    with (getAttribute (Element t a cs) "id").
  rewrite Forall_forall in IH.
  rewrite quiet_map by (intros; apply has_live_skeleton).
  rewrite forallb_map_eq by exact IH. reflexivity.
Qed.

Lemma tidy_skeleton : forall n, tidy (skeleton n) = tidy n.
Proof.
  induction n as [t a cs IH| |] using node_ind'; [|reflexivity..].
  cbn [skeleton tidy]. rewrite Forall_forall in IH.
  rewrite forallb_map_eq by exact IH.
  change (is_copyobject (Element t a (map skeleton cs)))
    with (is_copyobject (Element t a cs)).
  change (is_else (Element t a (map skeleton cs))) with (is_else (Element t a cs)).
  change (getAttribute (Element t a (map skeleton cs)) "id")
    with (getAttribute (Element t a cs) "id").
  destruct cs; reflexivity.
Qed.

Lemma shaped_skeleton : forall n, shaped (skeleton n) = shaped n.
Proof.
  induction n as [t a cs IH| |] using node_ind'; [|reflexivity..].
  cbn [skeleton shaped]. rewrite sep_skeleton. rewrite Forall_forall in IH.
  rewrite forallb_map_eq; [reflexivity|].
  intros c Hin. rewrite is_else_skeleton, (IH c Hin). reflexivity.
Qed.

Lemma copy_free_skeleton : forall n, copy_free (skeleton n) = copy_free n.
Proof.
  induction n as [t a cs IH| |] using node_ind'; [|reflexivity..].
  cbn [skeleton copy_free]. rewrite Forall_forall in IH.
  rewrite forallb_map_eq by exact IH. reflexivity.
Qed.

Lemma labels_skeleton : forall n, labels (skeleton n) = labels n.
Proof.
  induction n as [t a cs IH| |] using node_ind'; [|reflexivity..].
  cbn [skeleton labels]. f_equal. rewrite Forall_forall in IH.
  induction cs as [|c cs IHcs]; [reflexivity|].
  cbn [map flat_map]. rewrite IH by (left; reflexivity).
  rewrite IHcs; [reflexivity|]. intros c' Hin. apply IH. right. exact Hin.
Qed.

(** ** What [search_for_id] returns, in terms of document order *)

Lemma first_with_id_app id l1 l2 :
  first_with_id id (l1 ++ l2)
  = match first_with_id id l1 with
    | Some l => Some l
    | None => first_with_id id l2
    end.
Proof.
  unfold first_with_id. induction l1 as [|x l1 IH]; [reflexivity|].
  cbn [app find]. destruct (String.eqb id _); [reflexivity|exact IH].
Qed.

Lemma first_with_id_in id ls l : first_with_id id ls = Some l -> In l ls.
Proof. unfold first_with_id. intros H. apply find_some in H. tauto. Qed.

Lemma search_child_labels id :
  forall n,
    first_with_id id (labels n) = option_map label_of (search_child id n).
Proof.
  induction n as [t a cs IH| |] using node_ind'; [|reflexivity..].
  rewrite search_child_element. cbn [labels].
  unfold first_with_id at 1. cbn [find].
  change (getAttribute (Element t a []) "id")
    with (getAttribute (Element t a cs) "id").
  destruct (String.eqb id _); [reflexivity|].
  fold (first_with_id id (flat_map labels cs)).
  induction cs as [|c cs IHcs]; [reflexivity|].
  inversion IH; subst. cbn [flat_map].
  rewrite first_with_id_app, search_children_cons, H1.
  destruct (search_child id c); [reflexivity|]. cbn [option_map]. auto.
Qed.

(** What is found has every property of the tree that goes down to the
    children. *)
Lemma search_child_closed (P : node -> bool) id :
  (forall t a cs, P (Element t a cs) = true -> forallb P cs = true) ->
  forall n r, search_child id n = Some r -> P n = true -> P r = true.
Proof.
  intros Hdown.
  induction n as [t a cs IH| |] using node_ind'; try discriminate.
  intros r. rewrite search_child_element.
  destruct (String.eqb id _).
  - intros H Hn. inversion H; subst. exact Hn.
  - intros H Hn. apply Hdown in Hn. rewrite forallb_forall in Hn.
    induction cs as [|c cs IHcs]; [discriminate|].
    rewrite search_children_cons in H. inversion IH; subst.
    destruct (search_child id c) eqn:Ec.
    + inversion H; subst. apply H2; [reflexivity|]. apply Hn. left. reflexivity.
    + apply IHcs; auto. intros x Hin. apply Hn. right. exact Hin.
Qed.

Lemma tidy_down t a cs : tidy (Element t a cs) = true -> forallb tidy cs = true.
Proof. cbn [tidy]. intros H. apply andb_true_iff in H as [_ H]. exact H. Qed.

Lemma shaped_down t a cs : shaped (Element t a cs) = true -> forallb shaped cs = true.
Proof.
  cbn [shaped]. intros H. apply andb_true_iff in H as [_ H].
  rewrite forallb_forall in *. intros x Hin. specialize (H x Hin).
  apply andb_true_iff in H as [_ H]. exact H.
Qed.

(** ** Replacing one node of a document *)

Lemma plug_lift (R : node -> node -> Prop) :
  (forall t a before after c k,
     R c k -> R (Element t a (before ++ c :: after))
                (Element t a (before ++ k :: after))) ->
  forall z c k, R c k -> R (plug z c) (plug z k).
Proof.
  intros Hstep. induction z as [|f z IH]; intros c k H; [exact H|].
  cbn [plug]. apply IH. apply Hstep. exact H.
Qed.

Lemma labels_element t a before c after :
  labels (Element t a (before ++ c :: after))
  = (Element t a [] :: flat_map labels before) ++ labels c ++ flat_map labels after.
Proof. cbn [labels]. rewrite flat_map_app. reflexivity. Qed.

(** Replacing [c] by [k] keeps "what first carries an id is no
    [copyobject]" in every document. *)
Lemma first_is_source_plug z c k :
  (forall pre post, first_is_source (pre ++ labels c ++ post) ->
                    first_is_source (pre ++ labels k ++ post)) ->
  first_is_source (labels (plug z c)) -> first_is_source (labels (plug z k)).
Proof.
  intros H Hc.
  pose proof (plug_lift
    (fun c k => forall pre post,
       first_is_source (pre ++ labels c ++ post) ->
       first_is_source (pre ++ labels k ++ post))) as L.
  specialize (L ltac:(
    intros t a before after c0 k0 H0 pre post;
    rewrite !labels_element, <- !app_assoc;
    rewrite !(app_assoc pre); apply H0) z c k H [] []).
  cbn [app] in L. rewrite !app_nil_r in L. auto.
Qed.

Lemma copy_free_labels :
  forall n l, copy_free n = true -> In l (labels n) -> is_copyobject l = false.
Proof.
  induction n as [t a cs IH| |] using node_ind'; try contradiction.
  intros l Hn [<-|Hin].
  - cbn [copy_free] in Hn. apply andb_true_iff in Hn as [Hn _].
    change (is_copyobject (Element t a [])) with (is_copyobject (Element t a cs)).
    destruct (is_copyobject _); [discriminate|reflexivity].
  - cbn [copy_free] in Hn. apply andb_true_iff in Hn as [_ Hn].
    rewrite forallb_forall in Hn. rewrite Forall_forall in IH.
    apply in_flat_map in Hin as (c & Hc & Hl). eapply IH; eauto.
Qed.

(** An empty [copyobject] replaced by a tree without [copyobject]. *)
Lemma first_is_source_replace z c k :
  is_copyobject c = true ->
  childNodes c = [] ->
  copy_free k = true ->
  first_is_source (labels (plug z c)) -> first_is_source (labels (plug z k)).
Proof.
  intros Hc Hkids Hk. apply first_is_source_plug.
  intros pre post H id l. rewrite !first_with_id_app.
  specialize (H id). rewrite !first_with_id_app in H.
  destruct (first_with_id id pre); [apply H|].
  destruct (first_with_id id (labels k)) eqn:Ek.
  - intros E. inversion E; subst.
    eapply copy_free_labels; [exact Hk|]. eapply first_with_id_in; eassumption.
  - destruct c as [t a cs| |]; try discriminate. cbn [childNodes] in Hkids.
    subst cs. cbn [labels flat_map] in H. unfold first_with_id at 1 in H.
    cbn [find] in H.
    destruct (String.eqb id (getAttribute (Element t a []) "id")).
    + specialize (H _ eq_refl). congruence.
    + apply H.
Qed.

(** Trees that differ in their texts only. *)
Lemma copy_inv_skeleton d d' :
  skeleton d = skeleton d' -> copy_inv d -> copy_inv d'.
Proof.
  unfold copy_inv. intros H.
  rewrite <- (sources_quiet_skeleton d), <- (tidy_skeleton d),
    <- (shaped_skeleton d), <- (labels_skeleton d), H.
  rewrite sources_quiet_skeleton, tidy_skeleton, shaped_skeleton, labels_skeleton.
  auto.
Qed.

(** ** Properties of a document and of its parts *)

Lemma plug_down (P : node -> bool) :
  (forall t a cs, P (Element t a cs) = true -> forallb P cs = true) ->
  forall z n, P (plug z n) = true -> P n = true.
Proof.
  intros Hdown. induction z as [|f z IH]; intros n H; [exact H|].
  cbn [plug] in H. apply IH, Hdown in H. rewrite forallb_app in H.
  apply andb_true_iff in H as [_ H]. cbn [forallb] in H.
  apply andb_true_iff in H as [H _]. exact H.
Qed.

Lemma sep_ext l : forall l', map isElement l = map isElement l' -> sep l = sep l'.
Proof.
  induction l as [|c l IH]; intros [|c' l'] H; try discriminate; [reflexivity|].
  cbn [map] in H. injection H as Hc Hl.
  destruct l as [|d l]; destruct l' as [|d' l']; try discriminate Hl;
    [reflexivity|].
  rewrite !sep_cons2, (IH (d' :: l') Hl).
  cbn [map] in Hl. injection Hl as Hd _. rewrite Hc, Hd. reflexivity.
Qed.

Lemma sep_replace before c k after :
  isElement k = isElement c ->
  sep (before ++ k :: after) = sep (before ++ c :: after).
Proof.
  intros H. apply sep_ext. rewrite !map_app. cbn [map]. rewrite H. reflexivity.
Qed.

Lemma is_copyobject_not_else n : is_copyobject n = true -> is_else n = false.
Proof.
  unfold is_copyobject, is_else. destruct (isElement n); [|discriminate].
  cbn [andb]. intros H. apply String.eqb_eq in H. rewrite H. reflexivity.
Qed.

Lemma is_else_shape n n' :
  tagName n' = tagName n -> isElement n' = isElement n -> is_else n' = is_else n.
Proof. unfold is_else. intros -> ->. reflexivity. Qed.

Lemma is_copyobject_shape n n' :
  tagName n' = tagName n -> isElement n' = isElement n ->
  is_copyobject n' = is_copyobject n.
Proof. unfold is_copyobject. intros -> ->. reflexivity. Qed.

Lemma tidy_plug_replace z c k :
  tidy k = true -> tidy (plug z c) = true -> tidy (plug z k) = true.
Proof.
  revert c k. induction z as [|f z IH]; intros c k Hk H; [exact Hk|].
  cbn [plug] in *. eapply IH; [|exact H].
  pose proof (plug_down tidy tidy_down _ _ H) as Hf.
  cbn [tidy] in *.
  apply andb_true_iff in Hf as [Hf Hkids]. rewrite forallb_app in *.
  cbn [forallb] in *. apply andb_true_iff in Hkids as [Hb Ha].
  apply andb_true_iff in Ha as [_ Ha]. rewrite Hb, Hk, Ha.
  change (is_copyobject (Element (f_tag f) (f_attrs f) (f_before f ++ k :: f_after f)))
    with (is_copyobject (Element (f_tag f) (f_attrs f) (f_before f ++ c :: f_after f))).
  change (is_else (Element (f_tag f) (f_attrs f) (f_before f ++ k :: f_after f)))
    with (is_else (Element (f_tag f) (f_attrs f) (f_before f ++ c :: f_after f))).
  change (getAttribute (Element (f_tag f) (f_attrs f) (f_before f ++ k :: f_after f)) "id")
    with (getAttribute (Element (f_tag f) (f_attrs f) (f_before f ++ c :: f_after f)) "id").
  rewrite andb_true_r.
  replace (match f_before f ++ k :: f_after f with [] => true | _ :: _ => false end)
    with (match f_before f ++ c :: f_after f with [] => true | _ :: _ => false end)
    by (destruct (f_before f); reflexivity).
  exact Hf.
Qed.

Lemma shaped_plug_replace z :
  forall c k,
    isElement k = isElement c -> is_else k = is_else c ->
    shaped k = true ->
    shaped (plug z c) = true -> shaped (plug z k) = true.
Proof.
  induction z as [|f z IH]; intros c k He Hl Hk H; [exact Hk|].
  cbn [plug] in *. eapply IH; [| | |exact H]; [reflexivity|reflexivity|].
  pose proof (plug_down shaped shaped_down _ _ H) as Hf.
  cbn [shaped] in *. rewrite (sep_replace _ c) by exact He.
  apply andb_true_iff in Hf as [Hs Hkids]. rewrite Hs. cbn [andb].
  rewrite forallb_app in *. cbn [forallb] in *.
  apply andb_true_iff in Hkids as [Hb Ha]. apply andb_true_iff in Ha as [Hc Ha].
  rewrite Hb, Ha, Hl, Hk. apply andb_true_iff in Hc as [Hc _]. rewrite Hc.
  reflexivity.
Qed.

(** In a tidy tree every [copyobject] has an id. *)
Lemma tidy_quiet_copy_free :
  forall n, tidy n = true -> has_live n = false -> copy_free n = true.
Proof.
  induction n as [t a cs IH| |] using node_ind'; [|reflexivity..].
  intros Ht Hl. apply has_live_false in Hl as [Hl Hq].
  cbn [tidy] in Ht. apply andb_true_iff in Ht as [Ht Hkids].
  apply andb_true_iff in Ht as [Hc _].
  cbn [copy_free]. unfold live in Hl.
  destruct (is_copyobject (Element t a cs)) eqn:E; cbn [negb andb orb] in *.
  - apply andb_true_iff in Hc as [Hc _]. rewrite Hc in Hl. discriminate.
  - cbn [childNodes] in Hq. unfold quiet in Hq.
    rewrite forallb_forall in *. rewrite Forall_forall in IH.
    intros c Hin. apply IH; auto.
    specialize (Hq c Hin). destruct (has_live c); [discriminate|reflexivity].
Qed.

Lemma is_copyobject_label n : is_copyobject (label_of n) = false ->
  isElement n = true -> is_copyobject n = false.
Proof. unfold is_copyobject, label_of. cbn [isElement tagName andb]. intros -> ->. reflexivity. Qed.

(** ** The first pass on a document whose copies follow their sources *)

Section ResolvingPass.

Variable icon_paths : list (string * string).

(** The property proved of every tree: wherever it sits in a document
    that meets [copy_inv], with enough fuel the pass returns the same
    element over children without [copyobject], and the document still
    meets [copy_inv]. *)
Local Abbreviation resolves n :=
  (forall z, copy_inv (plug z n) ->
     exists N n',
       (forall fuel, N <= fuel -> _objects_n_icons fuel icon_paths z n = Ok n')
       /\ copy_inv (plug z n')
       /\ tagName n' = tagName n /\ attributes n' = attributes n
       /\ isElement n' = isElement n
       /\ forallb copy_free (childNodes n') = true).

(** What is copied in the place of a [copyobject] with an id. *)
Lemma copy_source z t a done c rest r :
  copy_inv (plug z (Element t a (done ++ c :: rest))) ->
  isElement c = true ->
  String.eqb (lower (tagName c)) "copyobject" = true ->
  getAttribute c "id" <> "" ->
  search_for_id (xml (plug z (Element t a (done ++ c :: rest))))
    (getAttribute c "id") = Some r ->
  quiet (childNodes r) = true
  /\ copy_free (icons icon_paths r) = true
  /\ is_else (icons icon_paths r) = is_else c
  /\ isElement (icons icon_paths r) = isElement c
  /\ copy_inv (plug z (Element t a (done ++ icons icon_paths r :: rest))).
Proof.
  intros (Hq & Ht & Hs & Hf) He Htag Hid Es.
  destruct (search_source_quiet _ _ _ Hq Hid Es) as (Hre & Hrq & Hrk).
  rewrite search_xml in Es.
  pose proof (search_child_closed tidy _ tidy_down _ _ Es Ht) as Hrt.
  pose proof (search_child_closed shaped _ shaped_down _ _ Es Hs) as Hrs.
  destruct (search_child_sound _ _ _ Es Hq) as (_ & Hrid & _).
  assert (Hrc : is_copyobject r = false).
  { apply is_copyobject_label; [|exact Hre].
    apply (Hf (getAttribute c "id")).
    rewrite search_child_labels, Es. reflexivity. }
  assert (Hc : is_copyobject c = true)
    by (unfold is_copyobject; rewrite He, Htag; reflexivity).
  assert (Hrl : has_live r = false).
  { rewrite has_live_eq. unfold live. rewrite Hrc, Hrk. reflexivity. }
  assert (Hre' : is_else r = false).
  { destruct r as [rt ra rcs| |]; try discriminate. cbn [tidy] in Hrt.
    apply andb_true_iff in Hrt as [Hrt _]. apply andb_true_iff in Hrt as [_ Hrt].
    rewrite Hrid in Hrt.
    destruct (is_else (Element rt ra rcs)); [|reflexivity].
    destruct (String.eqb_spec (getAttribute c "id") ""); [contradiction|discriminate]. }
  pose proof (icons_skeleton icon_paths r) as Hsk.
  destruct (icons_shape icon_paths r) as (Hit & Hia & Hie).
  assert (Hkf : copy_free (icons icon_paths r) = true).
  { rewrite <- copy_free_skeleton, Hsk, copy_free_skeleton.
    apply tidy_quiet_copy_free; assumption. }
  assert (Hke : is_else (icons icon_paths r) = is_else c).
  { rewrite (is_else_shape r) by assumption.
    rewrite Hre'. symmetry. apply is_copyobject_not_else. exact Hc. }
  split; [exact Hrk|]. split; [exact Hkf|]. split; [exact Hke|].
  split; [congruence|].
  rewrite <- plug_frame in *.
  pose proof (plug_down tidy tidy_down _ _ Ht) as Hct.
  destruct (icons_quiet icon_paths r) as (Hil & Hiq & _).
  repeat split.
  - apply (plug_quiet_replace _ c); [exact Hq|congruence|].
    intros _. rewrite has_live_eq. unfold live. rewrite Hc.
    destruct (String.eqb_spec (getAttribute c "id") ""); [contradiction|reflexivity].
  - apply (tidy_plug_replace _ c); [|exact Ht].
    rewrite <- tidy_skeleton, Hsk, tidy_skeleton. exact Hrt.
  - apply (shaped_plug_replace _ c); [congruence|exact Hke| |exact Hs].
    rewrite <- shaped_skeleton, Hsk, shaped_skeleton. exact Hrs.
  - apply (first_is_source_replace _ c); [exact Hc| |exact Hkf|exact Hf].
    destruct c as [ct ca ccs| |]; try discriminate. cbn [tidy] in Hct.
    apply andb_true_iff in Hct as [Hct _]. apply andb_true_iff in Hct as [Hct _].
    rewrite Hc in Hct. cbn [negb orb] in Hct.
    apply andb_true_iff in Hct as [_ Hct].
    destruct ccs; [reflexivity|discriminate].
Qed.

Lemma oni_loop_resolves z t a :
  forall rest done,
    Forall (fun n => resolves n) rest ->
    copy_inv (plug z (Element t a (done ++ rest))) ->
    exists N rest',
      (forall k fuel, N <= k -> N <= fuel ->
         for_live k (fun ks => ks)
           (oni_body (_objects_n_icons fuel icon_paths) icon_paths z t a)
           (length done) (done ++ rest) = Ok (done ++ rest'))
      /\ copy_inv (plug z (Element t a (done ++ rest')))
      /\ forallb copy_free rest' = true
      /\ map is_else rest' = map is_else rest
      /\ map isElement rest' = map isElement rest.
Proof.
  induction rest as [|c rest IH]; intros done Hall Hinv.
  - exists 0, []. split; [|split; [exact Hinv|repeat split]].
    intros k fuel _ _. rewrite app_nil_r.
    destruct k; cbn [for_live];
      replace (nth_error done (length done)) with (@None node)
        by (symmetry; apply nth_error_None; lia);
      reflexivity.
  - inversion Hall as [|c0 rest0 Hc Hrest]; subst.
    assert (Hturn : exists N c',
      (forall fuel, N <= fuel ->
         oni_body (_objects_n_icons fuel icon_paths) icon_paths z t a
           (length done) c (done ++ c :: rest) = Ok (done ++ c' :: rest))
      /\ copy_inv (plug z (Element t a (done ++ c' :: rest)))
      /\ copy_free c' = true
      /\ is_else c' = is_else c
      /\ isElement c' = isElement c).
    { unfold oni_body. destruct (isElement c) eqn:He.
      2:{ exists 0, c. split; [reflexivity|]. split; [exact Hinv|].
          split; [|split; [reflexivity|exact He]].
          destruct c; [discriminate|reflexivity..]. }
      destruct (String.eqb (lower (tagName c)) "copyobject") eqn:Ht.
      - destruct (String.eqb_spec (getAttribute c "id") "") as [Hid|Hid].
        { exfalso. destruct Hinv as (_ & Htidy & _).
          rewrite <- plug_frame in Htidy.
          apply (plug_down tidy tidy_down) in Htidy.
          destruct c as [ct ca ccs| |]; try discriminate. cbn [tidy] in Htidy.
          apply andb_true_iff in Htidy as [Htidy _].
          apply andb_true_iff in Htidy as [Htidy _].
          unfold is_copyobject in Htidy. cbn [isElement tagName] in *.
          rewrite Ht, Hid in Htidy. discriminate. }
        destruct (search_for_id (xml (plug z (Element t a (done ++ c :: rest))))
                    (getAttribute c "id")) as [r|] eqn:Es.
        2:{ exfalso. rewrite search_xml in Es. revert Es.
            apply search_child_plug_some. rewrite search_child_element.
            destruct (String.eqb _ (getAttribute (Element t a _) "id"));
              [discriminate|].
            apply (search_children_in _ c);
              [apply in_or_app; right; left; reflexivity|].
            unfold search_child. rewrite He, String.eqb_refl. discriminate. }
        destruct (copy_source _ _ _ _ _ _ _ Hinv He Ht Hid Es)
          as (Hrk & Hkf & Hke & Hkel & Hinv').
        exists (node_size r), (icons icon_paths r).
        split; [|split; [exact Hinv'|split; [exact Hkf|split; [exact Hke|congruence]]]].
        intros fuel Hf. unfold cloneNode.
        rewrite (replace_child _ _ c) by apply nth_error_mid.
        rewrite set_nth_mid, frame_at_mid.
        rewrite objects_n_icons_quiet by assumption.
        cbn [bind]. rewrite set_nth_mid. reflexivity.
      - rewrite <- plug_frame in Hinv.
        destruct (Hc _ Hinv) as (N & c1 & Hrun & Hinv' & Ht1 & Ha1 & He1 & Hk1).
        pose proof (icon_fix_skeleton icon_paths c1) as Hsk.
        destruct (icon_fix_shape icon_paths c1) as (Hft & Hfa & Hfe).
        exists N, (icon_fix icon_paths c1). split; [|split; [|split; [|split]]].
        + intros fuel Hf. rewrite frame_at_mid, (Hrun _ Hf). cbn [bind].
          rewrite set_nth_mid. reflexivity.
        + rewrite <- plug_frame.
          apply (copy_inv_skeleton (plug (Frame t a done rest :: z) c1));
            [|exact Hinv'].
          apply skeleton_plug. symmetry. exact Hsk.
        + rewrite <- copy_free_skeleton, Hsk, copy_free_skeleton.
          destruct c1 as [t1 a1 cs1| |]; try discriminate.
          cbn [copy_free]. cbn [childNodes] in Hk1. rewrite Hk1, andb_true_r.
          unfold is_copyobject. cbn [isElement tagName] in *.
          rewrite Ht1, Ht. reflexivity.
        + apply is_else_shape; congruence.
        + congruence. }
    destruct Hturn as (N1 & c' & Hrun & Hinv' & Hcf & Hce & Hcel).
    replace (done ++ c' :: rest) with ((done ++ [c']) ++ rest) in Hinv'
      by (rewrite <- app_assoc; reflexivity).
    destruct (IH (done ++ [c']) Hrest Hinv')
      as (N2 & rest' & Hloop & Hinv'' & Hfree & Hels & Hkinds).
    exists (S (N1 + N2)), (c' :: rest').
    rewrite <- app_assoc in Hinv''. cbn [app] in Hinv''.
    split; [|split; [exact Hinv''|split; [|split]]].
    + intros k fuel Hk Hf. destruct k as [|k]; [lia|].
      cbn [for_live]. rewrite nth_error_mid, Hrun by lia. cbn [bind].
      replace (done ++ c' :: rest) with ((done ++ [c']) ++ rest)
        by (rewrite <- app_assoc; reflexivity).
      replace (S (length done)) with (length (done ++ [c']))
        by (rewrite length_app; simpl; lia).
      rewrite Hloop by lia. rewrite <- app_assoc. reflexivity.
    + cbn [forallb]. rewrite Hcf, Hfree. reflexivity.
    + cbn [map]. rewrite Hce, Hels. reflexivity.
    + cbn [map]. rewrite Hcel, Hkinds. reflexivity.
Qed.

Lemma objects_n_icons_resolves : forall n, resolves n.
Proof.
  induction n as [t a cs IH| |] using node_ind'.
  - intros z Hinv.
    destruct (oni_loop_resolves z t a cs [] IH Hinv)
      as (N & ks' & Hloop & Hinv' & Hfree & _).
    exists (S N), (Element t a ks'). cbn [app] in *.
    split; [|split; [exact Hinv'|repeat split; exact Hfree]].
    intros fuel Hf. destruct fuel as [|fuel]; [lia|].
    rewrite objects_n_icons_eq.
    cbn [app length] in Hloop. rewrite Hloop by lia. reflexivity.
  - intros z Hinv. exists 1, (Text d).
    split; [|split; [exact Hinv|repeat split]].
    intros [|fuel] Hf; [lia|reflexivity].
  - intros z Hinv. exists 1, (Comment d).
    split; [|split; [exact Hinv|repeat split]].
    intros [|fuel] Hf; [lia|reflexivity].
Qed.

End ResolvingPass.

(** ** The whole build on a document that is ready *)

Lemma regular_of_shaped :
  forall n u,
    shaped n = true -> copy_free n = true ->
    (is_else n = true -> u = true) ->
    regular u n = true.
Proof.
  induction n as [t a cs IH| |] using node_ind'; [|reflexivity..].
  intros u Hs Hf Hu. cbn [shaped copy_free regular] in *.
  apply andb_true_iff in Hs as [Hsep Hkids].
  apply andb_true_iff in Hf as [Hc Hfree].
  unfold is_copyobject, is_else in *. cbn [isElement tagName andb] in *.
  change (lower "else") with "else" in *.
  rewrite Hc, Hsep. cbn [andb].
  replace (negb (String.eqb (lower t) "else") || u) with true
    by (destruct (String.eqb (lower t) "else"); [rewrite Hu|]; reflexivity).
  cbn [andb]. rewrite Forall_forall in IH. rewrite forallb_forall in *.
  intros k Hin. specialize (Hkids k Hin).
  apply andb_true_iff in Hkids as [Hke Hks].
  apply IH; auto. intros Hel. unfold is_else in Hke.
  change (lower "else") with "else" in Hke.
  destruct (isElement k); [|discriminate]. cbn [andb] in *.
  rewrite Hel in Hke. exact Hke.
Qed.

Lemma sources_first_spec ls : sources_first ls = true -> first_is_source ls.
Proof.
  unfold sources_first, first_is_source. rewrite forallb_forall.
  intros H id l Hfind. pose proof Hfind as Hin.
  unfold first_with_id in Hin. apply find_some in Hin as [Hin Hid].
  apply String.eqb_eq in Hid. specialize (H l Hin).
  rewrite <- Hid, Hfind in H.
  destruct (is_copyobject l); [discriminate|reflexivity].
Qed.

Lemma no_else_map cs cs' :
  map is_else cs' = map is_else cs ->
  forallb (fun k => negb (is_else k)) cs = true ->
  forallb (fun k => negb (is_else k)) cs' = true.
Proof.
  revert cs; induction cs' as [|c' cs' IH]; intros [|c cs] H; try discriminate;
    [reflexivity|].
  cbn [map forallb] in *. injection H as Hc Hcs. rewrite Hc.
  intros Hall. apply andb_true_iff in Hall as [-> Hall]. cbn [andb]. eauto.
Qed.



(** ** More on the condition evaluator *)

Section StripFacts.

Variable c : ascii.
Hypothesis c_visible : isspace c = false.

Lemma contains_lstrip s : contains c (lstrip s) = contains c s.
Proof.
  induction s as [|x s IH]; [reflexivity|].
  simpl. destruct (isspace x) eqn:Hx; [|reflexivity].
  rewrite IH. destruct (Ascii.eqb_spec x c) as [->|]; [congruence|reflexivity].
Qed.

Lemma contains_rstrip_eq s : contains c (rstrip s) = contains c s.
Proof.
  induction s as [|x s IH]; [reflexivity|].
  simpl. destruct (rstrip s) as [|y r] eqn:E.
  - rewrite <- IH. simpl. rewrite orb_false_r.
    destruct (isspace x) eqn:Hx; simpl; [|apply orb_false_r].
    destruct (Ascii.eqb_spec x c) as [->|]; [congruence|reflexivity].
  - rewrite <- IH. reflexivity.
Qed.

Lemma cut_lstrip s l r :
  cut c s = Some (l, r) -> cut c (lstrip s) = Some (lstrip l, r).
Proof.
  revert l; induction s as [|x s IH]; intros l; [discriminate|].
  simpl. destruct (Ascii.eqb_spec x c) as [->|Hne].
  - intros E; inversion E; subst. rewrite c_visible. simpl.
    rewrite Ascii.eqb_refl. reflexivity.
  - destruct (cut c s) as [[l' r']|] eqn:Hc; [|discriminate].
    intros E; inversion E; subst. simpl.
    destruct (isspace x); [apply IH; reflexivity|].
    simpl. apply Ascii.eqb_neq in Hne. rewrite Hne, Hc. reflexivity.
Qed.

Lemma cut_rstrip s l r :
  cut c s = Some (l, r) -> cut c (rstrip s) = Some (l, rstrip r).
Proof.
  revert l; induction s as [|x s IH]; intros l; [discriminate|].
  cbn [cut]. destruct (Ascii.eqb_spec x c) as [->|Hne].
  - intros E; inversion E; subst. rewrite (rstrip_cons _ _ c_visible).
    cbn [cut]. rewrite Ascii.eqb_refl. reflexivity.
  - destruct (cut c s) as [[l' r']|] eqn:Hc; [|discriminate].
    intros E; inversion E; subst. specialize (IH _ eq_refl).
    cbn [rstrip]. destruct (rstrip s) as [|y t] eqn:Er; [discriminate|].
    cbn [cut] in *. apply Ascii.eqb_neq in Hne. rewrite Hne.
    destruct (Ascii.eqb y c); [inversion IH; reflexivity|].
    destruct (cut c t) as [[l1 r1]|]; [|discriminate].
    inversion IH; reflexivity.
Qed.

End StripFacts.

Lemma lstrip_idem s : lstrip (lstrip s) = lstrip s.
Proof.
  induction s as [|x s IH]; [reflexivity|].
  simpl. destruct (isspace x) eqn:Hx; [exact IH|]. simpl. rewrite Hx. reflexivity.
Qed.

Lemma strip_lstrip s : strip (lstrip s) = strip s.
Proof. unfold strip. rewrite lstrip_idem. reflexivity. Qed.

Lemma strip_idem s : strip (strip s) = strip s.
Proof. unfold strip at 2. rewrite strip_rstrip. apply strip_lstrip. Qed.

(** Stripping one side of an expression changes neither its value nor the
    names it looks up. *)
Lemma evaluate_strip_sides conditions :
  forall n s, String.length s <= n ->
    evaluate conditions (lstrip s) = evaluate conditions s
    /\ evaluate conditions (rstrip s) = evaluate conditions s.
Proof.
  induction n as [|n IH]; intros s Hn.
  { destruct s; [split; reflexivity|simpl in Hn; lia]. }
  destruct (contains "|" s) eqn:Hor.
  { destruct (cut_contains _ _ Hor) as (l & r & Hc).
    pose proof (cut_length _ _ _ _ Hc) as Hl.
    rewrite (evaluate_or conditions _ _ _ (cut_lstrip "|" eq_refl _ _ _ Hc)).
    rewrite (evaluate_or conditions _ _ _ (cut_rstrip "|" eq_refl _ _ _ Hc)).
    rewrite (evaluate_or conditions _ _ _ Hc).
    rewrite (proj1 (IH l ltac:(lia))), (proj2 (IH r ltac:(lia))).
    split; reflexivity. }
  assert (Hor1 : contains "|" (lstrip s) = false)
    by (rewrite contains_lstrip; [exact Hor|reflexivity]).
  assert (Hor2 : contains "|" (rstrip s) = false)
    by (rewrite contains_rstrip_eq; [exact Hor|reflexivity]).
  destruct (contains "&" s) eqn:Hand.
  { destruct (cut_contains _ _ Hand) as (l & r & Hc).
    pose proof (cut_length _ _ _ _ Hc) as Hl.
    rewrite (evaluate_and conditions _ _ _ Hor1 (cut_lstrip "&" eq_refl _ _ _ Hc)).
    rewrite (evaluate_and conditions _ _ _ Hor2 (cut_rstrip "&" eq_refl _ _ _ Hc)).
    rewrite (evaluate_and conditions _ _ _ Hor Hc).
    rewrite (proj1 (IH l ltac:(lia))), (proj2 (IH r ltac:(lia))).
    split; reflexivity. }
  split.
  - rewrite (evaluate_flat conditions (lstrip s)), (evaluate_flat conditions s);
      try assumption.
    + rewrite strip_lstrip. reflexivity.
    + rewrite contains_lstrip; [exact Hand|reflexivity].
  - apply evaluate_rstrip; assumption.
Qed.

(** A name that can be looked up: no operator in it, no [!] in front,
    nothing to strip. *)
Lemma strip_is_plain s :
  contains "|" s = false -> contains "&" s = false ->
  startswith "!" (strip s) = false ->
  plain (strip s) = true.
Proof.
  intros Hor Hand Hb. unfold plain.
  assert (H1 : contains "|" (strip s) = false).
  { unfold strip. rewrite contains_rstrip_eq, contains_lstrip by reflexivity.
    exact Hor. }
  assert (H2 : contains "&" (strip s) = false).
  { unfold strip. rewrite contains_rstrip_eq, contains_lstrip by reflexivity.
    exact Hand. }
  rewrite H1, H2, Hb, strip_idem, String.eqb_refl. reflexivity.
Qed.

Lemma lookups_plain_n conditions :
  forall n s, String.length s <= n ->
    forallb plain (snd (evaluate conditions s)) = true.
Proof.
  induction n as [|n IH]; intros s Hn.
  { destruct s; [reflexivity|simpl in Hn; lia]. }
  destruct (contains "|" s) eqn:Hor.
  { destruct (cut_contains _ _ Hor) as (l & r & Hc).
    pose proof (cut_length _ _ _ _ Hc) as Hl.
    rewrite (evaluate_or conditions _ _ _ Hc).
    pose proof (IH l ltac:(lia)) as Il. pose proof (IH r ltac:(lia)) as Ir.
    destruct (fst (evaluate conditions l)); cbn [snd]; [exact Il|].
    rewrite forallb_app, Il, Ir. reflexivity. }
  destruct (contains "&" s) eqn:Hand.
  { destruct (cut_contains _ _ Hand) as (l & r & Hc).
    pose proof (cut_length _ _ _ _ Hc) as Hl.
    rewrite (evaluate_and conditions _ _ _ Hor Hc).
    pose proof (IH l ltac:(lia)) as Il. pose proof (IH r ltac:(lia)) as Ir.
    destruct (fst (evaluate conditions l)); cbn [snd]; [|exact Il].
    rewrite forallb_app, Il, Ir. reflexivity. }
  rewrite (evaluate_flat conditions s Hor Hand).
  destruct (startswith "!" (strip s)) eqn:Hb.
  - destruct (startswith_bang _ Hb) as [s' Hs].
    pose proof (strip_length s) as Hlen. rewrite Hs in *. simpl in Hlen.
    cbn [slice_from snd]. apply IH. lia.
  - cbn [snd forallb]. rewrite (strip_is_plain s Hor Hand Hb). reflexivity.
Qed.

Lemma any_met_congr (f g : string -> ev bool) subs :
  (forall s, f s = g s) -> any_met f subs = any_met g subs.
Proof.
  intros H. induction subs as [|s subs IH]; [reflexivity|].
  simpl. rewrite H. unfold ev_bind.
  destruct (g s) as [[[] t]|]; [reflexivity| |reflexivity].
  rewrite IH. reflexivity.
Qed.

Lemma all_met_congr (f g : string -> ev bool) subs :
  (forall s, f s = g s) -> all_met f subs = all_met g subs.
Proof.
  intros H. induction subs as [|s subs IH]; [reflexivity|].
  simpl. rewrite H. unfold ev_bind.
  destruct (g s) as [[[] t]|]; [|reflexivity|reflexivity].
  rewrite IH. reflexivity.
Qed.

Lemma mem_app name l1 l2 : mem name (l1 ++ l2) = mem name l1 || mem name l2.
Proof. unfold mem. apply existsb_app. Qed.

Lemma mem_enable name conds :
  forall conditions,
    mem name (enable_condition conditions conds)
    = mem name conditions || mem name conds.
Proof.
  unfold enable_condition.
  induction conds as [|c conds IH]; intros conditions; simpl.
  - rewrite orb_false_r. reflexivity.
  - rewrite IH. destruct (mem c conditions) eqn:Hc.
    + destruct (String.eqb_spec name c) as [->|]; [|reflexivity].
      rewrite Hc. reflexivity.
    + rewrite mem_app. cbn [mem existsb]. rewrite orb_false_r, orb_assoc.
      reflexivity.
Qed.

Lemma mem_filter name c conditions :
  mem name (filter (fun x => negb (String.eqb c x)) conditions)
  = mem name conditions && negb (String.eqb name c).
Proof.
  induction conditions as [|x l IH]; [reflexivity|].
  simpl. destruct (String.eqb_spec c x) as [->|Hne]; simpl.
  - rewrite IH. destruct (String.eqb_spec name x); simpl.
    + rewrite andb_false_r. reflexivity.
    + reflexivity.
  - rewrite IH. destruct (String.eqb_spec name x) as [->|]; simpl; [|reflexivity].
    destruct (String.eqb_spec x c); [congruence|reflexivity].
Qed.

Lemma run_same_plain conditions conditions' :
  (forall name, plain name = true -> mem name conditions = mem name conditions') ->
  forall fuel cond,
    condition_met_run fuel conditions cond = condition_met_run fuel conditions' cond.
Proof.
  intros H. induction fuel as [|fuel IH]; intros cond; [reflexivity|].
  cbn [condition_met_run].
  rewrite (any_met_congr _ _ (split1 "|" cond) IH).
  rewrite (all_met_congr _ _ (split1 "&" cond) IH).
  rewrite IH.
  destruct (contains "|" cond) eqn:Hor; [reflexivity|].
  destruct (contains "&" cond) eqn:Hand; [reflexivity|].
  destruct (startswith "!" (strip cond)) eqn:Hb; [reflexivity|].
  unfold ev_lookup. rewrite (H _ (strip_is_plain cond Hor Hand Hb)). reflexivity.
Qed.

Lemma evaluate_plain conditions name :
  plain name = true -> evaluate conditions name = (mem name conditions, [name]).
Proof.
  unfold plain. intros H.
  apply andb_true_iff in H as [H Hs]. apply andb_true_iff in H as [H Hb].
  apply andb_true_iff in H as [Hor Hand].
  apply negb_true_iff in Hor, Hand, Hb. apply String.eqb_eq in Hs.
  rewrite (evaluate_flat conditions name Hor Hand), Hs, Hb. reflexivity.
Qed.

Lemma evaluate_and_app conditions b :
  contains "|" b = false ->
  forall n a, String.length a <= n ->
  contains "|" a = false ->
  evaluate conditions (a ++ String "&"%char b) =
    if fst (evaluate conditions a)
    then (fst (evaluate conditions b),
          snd (evaluate conditions a) ++ snd (evaluate conditions b))
    else (false, snd (evaluate conditions a)).
Proof.
  intros Hb. induction n as [|n IH]; intros a Hn Ha.
  - destruct a; [|simpl in Hn; lia].
    apply evaluate_and; [exact Hb|reflexivity].
  - assert (Hab : contains "|" (a ++ String "&"%char b) = false).
    { rewrite contains_app, Ha. simpl. exact Hb. }
    pose proof (cut_app "&"%char a b) as Hc.
    destruct (cut "&" a) as [[l r]|] eqn:Hcut.
    + pose proof (cut_length _ _ _ _ Hcut) as Hl.
      assert (Hr : contains "|" r = false).
      { clear - Ha Hcut. revert l Hcut Ha.
        induction a as [|x a IHa]; intros l Hcut Ha; [discriminate|].
        simpl in Ha, Hcut. apply orb_false_iff in Ha as [_ Ha].
        destruct (Ascii.eqb x "&"); [inversion Hcut; subst; exact Ha|].
        destruct (cut "&" a) as [[l' r']|] eqn:E; [|discriminate].
        inversion Hcut; subst. exact (IHa _ eq_refl Ha). }
      rewrite (evaluate_and conditions _ _ _ Hab Hc).
      rewrite (evaluate_and conditions _ _ _ Ha Hcut).
      rewrite (IH r) by (lia || exact Hr).
      destruct (evaluate conditions l) as [bl tl].
      destruct (evaluate conditions r) as [br tr].
      destruct (evaluate conditions b) as [bb tb].
      destruct bl, br; cbn [fst snd]; rewrite ?app_assoc; reflexivity.
    + apply evaluate_and; [exact Hab|exact Hc].
Qed.

(** X1. [condition_met] returns on every expression: its recursion is
    never deeper than the expression is long, so any fuel above the length
    of [cond] gives the verdict and the lookups that [condition_met] and
    [lookups] stand for. *)
Theorem condition_met_run_fuel conditions cond fuel :
  String.length cond < fuel ->
  condition_met_run fuel conditions cond
  = Some (condition_met conditions cond, lookups conditions cond).
Proof.
  intros Hl. rewrite (run_evaluate conditions fuel cond Hl).
  unfold condition_met, lookups. destruct (evaluate conditions cond); reflexivity.
Qed.

Lemma condition_met_run_fuel_witness :
  String.length "a|!b & c" < 9
  /\ condition_met_run 9 ["c"] "a|!b & c"
     = Some (condition_met ["c"] "a|!b & c", lookups ["c"] "a|!b & c").
Proof.
  split; [simpl; lia|].
  apply (condition_met_run_fuel ["c"] "a|!b & c" 9). simpl; lia.
Defined.

(** X2. When neither side has a [|], [a + "&" + b] evaluates to the
    conjunction of [a] and [b], and [b] is evaluated only when [a] is
    true. *)
Theorem condition_met_and conditions a b :
  contains "|" a = false ->
  contains "|" b = false ->
  condition_met conditions (a ++ "&" ++ b)
  = condition_met conditions a && condition_met conditions b
  /\ lookups conditions (a ++ "&" ++ b)
     = lookups conditions a
       ++ (if condition_met conditions a then lookups conditions b else []).
Proof.
  intros Ha Hb. unfold condition_met, lookups.
  change (a ++ "&" ++ b)%string with (a ++ String "&"%char b)%string.
  rewrite (evaluate_and_app conditions b Hb (String.length a) a (le_n _) Ha).
  destruct (evaluate conditions a) as [ba ta].
  destruct (evaluate conditions b) as [bb tb].
  destruct ba; cbn [fst snd andb]; rewrite ?app_nil_r; split; reflexivity.
Qed.

Lemma condition_met_and_witness :
  contains "|" "a&!b" = false /\ contains "|" " c" = false
  /\ condition_met ["a"; "c"] ("a&!b" ++ "&" ++ " c")
     = condition_met ["a"; "c"] "a&!b" && condition_met ["a"; "c"] " c"
  /\ lookups ["a"; "c"] ("a&!b" ++ "&" ++ " c")
     = lookups ["a"; "c"] "a&!b"
       ++ (if condition_met ["a"; "c"] "a&!b" then lookups ["a"; "c"] " c" else []).
Proof.
  split; [reflexivity|]. split; [reflexivity|].
  apply (condition_met_and ["a"; "c"] "a&!b" " c"); reflexivity.
Defined.

(** X3. White space around an expression counts for nothing, whatever
    operators it has: the stripped expression has the same verdict and
    looks up the same names. *)
Theorem condition_met_strip conditions cond :
  condition_met conditions (strip cond) = condition_met conditions cond
  /\ lookups conditions (strip cond) = lookups conditions cond.
Proof.
  unfold condition_met, lookups, strip.
  rewrite (proj2 (evaluate_strip_sides conditions _ (lstrip cond) (le_n _))).
  rewrite (proj1 (evaluate_strip_sides conditions _ cond (le_n _))).
  split; reflexivity.
Qed.

(** X4. Whatever the expression, the names that [condition_met] looks up
    in [self.conditions] are stripped, hold no [|] and no [&], and do not
    begin with [!]. *)
Theorem lookups_are_plain conditions cond :
  forallb plain (lookups conditions cond) = true.
Proof. exact (lookups_plain_n conditions _ cond (le_n _)). Qed.

(** X5. Enabling a name that has a [|] or a [&] in it, a [!] in front or
    white space around it changes the verdict of no expression. *)
Theorem enable_condition_not_plain conditions name cond :
  plain name = false ->
  condition_met (enable_condition conditions [name]) cond
  = condition_met conditions cond.
Proof.
  intros Hp. unfold condition_met, evaluate.
  rewrite (run_same_plain (enable_condition conditions [name]) conditions);
    [reflexivity|].
  intros n Hn. rewrite mem_enable. cbn [mem existsb].
  destruct (String.eqb_spec n name) as [->|]; [congruence|].
  rewrite !orb_false_r. reflexivity.
Qed.

Lemma enable_condition_not_plain_witness :
  plain "a|b" = false
  /\ condition_met (enable_condition [] ["a|b"]) "a|b" = condition_met [] "a|b".
Proof.
  split; [reflexivity|].
  apply (enable_condition_not_plain [] "a|b" "a|b"). reflexivity.
Defined.

(** X6. After [enable_condition] with the names [conds], a plain name is
    met exactly when it was a member before or is one of [conds], and
    evaluating it is a single lookup. *)
Theorem enable_condition_met conditions conds name :
  plain name = true ->
  condition_met (enable_condition conditions conds) name
  = mem name conditions || mem name conds
  /\ lookups (enable_condition conditions conds) name = [name].
Proof.
  intros Hp. unfold condition_met, lookups.
  rewrite (evaluate_plain _ name Hp). cbn [fst snd].
  rewrite mem_enable. split; reflexivity.
Qed.

Lemma enable_condition_met_witness :
  plain "win32" = true
  /\ condition_met (enable_condition ["gnome"] ["unity"; "win32"]) "win32"
     = mem "win32" ["gnome"] || mem "win32" ["unity"; "win32"]
  /\ lookups (enable_condition ["gnome"] ["unity"; "win32"]) "win32" = ["win32"].
Proof.
  split; [reflexivity|].
  apply (enable_condition_met ["gnome"] ["unity"; "win32"] "win32"). reflexivity.
Defined.

(** X7. [disable_condition] with the names [conds] raises [KeyError]
    unless every name of [conds] is enabled and none is given twice; when
    it returns, exactly the names of [conds] have left the set. *)
Theorem disable_condition_spec conds :
  forall conditions,
    (disable_condition conditions conds <> None
     <-> NoDup conds /\ Forall (fun c => mem c conditions = true) conds)
    /\ (forall conditions',
          disable_condition conditions conds = Some conditions' ->
          forall name,
            mem name conditions' = mem name conditions && negb (mem name conds)).
Proof.
  induction conds as [|c conds IH]; intros conditions.
  { split.
    - split; [intros _; split; constructor|intros _; discriminate].
    - intros ? E name. inversion E; subst. cbn. rewrite andb_true_r. reflexivity. }
  cbn [disable_condition].
  destruct (mem c conditions) eqn:Hc.
  - destruct (IH (filter (fun x => negb (String.eqb c x)) conditions))
      as [IH1 IH2].
    split.
    + rewrite IH1. split.
      * intros [Hnd Hall]. split.
        { constructor; [|exact Hnd]. intros Hin.
          rewrite Forall_forall in Hall. specialize (Hall _ Hin).
          rewrite mem_filter, String.eqb_refl, andb_false_r in Hall.
          discriminate. }
        { constructor; [exact Hc|].
          rewrite Forall_forall in *. intros x Hin. specialize (Hall _ Hin).
          rewrite mem_filter in Hall. apply andb_true_iff in Hall. tauto. }
      * intros [Hnd Hall]. inversion Hnd; subst. inversion Hall; subst.
        split; [assumption|].
        rewrite Forall_forall in *. intros x Hin.
        rewrite mem_filter. apply andb_true_iff. split; [auto|].
        apply negb_true_iff. apply String.eqb_neq. intros ->. contradiction.
    + intros conditions' E name. rewrite (IH2 _ E name), mem_filter.
      cbn [mem existsb]. rewrite negb_orb, andb_assoc. reflexivity.
  - split.
    + split; [intros H; contradiction H; reflexivity|].
      intros [_ Hall]. inversion Hall; subst. congruence.
    + discriminate.
Qed.

(** ** Icon paths *)

Lemma startswith_app p rest : startswith p (p ++ rest) = true.
Proof.
  induction p as [|x p IH]; [reflexivity|].
  simpl. rewrite Ascii.eqb_refl. exact IH.
Qed.

Lemma startswith_app_app p q rest :
  startswith (p ++ q) (p ++ rest) = startswith q rest.
Proof.
  induction p as [|x p IH]; [reflexivity|].
  simpl. rewrite Ascii.eqb_refl. exact IH.
Qed.

Lemma slice_from_app p rest : slice_from (String.length p) (p ++ rest) = rest.
Proof. induction p as [|x p IH]; [reflexivity|exact IH]. Qed.

Lemma replace_unmatched icon_paths path :
  forallb (fun q => negb (startswith (fst q) path)) icon_paths = true ->
  forall rest, replace (icon_paths ++ rest) path = replace rest path.
Proof.
  induction icon_paths as [|[p r] l IH]; intros H rest; [reflexivity|].
  simpl in *. apply andb_true_iff in H as [H1 H2].
  apply negb_true_iff in H1. rewrite H1. apply IH. exact H2.
Qed.

(** X8. [replace] tries the registered prefixes in the order of their
    registration. A path that none of them begins is returned as it is;
    the first prefix that begins the path is exchanged for its replacement
    and the rest of the path is kept, whatever was registered later. *)
Theorem replace_first_match before path :
  forallb (fun q => negb (startswith (fst q) path)) before = true ->
  replace before path = path
  /\ forall prefix replace_with after rest,
       path = (prefix ++ rest)%string ->
       replace (before ++ (prefix, replace_with) :: after) path
       = (replace_with ++ rest)%string.
Proof.
  intros H. split.
  - rewrite <- (app_nil_r before). rewrite (replace_unmatched _ _ H). reflexivity.
  - intros prefix replace_with after rest ->.
    rewrite (replace_unmatched _ _ H). cbn [replace].
    rewrite startswith_app, slice_from_app. reflexivity.
Qed.

Lemma replace_first_match_witness :
  let before := [("pixmaps/", "/usr/share/pixmaps/")] in
  forallb (fun q => negb (startswith (fst q) "icons/st.png")) before = true
  /\ replace before "icons/st.png" = "icons/st.png"
  /\ forall prefix replace_with after rest,
       "icons/st.png" = (prefix ++ rest)%string ->
       replace (before ++ (prefix, replace_with) :: after) "icons/st.png"
       = (replace_with ++ rest)%string.
Proof.
  split; [reflexivity|].
  apply (replace_first_match [("pixmaps/", "/usr/share/pixmaps/")] "icons/st.png").
  reflexivity.
Defined.

(** X9. A prefix registered with [replace_icon_path] stands for a
    directory: with or without a final slash given, a path under the
    directory [prefix] moves under the directory [replace_with], and when
    [prefix] was given without the slash, a path that merely begins with
    the same characters is left alone. *)
Theorem replace_icon_path_directory prefix replace_with rest :
  replace (replace_icon_path [] prefix replace_with)
    ((if endswith_char "/" prefix then prefix else prefix ++ "/") ++ rest)
  = ((if endswith_char "/" replace_with then replace_with
      else replace_with ++ "/") ++ rest)%string
  /\ (endswith_char "/" prefix = false ->
      startswith "/" rest = false ->
      replace (replace_icon_path [] prefix replace_with) (prefix ++ rest)
      = (prefix ++ rest)%string).
Proof.
  unfold replace_icon_path. cbn [app replace]. split.
  - rewrite startswith_app, slice_from_app. reflexivity.
  - intros Hp Hr. rewrite Hp.
    rewrite startswith_app_app, Hr. reflexivity.
Qed.

(** ** [search_for_id] *)

Lemma search_child_carries id :
  forall n r,
    search_child id n = Some r ->
    isElement r = true /\ getAttribute r "id" = id.
Proof.
  induction n as [t a cs IH| |] using node_ind'; try discriminate.
  intros r. rewrite search_child_element.
  destruct (String.eqb_spec id (getAttribute (Element t a cs) "id")) as [E|_].
  - intros H. inversion H; subst. auto.
  - intros H. induction cs as [|c cs IHcs]; [discriminate|].
    rewrite search_children_cons in H. inversion IH; subst.
    destruct (search_child id c) eqn:Ec.
    + inversion H; subst. apply H2. reflexivity.
    + apply IHcs; auto.
Qed.

Lemma search_children_labels id cs :
  first_with_id id (flat_map labels cs)
  = option_map label_of (search_children id cs).
Proof.
  induction cs as [|c cs IH]; [reflexivity|].
  cbn [flat_map]. rewrite first_with_id_app, search_children_cons.
  rewrite search_child_labels.
  destruct (search_child id c); [reflexivity|exact IH].
Qed.

Lemma search_for_id_children element id :
  search_for_id element id = search_children id (childNodes element).
Proof. destruct element; reflexivity. Qed.

(** X10. [search_for_id] looks strictly below [element], in document
    order: what it returns is the first element there whose [id]
    attribute is [id], and it returns [None] exactly when no element below
    [element] has that id. An element without [id] attribute has the empty
    id. *)
Theorem search_for_id_first element id :
  option_map label_of (search_for_id element id)
  = first_with_id id (flat_map labels (childNodes element))
  /\ (forall r, search_for_id element id = Some r ->
        isElement r = true /\ getAttribute r "id" = id)
  /\ (search_for_id element id = None <->
      forall l, In l (flat_map labels (childNodes element)) ->
                getAttribute l "id" <> id)
  /\ (forall t a cs, lookup_attr "id" a = None ->
        search_for_id (xml (Element t a cs)) "" = Some (Element t a cs)).
Proof.
  rewrite search_for_id_children.
  pose proof (search_children_labels id (childNodes element)) as Hl.
  split; [symmetry; exact Hl|]. split; [|split].
  - intros r. generalize (childNodes element) as cs.
    induction cs as [|c cs IH]; [discriminate|].
    rewrite search_children_cons.
    destruct (search_child id c) eqn:Ec.
    + intros H; inversion H; subst. exact (search_child_carries _ _ _ Ec).
    + exact IH.
  - unfold first_with_id in Hl. split.
    + intros H l Hin E. rewrite H in Hl. cbn [option_map] in Hl.
      apply (find_none _ _ Hl) in Hin. rewrite E, String.eqb_refl in Hin.
      discriminate.
    + intros H. destruct (search_children id (childNodes element)) as [r|];
        [|reflexivity].
      cbn [option_map] in Hl. apply find_some in Hl as [Hin E].
      apply String.eqb_eq in E. symmetry in E. contradiction (H _ Hin E).
  - intros t a cs Ha. rewrite search_xml, search_child_element.
    unfold getAttribute. cbn [attributes]. rewrite Ha. reflexivity.
Qed.

(** ** Children that are kept apart *)

Lemma sep_cons_other c l : isElement c = false -> sep (c :: l) = sep l.
Proof.
  intros H. destruct l as [|d l]; [reflexivity|].
  cbn [sep]. rewrite H. reflexivity.
Qed.

Lemma merge_walk_sep cs : sep cs = true -> fst (merge_walk cs) = elements cs.
Proof.
  induction cs as [|c Hc|c d rest Hc IH|c rest Hc IH] using merge_walk_ind;
    intros H.
  - reflexivity.
  - rewrite (merge_walk_single _ Hc). unfold elements. simpl. rewrite Hc.
    reflexivity.
  - destruct (sep_cons_element _ _ _ H Hc) as [Hd Hrest].
    rewrite (merge_walk_cons2 _ _ _ Hc). unfold elements in *. cbn [fst filter].
    rewrite Hc, Hd, (IH Hrest). reflexivity.
  - rewrite (merge_walk_skip _ _ Hc). unfold elements in *. cbn [fst filter].
    rewrite Hc. apply IH. exact (sep_tail _ _ H).
Qed.

Lemma sep_filter (p : node -> bool) cs :
  (forall c, isElement c = false -> p c = true) ->
  sep cs = true -> sep (filter p cs) = true.
Proof.
  intros Hp. induction cs as [|c cs IH]; [reflexivity|].
  intros H. pose proof (IH (sep_tail _ _ H)) as IH'.
  cbn [filter]. destruct (p c) eqn:Hc; [|exact IH'].
  destruct (isElement c) eqn:He; [|rewrite (sep_cons_other _ _ He); exact IH'].
  destruct cs as [|d cs]; [reflexivity|].
  destruct (sep_cons_element _ _ _ H He) as [Hd _].
  cbn [filter] in *. rewrite (Hp _ Hd) in *.
  rewrite sep_cons2, He, Hd. exact IH'.
Qed.

Lemma flat_map_walk_sep els :
  forallb (fun el => sep (childNodes el)) els = true ->
  flat_map (fun el => fst (merge_walk (childNodes el))) els
  = flat_map (fun el => elements (childNodes el)) els.
Proof.
  induction els as [|el els IH]; [reflexivity|].
  cbn [forallb flat_map]. intros H. apply andb_true_iff in H as [H1 H2].
  rewrite (merge_walk_sep _ H1), (IH H2). reflexivity.
Qed.

(** X11. When no two element children of the wrapper are next to each
    other, [merge_with_parent] moves all of them, in their order, to just
    before [insert_before], and removes the wrapper with the texts and
    comments that are left in it; the other children of the parent stay as
    they are. This holds for both ways it is called: on [insert_before]
    itself, and on a child of it. *)
Theorem merge_with_parent_moves_elements fuel t a L after et ea c1 c2 cs :
  sep cs = true ->
  length cs <= fuel ->
  merge_with_parent fuel None (L ++ Element t a cs :: after, length L)
  = Ok (L ++ elements cs ++ after, length (L ++ elements cs))
  /\ merge_with_parent fuel (Some (length c1))
       (L ++ Element t a (c1 ++ Element et ea cs :: c2) :: after, length L)
     = Ok ((L ++ elements cs) ++ Element t a (c1 ++ c2) :: after,
           length (L ++ elements cs)).
Proof.
  intros Hsep Hfuel. split.
  - rewrite (merge_with_parent_self t a after fuel L cs Hfuel).
    rewrite (merge_walk_sep _ Hsep). reflexivity.
  - rewrite (merge_with_parent_child t a after et ea c1 c2 fuel L cs Hfuel).
    rewrite (merge_walk_sep _ Hsep). reflexivity.
Qed.

Lemma merge_with_parent_moves_elements_witness :
  let cs := [Text " "; Element "x" [] []; Comment "c"; Element "y" [] [];
             Text " "] in
  sep cs = true /\ length cs <= 5
  /\ merge_with_parent 5 None
       ([Element "p" [] []] ++ Element "if" [] cs :: [Text "."],
        length [Element "p" [] []])
     = Ok ([Element "p" [] []] ++ elements cs ++ [Text "."],
           length ([Element "p" [] []] ++ elements cs))
  /\ merge_with_parent 5 (Some (length [Text " "]))
       ([Element "p" [] []]
          ++ Element "if" [] ([Text " "] ++ Element "else" [] cs :: [])
          :: [Text "."],
        length [Element "p" [] []])
     = Ok (([Element "p" [] []] ++ elements cs)
             ++ Element "if" [] ([Text " "] ++ []) :: [Text "."],
           length ([Element "p" [] []] ++ elements cs)).
Proof.
  split; [reflexivity|]. split; [simpl; lia|].
  apply (merge_with_parent_moves_elements 5 "if" [] [Element "p" [] []]
           [Text "."] "else" [] [Text " "] []);
    [reflexivity|simpl; lia].
Defined.

(** X12. [_solve_if_element] on an element [e] whose element children
    are never next to each other, and that of its [else] children
    likewise: when the condition is met [e] gives way to its element
    children other than the [else] ones, when it is not, to the element
    children of its [else] children; in both cases in their order, with
    the siblings of [e] left as they are. *)
Theorem solve_if_element_separated fuel conditions L e after :
  isElement e = true ->
  sep (childNodes e) = true ->
  forallb (fun el => sep (childNodes el)) (filter is_else (childNodes e)) = true ->
  list_size (childNodes e) <= fuel ->
  _solve_if_element fuel conditions (L ++ e :: after) (length L)
  = Ok (L ++ (if condition_met conditions
                   (strip (lower (getAttribute e "condition")))
              then elements (filter (fun c => negb (is_else c)) (childNodes e))
              else flat_map (fun el => elements (childNodes el))
                     (filter is_else (childNodes e)))
          ++ after).
Proof.
  intros He Hsep Helse Hfuel.
  rewrite (solve_if_element_exact fuel conditions L e after He Hfuel).
  unfold promoted.
  destruct (condition_met conditions _).
  - rewrite merge_walk_sep; [reflexivity|].
    apply sep_filter; [|exact Hsep].
    intros c Hc. unfold is_else. rewrite Hc. reflexivity.
  - rewrite (flat_map_walk_sep _ Helse). reflexivity.
Qed.

Lemma solve_if_element_separated_witness :
  let e := Element "IF" [("condition", " Gnome | unity ")]
             [Text " "; Element "x" [] []; Text " ";
              Element "Else" [] [Text " "; Element "y" [] []; Text " "];
              Text " "; Element "z" [] []] in
  isElement e = true
  /\ sep (childNodes e) = true
  /\ forallb (fun el => sep (childNodes el)) (filter is_else (childNodes e)) = true
  /\ list_size (childNodes e) <= 9
  /\ _solve_if_element 9 ["unity"] ([Text "a"] ++ e :: [Text "b"])
       (length [Text "a"])
     = Ok ([Text "a"]
             ++ (if condition_met ["unity"]
                      (strip (lower (getAttribute e "condition")))
                 then elements (filter (fun c => negb (is_else c)) (childNodes e))
                 else flat_map (fun el => elements (childNodes el))
                        (filter is_else (childNodes e)))
             ++ [Text "b"]).
Proof.
  split; [reflexivity|]. split; [reflexivity|]. split; [reflexivity|].
  split; [simpl; lia|].
  apply (solve_if_element_separated 9 ["unity"] [Text "a"]
           (Element "IF" [("condition", " Gnome | unity ")]
              [Text " "; Element "x" [] []; Text " ";
               Element "Else" [] [Text " "; Element "y" [] []; Text " "];
               Text " "; Element "z" [] []]) [Text "b"]);
    [reflexivity|reflexivity|reflexivity|simpl; lia].
Defined.

(** ** The second pass *)

Lemma lookup_removeAttribute name k a :
  k <> name ->
  lookup_attr k (filter (fun kv => negb (String.eqb (fst kv) name)) a)
  = lookup_attr k a.
Proof.
  intros Hk. induction a as [|[k' v] a IH]; [reflexivity|].
  cbn [filter fst lookup_attr].
  destruct (String.eqb_spec k' name) as [->|Hne]; cbn [negb lookup_attr].
  - destruct (String.eqb_spec name k); [congruence|exact IH].
  - rewrite IH. reflexivity.
Qed.

(** X13. The turn of the loop of [_find_conditions] at an element that is
    no [if] element and has a non-empty [if] attribute: the element, as
    the recursive call leaves it, is taken out of its parent when the
    attribute, evaluated as it is written, is not met, and otherwise stays
    with the [if] attribute removed and every other attribute kept. The
    siblings stay as they are. *)
Theorem if_attribute_turn fuel conditions L x R :
  isElement x = true ->
  lower (tagName x) <> "if" ->
  getAttribute x "if" <> "" ->
  node_size x <= fuel ->
  exists x1,
    _find_conditions fuel conditions x = Ok x1
    /\ tagName x1 = tagName x /\ attributes x1 = attributes x
    /\ fc_body (_find_conditions fuel conditions) fuel conditions (length L) x
         (L ++ x :: R)
       = Ok (if condition_met conditions (getAttribute x "if")
             then L ++ removeAttribute x1 "if" :: R
             else L ++ R)
    /\ getAttribute (removeAttribute x1 "if") "if" = ""
    /\ forall k, k <> "if" ->
         getAttribute (removeAttribute x1 "if") k = getAttribute x k.
Proof.
  intros He Htag Hattr Hfuel.
  destruct (find_conditions_total conditions fuel x Hfuel) as (x1 & E & Hsize).
  destruct (find_conditions_shape _ _ _ _ E) as (Ht & Ha & Hel).
  exists x1. split; [exact E|]. split; [exact Ht|]. split; [exact Ha|].
  assert (Hg : getAttribute x1 "if" = getAttribute x "if")
    by (unfold getAttribute; rewrite Ha; reflexivity).
  split; [|split].
  - rewrite (fc_body_exact _ fuel conditions L x x1 R He E).
    + unfold fc_step. rewrite Ht, Hg.
      destruct (String.eqb_spec (lower (tagName x)) "if"); [contradiction|].
      destruct (String.eqb_spec (getAttribute x "if") ""); [contradiction|].
      cbn [negb]. destruct (condition_met conditions _); reflexivity.
    + rewrite Hel. exact He.
    + pose proof (children_size x1). lia.
  - apply getAttribute_removeAttribute.
  - intros k Hk. rewrite He in Hel.
    destruct x1 as [t1 a1 cs1| |]; try discriminate.
    unfold getAttribute. cbn [removeAttribute attributes] in *.
    rewrite (lookup_removeAttribute "if" k a1 Hk), Ha. reflexivity.
Qed.

Lemma if_attribute_turn_witness :
  let x := Element "object" [("id", "tray"); ("if", "!unity")]
             [Element "if" [("condition", "unity")] [Element "y" [] []]] in
  isElement x = true
  /\ lower (tagName x) <> "if"
  /\ getAttribute x "if" <> ""
  /\ node_size x <= 3
  /\ exists x1,
       _find_conditions 3 ["gnome"] x = Ok x1
       /\ tagName x1 = tagName x /\ attributes x1 = attributes x
       /\ fc_body (_find_conditions 3 ["gnome"]) 3 ["gnome"] (length [Text " "]) x
            ([Text " "] ++ x :: [Text "."])
          = Ok (if condition_met ["gnome"] (getAttribute x "if")
                then [Text " "] ++ removeAttribute x1 "if" :: [Text "."]
                else [Text " "] ++ [Text "."])
       /\ getAttribute (removeAttribute x1 "if") "if" = ""
       /\ forall k, k <> "if" ->
            getAttribute (removeAttribute x1 "if") k = getAttribute x k.
Proof.
  split; [reflexivity|]. split; [discriminate|]. split; [discriminate|].
  split; [simpl; lia|].
  apply (if_attribute_turn 3 ["gnome"] [Text " "]
           (Element "object" [("id", "tray"); ("if", "!unity")]
              [Element "if" [("condition", "unity")] [Element "y" [] []]])
           [Text "."]);
    [reflexivity|discriminate|discriminate|simpl; lia].
Defined.

(** X14. [_find_conditions] returns on every tree, with no more fuel than
    the tree has nodes; what it returns has no more nodes than the tree,
    and the node it was called on keeps its kind, tag and attributes. *)
Theorem find_conditions_returns conditions fuel n :
  node_size n <= fuel ->
  exists n',
    _find_conditions fuel conditions n = Ok n'
    /\ node_size n' <= node_size n
    /\ isElement n' = isElement n
    /\ tagName n' = tagName n /\ attributes n' = attributes n.
Proof.
  intros Hfuel.
  destruct (find_conditions_total conditions fuel n Hfuel) as (n' & E & Hsize).
  destruct (find_conditions_shape _ _ _ _ E) as (Ht & Ha & He).
  exists n'. auto.
Qed.

Lemma find_conditions_returns_witness :
  let n := Element "r" [("id", "top")]
             [Element "if" [("condition", "a")]
                [Element "x" [] []; Element "else" [] [Element "y" [] []]];
              Element "z" [("if", "a")] []] in
  node_size n <= 6
  /\ exists n',
       _find_conditions 6 [] n = Ok n'
       /\ node_size n' <= node_size n
       /\ isElement n' = isElement n
       /\ tagName n' = tagName n /\ attributes n' = attributes n.
Proof.
  split; [simpl; lia|].
  apply (find_conditions_returns []). simpl; lia.
Defined.

Lemma find_conditions_static_ok conditions fuel n :
  static (childNodes n) = true ->
  node_size n <= fuel ->
  _find_conditions fuel conditions n = Ok n.
Proof.
  intros Hs Hfuel.
  destruct (find_conditions_total conditions fuel n Hfuel) as (n' & E & _).
  rewrite E. f_equal. exact (find_conditions_static _ _ _ _ Hs E).
Qed.

(** X15. On a tree that holds no [if], [else] or [copyobject] element and
    no non-empty [if] attribute below its root, [_find_conditions] returns
    the tree as it is. *)
Theorem find_conditions_nothing_to_do conditions fuel n :
  static (childNodes n) = true ->
  node_size n <= fuel ->
  _find_conditions fuel conditions n = Ok n.
Proof.
  exact (find_conditions_static_ok conditions fuel n).
Qed.

Lemma find_conditions_nothing_to_do_witness :
  let n := Element "interface" []
             [Text " "; Element "object" [("id", "w"); ("if", "")]
                          [Element "property" [("name", "icon")] [Text "i.png"]];
              Comment "if"] in
  static (childNodes n) = true /\ node_size n <= 6
  /\ _find_conditions 6 ["a"] n = Ok n.
Proof.
  split; [reflexivity|]. split; [simpl; lia|].
  apply (find_conditions_nothing_to_do ["a"]); [reflexivity|simpl; lia].
Defined.

(** X16. Running [_find_conditions] a second time changes nothing, when
    the children of the root are kept apart, hold no [copyobject], and
    have [else] elements under [if] elements only. *)
Theorem find_conditions_idempotent conditions fuel n :
  sep (childNodes n) = true ->
  forallb (regular false) (childNodes n) = true ->
  node_size n <= fuel ->
  exists n',
    _find_conditions fuel conditions n = Ok n'
    /\ _find_conditions fuel conditions n' = Ok n'.
Proof.
  intros Hsep Hreg Hfuel.
  destruct (find_conditions_total conditions fuel n Hfuel) as (n' & E & Hsize).
  exists n'. split; [exact E|].
  assert (Hs : static (childNodes n') = true).
  { destruct fuel as [|fuel]; [discriminate|].
    pose proof E as E'. rewrite find_conditions_eq in E'.
    destruct n as [t a ks| |]; try (inversion E'; reflexivity).
    apply bind_ok in E' as (ks' & E1 & E2). inversion E2; subst.
    cbn [childNodes] in *. rewrite <- good_false_static.
    exact (fc_loop_good conditions fuel (find_conditions_good conditions fuel)
             false ks ks' Hreg Hsep E1). }
  apply find_conditions_static_ok; [exact Hs|lia].
Qed.

Lemma find_conditions_idempotent_witness :
  let n := Element "r" []
             [Text " ";
              Element "if" [("condition", "a")]
                [Text " "; Element "x" [("if", "b")] []; Text " ";
                 Element "else" [] [Text " "; Element "y" [] []]];
              Text " "; Element "z" [("if", "!a")] []] in
  sep (childNodes n) = true
  /\ forallb (regular false) (childNodes n) = true
  /\ node_size n <= 12
  /\ exists n',
       _find_conditions 12 ["b"] n = Ok n'
       /\ _find_conditions 12 ["b"] n' = Ok n'.
Proof.
  split; [reflexivity|]. split; [reflexivity|]. split; [simpl; lia|].
  apply (find_conditions_idempotent ["b"]); [reflexivity|reflexivity|simpl; lia].
Defined.

(** ** The first pass where nothing is copied *)

Lemma check_icon_path_nil n : _check_icon_path [] n = n.
Proof.
  destruct n as [t a cs| |]; try reflexivity.
  rewrite check_icon_path_element. f_equal.
  induction cs as [|c cs IH]; [reflexivity|].
  cbn [map]. rewrite IH. destruct c; reflexivity.
Qed.

Lemma icon_fix_nil n : icon_fix [] n = n.
Proof.
  unfold icon_fix. rewrite check_icon_path_nil.
  repeat match goal with |- context [if ?b then _ else _] => destruct b end;
    reflexivity.
Qed.

Lemma icons_nil : forall n, icons [] n = n.
Proof.
  induction n as [t a cs IH| |] using node_ind'; [|reflexivity..].
  rewrite icons_element. f_equal.
  induction cs as [|c cs IHcs]; [reflexivity|].
  inversion IH; subst. cbn [map]. rewrite (IHcs H2). f_equal.
  destruct (isElement c); [|reflexivity].
  destruct (String.eqb _ "copyobject"); [reflexivity|].
  rewrite H1. apply icon_fix_nil.
Qed.

Lemma templating_attrs t a cs cs' :
  templating (Element t a cs) = templating (Element t a cs').
Proof. reflexivity. Qed.

Lemma static_map f cs :
  (forall c, In c cs -> has_templating (f c) = has_templating c) ->
  static (map f cs) = static cs.
Proof.
  intros H. unfold static. apply forallb_map_eq.
  intros c Hin. rewrite (H c Hin). reflexivity.
Qed.

Lemma has_templating_skeleton :
  forall n, has_templating (skeleton n) = has_templating n.
Proof.
  induction n as [t a cs IH| |] using node_ind'; [|reflexivity..].
  cbn [skeleton]. rewrite !has_templating_eq. cbn [childNodes].
  rewrite (templating_attrs _ _ _ cs). rewrite Forall_forall in IH.
  rewrite static_map by exact IH. reflexivity.
Qed.

Lemma static_same_skeleton n n' :
  skeleton n = skeleton n' ->
  static (childNodes n) = static (childNodes n').
Proof.
  intros H.
  rewrite <- (static_map skeleton (childNodes n))
    by (intros; apply has_templating_skeleton).
  rewrite <- (static_map skeleton (childNodes n'))
    by (intros; apply has_templating_skeleton).
  destruct n, n'; try discriminate; try reflexivity.
  cbn [skeleton] in H. inversion H. cbn [childNodes]. congruence.
Qed.

Lemma clean_is_quiet :
  forall n, has_templating n = false -> has_live n = false.
Proof.
  induction n as [t a cs IH| |] using node_ind'; intros H; [|reflexivity..].
  apply has_templating_false in H as [Ht Hs]. cbn [childNodes] in Hs.
  rewrite has_live_eq. cbn [childNodes].
  assert (Hl : live (Element t a cs) = false).
  { unfold live, is_copyobject. unfold templating in Ht.
    cbn [isElement tagName andb] in *.
    destruct (String.eqb (lower t) "copyobject"); [|reflexivity].
    rewrite !orb_true_r in Ht. discriminate. }
  rewrite Hl. cbn [orb]. apply negb_false_iff.
  unfold quiet. apply forallb_forall. intros c Hin.
  rewrite Forall_forall in IH.
  rewrite (IH c Hin (static_In _ _ Hs Hin)). reflexivity.
Qed.

Lemma static_quiet cs : static cs = true -> quiet cs = true.
Proof.
  unfold static, quiet. rewrite !forallb_forall. intros H c Hin.
  specialize (H c Hin). apply negb_true_iff in H.
  rewrite (clean_is_quiet _ H). reflexivity.
Qed.

(** X17. Where no [copyobject] with an id is below the node,
    [_objects_n_icons] returns, wherever the node sits in the document,
    and changes nothing but the data of text nodes; with no icon path
    registered it returns the node as it is. *)
Theorem objects_n_icons_keeps_structure icon_paths fuel z n :
  quiet (childNodes n) = true ->
  node_size n <= fuel ->
  (exists out, _objects_n_icons fuel icon_paths z n = Ok out
               /\ skeleton out = skeleton n)
  /\ _objects_n_icons fuel [] z n = Ok n.
Proof.
  intros Hq Hfuel. split.
  - exists (icons icon_paths n).
    split; [apply objects_n_icons_quiet; assumption|apply icons_skeleton].
  - rewrite (objects_n_icons_quiet [] fuel z n Hq Hfuel), icons_nil. reflexivity.
Qed.

Lemma objects_n_icons_keeps_structure_witness :
  let n := Element "r" []
             [Element "if" [("condition", "a")]
                [Element "Property" [("name", "pixbuf")] [Text "icons/a.png"]];
              Element "copyobject" [] []] in
  quiet (childNodes n) = true
  /\ node_size n <= 5
  /\ (exists out, _objects_n_icons 5 [("icons/", "/usr/share/")] [] n = Ok out
                  /\ skeleton out = skeleton n)
  /\ _objects_n_icons 5 [] [] n = Ok n.
Proof.
  split; [reflexivity|]. split; [simpl; lia|].
  apply (objects_n_icons_keeps_structure [("icons/", "/usr/share/")] 5 []);
    [reflexivity|simpl; lia].
Defined.

(** X18. A document without templating below its document element goes
    through [_build] with its structure intact: both passes return, only
    the data of text nodes may differ, and with no icon path registered the
    document comes out as it went in, whatever conditions are enabled. *)
Theorem build_round_trip conditions icon_paths fuel root :
  static (childNodes root) = true ->
  node_size root <= fuel ->
  (exists out, _build fuel conditions icon_paths root = Ok out
               /\ skeleton out = skeleton root)
  /\ _build fuel conditions [] root = Ok root.
Proof.
  intros Hs Hfuel. pose proof (static_quiet _ Hs) as Hq.
  assert (Hpass : forall ips,
            _build fuel conditions ips root = Ok (icons ips root)).
  { intros ips. unfold _build.
    rewrite (objects_n_icons_quiet ips fuel [] root Hq Hfuel). cbn [bind].
    destruct (icons_quiet ips root) as (_ & _ & Hsize).
    apply find_conditions_static_ok; [|lia].
    rewrite (static_same_skeleton _ root (icons_skeleton ips root)). exact Hs. }
  split.
  - exists (icons icon_paths root). split; [apply Hpass|apply icons_skeleton].
  - rewrite Hpass, icons_nil. reflexivity.
Qed.

Lemma build_round_trip_witness :
  let root := Element "interface" []
                [Text " ";
                 Element "object" [("class", "GtkImage"); ("id", "img")]
                   [Element "property" [("name", "pixbuf")] [Text "icons/a.png"]];
                 Text " "] in
  static (childNodes root) = true
  /\ node_size root <= 6
  /\ (exists out, _build 6 ["a"] [("icons/", "/usr/share/")] root = Ok out
                  /\ skeleton out = skeleton root)
  /\ _build 6 ["a"] [] root = Ok root.
Proof.
  split; [reflexivity|]. split; [simpl; lia|].
  apply (build_round_trip ["a"] [("icons/", "/usr/share/")]);
    [reflexivity|simpl; lia].
Defined.

(** ** Single turns of the first pass *)

Lemma getAttribute_attrs n n' name :
  attributes n' = attributes n -> getAttribute n' name = getAttribute n name.
Proof. unfold getAttribute. intros ->. reflexivity. Qed.

(** X19. The turn of the loop of [_objects_n_icons] at a [copyobject]
    with an id, when the element that [search_for_id] finds for it has no
    [copyobject] with an id below it: the [copyobject] gives its place to
    a copy of that element, the siblings stay as they are, and the copy
    differs from its source in the data of text nodes at most, and not at
    all when no icon path is registered. It carries the id of its source,
    which the document then holds twice. *)
Theorem copyobject_turn fuel icon_paths z t a ks i c r :
  nth_error ks i = Some c ->
  isElement c = true ->
  lower (tagName c) = "copyobject" ->
  getAttribute c "id" <> "" ->
  search_for_id (xml (plug z (Element t a ks))) (getAttribute c "id") = Some r ->
  quiet (childNodes r) = true ->
  node_size r <= fuel ->
  exists cpy,
    oni_body (_objects_n_icons fuel icon_paths) icon_paths z t a i c ks
    = Ok (set_nth i cpy ks)
    /\ skeleton cpy = skeleton r
    /\ getAttribute cpy "id" = getAttribute c "id"
    /\ (icon_paths = [] -> cpy = r).
Proof.
  intros Hi He Htag Hid Hs Hq Hfuel.
  exists (icons icon_paths r). split; [|split; [|split]].
  - unfold oni_body. rewrite He, Htag, Hs. cbn [String.eqb Ascii.eqb Bool.eqb].
    destruct (String.eqb_spec (getAttribute c "id") ""); [contradiction|].
    unfold cloneNode. rewrite (replace_child ks i c r Hi).
    rewrite (objects_n_icons_quiet icon_paths fuel _ r Hq Hfuel). cbn [bind].
    rewrite set_nth_set_nth. reflexivity.
  - apply icons_skeleton.
  - rewrite search_xml in Hs.
    destruct (search_child_carries _ _ _ Hs) as [_ Hr].
    destruct (icons_shape icon_paths r) as (_ & Ha & _).
    rewrite (getAttribute_attrs _ _ "id" Ha). exact Hr.
  - intros ->. apply icons_nil.
Qed.

Lemma copyobject_turn_witness :
  let c := Element "CopyObject" [("id", "src")] [] in
  let r := Element "object" [("id", "src")]
             [Element "property" [("name", "icon")] [Text "icons/a.png"]] in
  let ks := [Text " "; c; Text " "] in
  let z := [Frame "interface" [] [r; Text " "] []] in
  nth_error ks 1 = Some c
  /\ isElement c = true
  /\ lower (tagName c) = "copyobject"
  /\ getAttribute c "id" <> ""
  /\ search_for_id (xml (plug z (Element "box" [] ks))) (getAttribute c "id")
     = Some r
  /\ quiet (childNodes r) = true
  /\ node_size r <= 3
  /\ exists cpy,
       oni_body (_objects_n_icons 3 [("icons/", "/usr/share/")])
         [("icons/", "/usr/share/")] z "box" [] 1 c ks
       = Ok (set_nth 1 cpy ks)
       /\ skeleton cpy = skeleton r
       /\ getAttribute cpy "id" = getAttribute c "id"
       /\ ([("icons/", "/usr/share/")] = [] -> cpy = r).
Proof.
  split; [reflexivity|]. split; [reflexivity|]. split; [reflexivity|].
  split; [discriminate|]. split; [reflexivity|]. split; [reflexivity|].
  split; [simpl; lia|].
  apply (copyobject_turn 3 [("icons/", "/usr/share/")]
           [Frame "interface" [] [Element "object" [("id", "src")]
              [Element "property" [("name", "icon")] [Text "icons/a.png"]];
              Text " "] []]
           "box" []
           [Text " "; Element "CopyObject" [("id", "src")] []; Text " "] 1
           (Element "CopyObject" [("id", "src")] [])
           (Element "object" [("id", "src")]
              [Element "property" [("name", "icon")] [Text "icons/a.png"]]));
    [reflexivity|reflexivity|reflexivity|discriminate|reflexivity|reflexivity
    |simpl; lia].
Defined.

Lemma icons_leaf icon_paths t a cs :
  forallb (fun k => negb (isElement k)) cs = true ->
  icons icon_paths (Element t a cs) = Element t a cs.
Proof.
  intros H. rewrite icons_element. f_equal.
  induction cs as [|c cs IH]; [reflexivity|].
  cbn [forallb] in H. apply andb_true_iff in H as [H1 H2].
  apply negb_true_iff in H1. cbn [map]. rewrite H1, (IH H2). reflexivity.
Qed.

Lemma leaf_quiet cs :
  forallb (fun k => negb (isElement k)) cs = true -> quiet cs = true.
Proof.
  unfold quiet. rewrite !forallb_forall. intros H c Hin.
  specialize (H c Hin). destruct c; [discriminate|reflexivity..].
Qed.

(** X20. The turn of the loop of [_objects_n_icons] at a [property]
    element, in whatever case the tag is written, that has no element
    children: when its [name] attribute is exactly [pixbuf] or [icon],
    the data of each of its text children is put through [replace], and
    its other children, its attributes and its siblings stay as they are;
    with any other [name] nothing changes at all. *)
Theorem icon_property_turn fuel icon_paths z t a ks i tx ax cx :
  nth_error ks i = Some (Element tx ax cx) ->
  lower tx = "property" ->
  forallb (fun k => negb (isElement k)) cx = true ->
  length cx < fuel ->
  oni_body (_objects_n_icons fuel icon_paths) icon_paths z t a i
    (Element tx ax cx) ks
  = Ok (if String.eqb (getAttribute (Element tx ax cx) "name") "pixbuf"
           || String.eqb (getAttribute (Element tx ax cx) "name") "icon"
        then set_nth i
               (Element tx ax
                  (map (fun n => match n with
                                 | Text data => Text (replace icon_paths data)
                                 | _ => n
                                 end) cx)) ks
        else ks).
Proof.
  intros Hi Htag Hleaf Hfuel.
  assert (Hsize : node_size (Element tx ax cx) <= fuel).
  { rewrite node_size_element.
    assert (Hl : list_size cx = length cx).
    { clear - Hleaf. induction cx as [|c cx IH]; [reflexivity|].
      cbn [forallb] in Hleaf. apply andb_true_iff in Hleaf as [H1 H2].
      rewrite list_size_cons, (IH H2). destruct c; [discriminate|reflexivity..]. }
    lia. }
  unfold oni_body. cbn [isElement tagName]. rewrite Htag.
  cbn [String.eqb Ascii.eqb Bool.eqb].
  rewrite (objects_n_icons_quiet icon_paths fuel _ (Element tx ax cx)
             (leaf_quiet _ Hleaf) Hsize).
  rewrite (icons_leaf _ _ _ _ Hleaf). cbn [bind tagName]. rewrite Htag.
  cbn [String.eqb Ascii.eqb Bool.eqb].
  rewrite check_icon_path_element.
  destruct (String.eqb _ "pixbuf"); [reflexivity|].
  destruct (String.eqb _ "icon"); [reflexivity|].
  cbn [orb]. rewrite (set_nth_same _ _ _ Hi). reflexivity.
Qed.

Lemma icon_property_turn_witness :
  let ks := [Element "Property" [("name", "pixbuf")]
               [Text "icons/a.png"; Comment "icons/b.png"]] in
  nth_error ks 0
  = Some (Element "Property" [("name", "pixbuf")]
            [Text "icons/a.png"; Comment "icons/b.png"])
  /\ lower "Property" = "property"
  /\ forallb (fun k => negb (isElement k))
       [Text "icons/a.png"; Comment "icons/b.png"] = true
  /\ length [Text "icons/a.png"; Comment "icons/b.png"] < 3
  /\ oni_body (_objects_n_icons 3 [("icons/", "/usr/share/")])
       [("icons/", "/usr/share/")] [] "object" [] 0
       (Element "Property" [("name", "pixbuf")]
          [Text "icons/a.png"; Comment "icons/b.png"]) ks
     = Ok (if String.eqb
                (getAttribute
                   (Element "Property" [("name", "pixbuf")]
                      [Text "icons/a.png"; Comment "icons/b.png"]) "name")
                "pixbuf"
              || String.eqb
                   (getAttribute
                      (Element "Property" [("name", "pixbuf")]
                         [Text "icons/a.png"; Comment "icons/b.png"]) "name")
                   "icon"
           then set_nth 0
                  (Element "Property" [("name", "pixbuf")]
                     (map (fun n => match n with
                                    | Text data =>
                                        Text (replace [("icons/", "/usr/share/")] data)
                                    | _ => n
                                    end)
                        [Text "icons/a.png"; Comment "icons/b.png"])) ks
           else ks).
Proof.
  split; [reflexivity|]. split; [reflexivity|]. split; [reflexivity|].
  split; [simpl; lia|].
  apply (icon_property_turn 3 [("icons/", "/usr/share/")] [] "object" []
           [Element "Property" [("name", "pixbuf")]
              [Text "icons/a.png"; Comment "icons/b.png"]] 0
           "Property" [("name", "pixbuf")]
           [Text "icons/a.png"; Comment "icons/b.png"]);
    [reflexivity|reflexivity|reflexivity|simpl; lia].
Defined.

(** X21. In the branch of [_solve_if_element] for a condition that is
    met, the loop over the snapshot that [getElementsByTagNameCI] returns
    removes every [else] child of the element, in whatever case the tag
    is written and also where two of them are next to each other, and
    nothing else. *)
Theorem remove_elses_removes_all element :
  getElementsByTagNameCI element "else" = filter is_else (childNodes element)
  /\ remove_elses (getElementsByTagNameCI element "else") (childNodes element)
     = filter (fun c => negb (is_else c)) (childNodes element).
Proof.
  assert (H : getElementsByTagNameCI element "else"
              = filter is_else (childNodes element)) by reflexivity.
  split; [exact H|]. apply remove_elses_filter. rewrite H. reflexivity.
Qed.
